(** * CanvasETL: the MCP summarizer (validator, formatter, webhook pusher,
    JSON-RPC dispatcher), embedded from [src/lib/schema.ts],
    [src/lib/format.ts], [src/lib/server.ts] and the [/mcp] route handler. *)

From Stdlib Require Import List NArith ZArith Bool Lia Ascii String.
From Stdlib Require Import Numbers.DecimalString.
Import ListNotations.

(* ================================================================== *)
(** * JavaScript strings *)
(* ================================================================== *)

(** A JavaScript string is a sequence of UTF-16 code units. *)
Definition code_unit := N.
Definition jsstring := list code_unit.

(** An ASCII literal of the source, as code units. *)
Definition lit (s : string) : jsstring :=
  List.map N_of_ascii (list_ascii_of_string s).

Definition LF : code_unit := 10%N.
Definition SPACE : code_unit := 32%N.

Definition cu_eqb (a b : code_unit) : bool := N.eqb a b.

Fixpoint jsstring_eqb (a b : jsstring) : bool :=
  match a, b with
  | [], [] => true
  | x :: a', y :: b' => cu_eqb x y && jsstring_eqb a' b'
  | _, _ => false
  end.

(** [String(n)] / [`${n}`] for a non-negative integer. *)
Definition string_of_N (n : N) : jsstring :=
  lit (NilEmpty.string_of_uint (N.to_uint n)).

Definition string_of_nat (n : nat) : jsstring := string_of_N (N.of_nat n).

(** [String(z)] for an integer-valued number. *)
Definition string_of_Z (z : Z) : jsstring :=
  lit (NilEmpty.string_of_int (Z.to_int z)).

(** The regular expression class [\s], which is also what [trim] strips:
    WhiteSpace and LineTerminator of ECMA-262. *)
Definition is_space (c : code_unit) : bool :=
  ((9 <=? c) && (c <=? 13) || (c =? 32) || (c =? 160) || (c =? 5760)
   || (8192 <=? c) && (c <=? 8202) || (c =? 8232) || (c =? 8233)
   || (c =? 8239) || (c =? 8287) || (c =? 12288) || (c =? 65279))%N.

(** [text.replace(/\s+/g, " ")]: [in_run] says the previous code unit was
    part of the whitespace run being replaced. *)
Fixpoint replace_ws (in_run : bool) (s : jsstring) : jsstring :=
  match s with
  | [] => []
  | c :: t =>
      if is_space c
      then (if in_run then replace_ws true t else SPACE :: replace_ws true t)
      else c :: replace_ws false t
  end.

Fixpoint trimStart (s : jsstring) : jsstring :=
  match s with
  | [] => []
  | c :: t => if is_space c then trimStart t else s
  end.

Definition trimEnd (s : jsstring) : jsstring := rev (trimStart (rev s)).

Definition trim (s : jsstring) : jsstring := trimEnd (trimStart s).

(** [Array.prototype.join]. *)
Fixpoint join (sep : jsstring) (parts : list jsstring) : jsstring :=
  match parts with
  | [] => []
  | [p] => p
  | p :: rest => p ++ sep ++ join sep rest
  end.

(** The lines of a text: [text.split("\n")]. *)
Fixpoint split_lines (s : jsstring) : list jsstring :=
  match s with
  | [] => [[]]
  | c :: t =>
      if cu_eqb c LF then [] :: split_lines t
      else match split_lines t with
           | l :: ls => (c :: l) :: ls
           | [] => [[c]]
           end
  end.

(** [a.includes(b)]. *)
Fixpoint startsWith (s p : jsstring) {struct p} : bool :=
  match p, s with
  | [], _ => true
  | x :: p', y :: s' => cu_eqb x y && startsWith s' p'
  | _ :: _, [] => false
  end.

Fixpoint includes (s p : jsstring) : bool :=
  startsWith s p ||
  match s with
  | [] => false
  | _ :: t => includes t p
  end.

(** [s.toUpperCase()] on the ASCII letters (the formatter applies it to enum
    literals only). *)
Definition toUpperCase (s : jsstring) : jsstring :=
  List.map (fun c => if ((97 <=? c) && (c <=? 122))%N then (c - 32)%N else c) s.

(** Truthiness of an optional string: present and not empty. *)
Definition truthy (o : option jsstring) : bool :=
  match o with
  | Some (_ :: _) => true
  | _ => false
  end.

(* ================================================================== *)
(** * JSON values, [JSON.stringify] *)
(* ================================================================== *)

(** The values a parsed request body is made of. An object keeps its
    properties in insertion order. Numbers are integers of the safe range:
    no modelled function computes with a number, the handlers only test
    whether a value is one and echo an id. *)
#[warnings="-register-all"]
Inductive json : Type :=
| JNull
| JBool (b : bool)
| JNum (z : Z)
| JStr (s : jsstring)
| JArr (items : list json)
| JObj (props : list (jsstring * json)).

(** [o[key]], [None] standing for [undefined]. *)
Fixpoint lookup (key : jsstring) (props : list (jsstring * json)) : option json :=
  match props with
  | [] => None
  | (k, v) :: rest => if jsstring_eqb k key then Some v else lookup key rest
  end.

(** [Object.prototype.hasOwnProperty.call(o, key)]. *)
Definition hasOwnProperty (props : list (jsstring * json)) (key : jsstring) : bool :=
  existsb (fun kv => jsstring_eqb (fst kv) key) props.

Definition hex_digit (n : N) : code_unit :=
  (if n <? 10 then 48 + n else 87 + n)%N.

(** [\uXXXX] with lower-case hexadecimal digits. *)
Definition unicode_escape (c : code_unit) : jsstring :=
  lit "\u" ++ [hex_digit (c / 4096 mod 16); hex_digit (c / 256 mod 16);
               hex_digit (c / 16 mod 16); hex_digit (c mod 16)]%N.

Definition is_high_surrogate (c : code_unit) : bool :=
  ((55296 <=? c) && (c <=? 56319))%N.
Definition is_low_surrogate (c : code_unit) : bool :=
  ((56320 <=? c) && (c <=? 57343))%N.

Definition BACKSLASH : code_unit := 92%N.
Definition DQUOTE : code_unit := 34%N.

(** The body of QuoteJSONString (ECMA-262, well-formed [JSON.stringify]):
    short escapes, [\u00XX] for the other control characters, [\uDXXX] for a
    surrogate that is not part of a pair. *)
Fixpoint quote_body (s : jsstring) : jsstring :=
  match s with
  | [] => []
  | c :: t =>
      if (c =? 8)%N then BACKSLASH :: 98%N :: quote_body t
      else if (c =? 9)%N then BACKSLASH :: 116%N :: quote_body t
      else if (c =? 10)%N then BACKSLASH :: 110%N :: quote_body t
      else if (c =? 12)%N then BACKSLASH :: 102%N :: quote_body t
      else if (c =? 13)%N then BACKSLASH :: 114%N :: quote_body t
      else if (c =? 34)%N then BACKSLASH :: DQUOTE :: quote_body t
      else if (c =? 92)%N then BACKSLASH :: BACKSLASH :: quote_body t
      else if (c <? 32)%N then unicode_escape c ++ quote_body t
      else if is_high_surrogate c then
        match t with
        | d :: t' =>
            if is_low_surrogate d then c :: d :: quote_body t'
            else unicode_escape c ++ quote_body t
        | [] => unicode_escape c
        end
      else if is_low_surrogate c then unicode_escape c ++ quote_body t
      else c :: quote_body t
  end.

Definition QuoteJSONString (s : jsstring) : jsstring :=
  DQUOTE :: quote_body s ++ [DQUOTE].

(** The end of SerializeJSONObject and SerializeJSONArray: the members
    between the brackets, on lines of their own when there is a gap. *)
Definition wrap_members (gap stepback indent : jsstring) (opening closing : string)
           (partial : list jsstring) : jsstring :=
  match partial with
  | [] => lit opening ++ lit closing
  | _ =>
      match gap with
      | [] => lit opening ++ join (lit ",") partial ++ lit closing
      | _ =>
          lit opening ++ [LF] ++ indent ++ join (lit "," ++ [LF] ++ indent) partial
            ++ [LF] ++ stepback ++ lit closing
      end
  end.

(** [key: value] of an object member. *)
Definition member (gap key strP : jsstring) : jsstring :=
  QuoteJSONString key ++ lit ":"
    ++ match gap with [] => [] | _ => [SPACE] end ++ strP.

(** SerializeJSONProperty; [indent] is the current indentation. *)
Fixpoint SerializeJSON (gap indent : jsstring) (v : json) : jsstring :=
  match v with
  | JNull => lit "null"
  | JBool true => lit "true"
  | JBool false => lit "false"
  | JNum z => string_of_Z z
  | JStr s => QuoteJSONString s
  | JArr items =>
      wrap_members gap indent (indent ++ gap) "[" "]"
        (List.map (SerializeJSON gap (indent ++ gap)) items)
  | JObj props =>
      wrap_members gap indent (indent ++ gap) "{" "}"
        (List.map (fun kv => member gap (fst kv) (SerializeJSON gap (indent ++ gap) (snd kv)))
                  props)
  end.

(** [JSON.stringify(value)]. *)
Definition JSON_stringify (v : json) : jsstring := SerializeJSON [] [] v.

(** [JSON.stringify(value, null, 2)]. *)
Definition JSON_stringify2 (v : json) : jsstring := SerializeJSON [SPACE; SPACE] [] v.

(* ================================================================== *)
(** * The data model: [SummarizeInput] (src/lib/schema.ts) *)
(* ================================================================== *)

Inductive OutputFormat := exec_bullets | se_deal_update | memo.
Inductive Status := open | done.
Inductive Severity := low | med | high.
Inductive EvidenceType := conversation | canvas.

Definition OutputFormat_str (f : OutputFormat) : jsstring :=
  match f with
  | exec_bullets => lit "exec_bullets"
  | se_deal_update => lit "se_deal_update"
  | memo => lit "memo"
  end.

Definition Status_str (s : Status) : jsstring :=
  match s with open => lit "open" | done => lit "done" end.

Definition Severity_str (s : Severity) : jsstring :=
  match s with low => lit "low" | med => lit "med" | high => lit "high" end.

Definition EvidenceType_str (t : EvidenceType) : jsstring :=
  match t with conversation => lit "conversation" | canvas => lit "canvas" end.

Module OpenQuestion.
Record t := mk { question : jsstring;
                 owner : option jsstring;
                 due : option jsstring }.
End OpenQuestion.

Module NextStep.
Record t := mk { action : jsstring;
                 owner : option jsstring;
                 due : option jsstring;
                 status : Status }.
End NextStep.

Module Risk.
Record t := mk { risk : jsstring;
                 severity : Severity;
                 mitigation : option jsstring }.
End Risk.

Module Stakeholder.
Record t := mk { name : jsstring;
                 role : option jsstring;
                 influence : option jsstring }.
End Stakeholder.

Module Evidence.
Record t := mk { type : EvidenceType;
                 pointer : jsstring;
                 excerpt : jsstring }.
End Evidence.

Record Context := mkContext {
  summary : jsstring;
  key_points : list jsstring;
  open_questions : list OpenQuestion.t;
  next_steps : list NextStep.t;
  risks : list Risk.t;
  stakeholders : list Stakeholder.t;
  evidence : list Evidence.t;
  last_updated : option jsstring
}.

Record SummarizeInput := mkSummarizeInput {
  deal_id : option jsstring;
  deal_name : option jsstring;
  source_canvas_name : option jsstring;
  context : Context;
  output_format : OutputFormat;
  doc_title : option jsstring
}.

(** A validated request as the JavaScript object the validator builds: the
    keys in schema order, an absent optional key left out. *)
Definition opt_prop (key : string) (o : option jsstring) : list (jsstring * json) :=
  match o with
  | Some s => [(lit key, JStr s)]
  | None => []
  end.

Definition OpenQuestion_json (q : OpenQuestion.t) : json :=
  JObj ([(lit "question", JStr (OpenQuestion.question q))]
          ++ opt_prop "owner" (OpenQuestion.owner q)
          ++ opt_prop "due" (OpenQuestion.due q)).

Definition NextStep_json (s : NextStep.t) : json :=
  JObj ([(lit "action", JStr (NextStep.action s))]
          ++ opt_prop "owner" (NextStep.owner s)
          ++ opt_prop "due" (NextStep.due s)
          ++ [(lit "status", JStr (Status_str (NextStep.status s)))]).

Definition Risk_json (r : Risk.t) : json :=
  JObj ([(lit "risk", JStr (Risk.risk r));
         (lit "severity", JStr (Severity_str (Risk.severity r)))]
          ++ opt_prop "mitigation" (Risk.mitigation r)).

Definition Stakeholder_json (s : Stakeholder.t) : json :=
  JObj ([(lit "name", JStr (Stakeholder.name s))]
          ++ opt_prop "role" (Stakeholder.role s)
          ++ opt_prop "influence" (Stakeholder.influence s)).

Definition Evidence_json (e : Evidence.t) : json :=
  JObj [(lit "type", JStr (EvidenceType_str (Evidence.type e)));
        (lit "pointer", JStr (Evidence.pointer e));
        (lit "excerpt", JStr (Evidence.excerpt e))].

Definition Context_json (c : Context) : json :=
  JObj ([(lit "summary", JStr (summary c));
         (lit "key_points", JArr (List.map JStr (key_points c)));
         (lit "open_questions", JArr (List.map OpenQuestion_json (open_questions c)));
         (lit "next_steps", JArr (List.map NextStep_json (next_steps c)));
         (lit "risks", JArr (List.map Risk_json (risks c)));
         (lit "stakeholders", JArr (List.map Stakeholder_json (stakeholders c)));
         (lit "evidence", JArr (List.map Evidence_json (evidence c)))]
          ++ opt_prop "last_updated" (last_updated c)).

Definition SummarizeInput_json (i : SummarizeInput) : json :=
  JObj (opt_prop "deal_id" (deal_id i)
          ++ opt_prop "deal_name" (deal_name i)
          ++ opt_prop "source_canvas_name" (source_canvas_name i)
          ++ [(lit "context", Context_json (context i));
              (lit "output_format", JStr (OutputFormat_str (output_format i)))]
          ++ opt_prop "doc_title" (doc_title i)).

(* ================================================================== *)
(** * The formatter (src/lib/format.ts) *)
(* ================================================================== *)

Definition MAX_ITEMS : nat := 8.

Definition clean (text : jsstring) : jsstring := trim (replace_ws false text).

(** [limitItems]: the items kept and the number left out. *)
Definition limitItems {T : Type} (items : list T) : list T * nat :=
  if Nat.leb (List.length items) MAX_ITEMS then (items, 0)
  else (firstn MAX_ITEMS items, List.length items - MAX_ITEMS).

(** [`- ... (+${remaining} more)`]. *)
Definition more_line (remaining : nat) : jsstring :=
  lit "- ... (+" ++ string_of_nat remaining ++ lit " more)".

(** [if (limited.remaining) lines.push(...)]. *)
Definition push_more (lines : list jsstring) (remaining : nat) : list jsstring :=
  match remaining with
  | O => lines
  | _ => lines ++ [more_line remaining]
  end.

Definition key_point_line (item : jsstring) : jsstring := lit "- " ++ clean item.

Definition formatList (items : list jsstring) : jsstring :=
  match items with
  | [] => lit "- None"
  | _ =>
      let limited := limitItems items in
      let lines := List.map key_point_line (fst limited) in
      join [LF] (push_more lines (snd limited))
  end.

(** [meta.length ? ` (${meta.join("; ")})` : ""]. *)
Definition metaText (meta : list jsstring) : jsstring :=
  match meta with
  | [] => []
  | _ => lit " (" ++ join (lit "; ") meta ++ lit ")"
  end.

(** [if (value) meta.push(`${label}${clean(value)}`)]. *)
Definition meta_entry (label : string) (value : option jsstring) : list jsstring :=
  match value with
  | Some v => if truthy value then [lit label ++ clean v] else []
  | None => []
  end.

Definition question_line (item : OpenQuestion.t) : jsstring :=
  let meta := meta_entry "Owner: " (OpenQuestion.owner item)
              ++ meta_entry "Due: " (OpenQuestion.due item) in
  lit "- " ++ clean (OpenQuestion.question item) ++ metaText meta.

Definition formatQuestions (items : list OpenQuestion.t) : jsstring :=
  match items with
  | [] => lit "- None"
  | _ =>
      let limited := limitItems items in
      let lines := List.map question_line (fst limited) in
      join [LF] (push_more lines (snd limited))
  end.

Definition next_step_line (item : NextStep.t) : jsstring :=
  let meta := [lit "Status: " ++ Status_str (NextStep.status item)]
              ++ meta_entry "Owner: " (NextStep.owner item)
              ++ meta_entry "Due: " (NextStep.due item) in
  lit "- " ++ clean (NextStep.action item) ++ lit " (" ++ join (lit "; ") meta ++ lit ")".

Definition formatNextSteps (items : list NextStep.t) : jsstring :=
  match items with
  | [] => lit "- None"
  | _ =>
      let limited := limitItems items in
      let lines := List.map next_step_line (fst limited) in
      join [LF] (push_more lines (snd limited))
  end.

Definition risk_line (item : Risk.t) : jsstring :=
  let severity := toUpperCase (Severity_str (Risk.severity item)) in
  let mitigation :=
    match Risk.mitigation item with
    | Some m => if truthy (Risk.mitigation item)
                then lit " (Mitigation: " ++ clean m ++ lit ")" else []
    | None => []
    end in
  lit "- [" ++ severity ++ lit "] " ++ clean (Risk.risk item) ++ mitigation.

Definition formatRisks (items : list Risk.t) : jsstring :=
  match items with
  | [] => lit "- None"
  | _ =>
      let limited := limitItems items in
      let lines := List.map risk_line (fst limited) in
      join [LF] (push_more lines (snd limited))
  end.

Definition stakeholder_line (item : Stakeholder.t) : jsstring :=
  let meta := meta_entry "Role: " (Stakeholder.role item)
              ++ meta_entry "Influence: " (Stakeholder.influence item) in
  lit "- " ++ clean (Stakeholder.name item) ++ metaText meta.

Definition formatStakeholders (items : list Stakeholder.t) : jsstring :=
  match items with
  | [] => lit "- None"
  | _ =>
      let limited := limitItems items in
      let lines := List.map stakeholder_line (fst limited) in
      join [LF] (push_more lines (snd limited))
  end.

(** [a ?? b]. *)
Definition nullish (a : option jsstring) (b : jsstring) : jsstring :=
  match a with
  | Some s => s
  | None => b
  end.

(** [if (value) lines.push(`${label}${clean(value)}`)]. *)
Definition header_line (label : string) (value : option jsstring) : list jsstring :=
  match value with
  | Some v => if truthy value then [lit label ++ clean v] else []
  | None => []
  end.

(** The lines [formatSummary] pushes for the document itself, in order. *)
Definition body_lines (input : SummarizeInput) : list jsstring :=
  let ctx := context input in
  let dealLabel := nullish (deal_name input) (nullish (deal_id input) (lit "Unspecified")) in
  [lit "## Deal Summary";
   lit "- Deal: " ++ clean dealLabel;
   lit "- Summary: " ++ clean (summary ctx)]
  ++ (if truthy (deal_name input) && truthy (deal_id input)
      then header_line "- Deal ID: " (deal_id input) else [])
  ++ header_line "- Source Canvas: " (source_canvas_name input)
  ++ header_line "- Last Updated: " (last_updated ctx)
  ++ [[]; lit "## Key Points"; formatList (key_points ctx)]
  ++ [[]; lit "## Risks"; formatRisks (risks ctx)]
  ++ [[]; lit "## Open Questions"; formatQuestions (open_questions ctx)]
  ++ [[]; lit "## Next Steps"; formatNextSteps (next_steps ctx)]
  ++ [[]; lit "## Stakeholders"; formatStakeholders (stakeholders ctx)].

(** The lines pushed when [output_format !== "exec_bullets"]. *)
Definition payload_lines (input : SummarizeInput) : list jsstring :=
  match output_format input with
  | exec_bullets => []
  | _ => [[]; lit "### Structured Payload (for ETL)"; lit "```json";
          JSON_stringify2 (SummarizeInput_json input); lit "```"]
  end.

Definition summary_lines (input : SummarizeInput) : list jsstring :=
  body_lines input ++ payload_lines input.

Definition formatSummary (input : SummarizeInput) : jsstring :=
  join [LF] (summary_lines input).

(* ================================================================== *)
(** * The validator (src/lib/schema.ts, on zod 3) *)
(* ================================================================== *)

(** An element of an issue's path: an object key or an array index. *)
Inductive path_elem := PKey (k : jsstring) | PIndex (i : nat).

Record ZodIssue := mkIssue { path : list path_elem; message : jsstring }.

(** The outcome of a parse: every issue found, or the parsed value. *)
Definition ParseResult (A : Type) : Type := (list ZodIssue + A)%type.

(** A schema parses the value found at [path]; [None] is [undefined]. *)
Definition Schema (A : Type) : Type := list path_elem -> option json -> ParseResult A.

(** Parsing the members of an object or array goes on after a failure and
    adds the issues up. *)
Definition ap {A B : Type} (f : ParseResult (A -> B)) (x : ParseResult A) : ParseResult B :=
  match f, x with
  | inr g, inr a => inr (g a)
  | inl e1, inl e2 => inl (e1 ++ e2)
  | inl e, inr _ => inl e
  | inr _, inl e => inl e
  end.

Notation "f <*> x" := (ap f x) (at level 51, left associativity).

(** zod's [getParsedType] on the values of a parsed body. *)
Definition parsedType (v : option json) : jsstring :=
  match v with
  | None => lit "undefined"
  | Some JNull => lit "null"
  | Some (JBool _) => lit "boolean"
  | Some (JNum _) => lit "number"
  | Some (JStr _) => lit "string"
  | Some (JArr _) => lit "array"
  | Some (JObj _) => lit "object"
  end.

(** The issue [invalid_type] with zod's default message. *)
Definition invalid_type (p : list path_elem) (expected : jsstring) (v : option json) : ZodIssue :=
  mkIssue p
    match v with
    | None => lit "Required"
    | Some _ => lit "Expected " ++ expected ++ lit ", received " ++ parsedType v
    end.

(** [z.string().min(1)]: a string of length at least 1; nothing is
    trimmed, nothing is coerced. *)
Definition trimmedString : Schema jsstring := fun p v =>
  match v with
  | Some (JStr s) =>
      if Nat.ltb (List.length s) 1
      then inl [mkIssue p (lit "String must contain at least 1 character(s)")]
      else inr s
  | _ => inl [invalid_type p (lit "string") v]
  end.

(** [schema.optional()]. *)
Definition optional {A : Type} (schema : Schema A) : Schema (option A) := fun p v =>
  match v with
  | None => inr None
  | Some _ => match schema p v with
              | inl e => inl e
              | inr a => inr (Some a)
              end
  end.

(** [schema.default(d)]: [undefined] is replaced by [d], which the
    schemas of this file accept as it is. *)
Definition default {A : Type} (schema : Schema (option (list A))) : Schema (list A) := fun p v =>
  match v with
  | None => inr []
  | Some _ => match schema p v with
              | inl e => inl e
              | inr (Some a) => inr a
              | inr None => inr []
              end
  end.

Fixpoint parse_items {A : Type} (inner : Schema A) (p : list path_elem) (i : nat)
         (items : list json) : ParseResult (list A) :=
  match items with
  | [] => inr []
  | x :: rest =>
      inr cons <*> inner (p ++ [PIndex i]) (Some x) <*> parse_items inner p (S i) rest
  end.

(** [z.array(inner)]. *)
Definition z_array {A : Type} (inner : Schema A) : Schema (list A) := fun p v =>
  match v with
  | Some (JArr items) => parse_items inner p 0 items
  | _ => inl [invalid_type p (lit "array") v]
  end.

(** zod's [util.joinValues] on string options. *)
Definition joinValues (options : list jsstring) : jsstring :=
  join (lit " | ") (List.map (fun o => lit "'" ++ o ++ lit "'") options).

(** [z.enum(options)]: the option whose literal the value is. *)
Definition z_enum {E : Type} (options : list E) (str : E -> jsstring) : Schema E := fun p v =>
  match v with
  | Some (JStr s) =>
      match find (fun e => jsstring_eqb (str e) s) options with
      | Some e => inr e
      | None =>
          inl [mkIssue p (lit "Invalid enum value. Expected "
                            ++ joinValues (List.map str options)
                            ++ lit ", received '" ++ s ++ lit "'")]
      end
  | _ => inl [invalid_type p (joinValues (List.map str options)) v]
  end.

(** [\d]. *)
Definition is_digit (c : code_unit) : bool := ((48 <=? c) && (c <=? 57))%N.

(** [/^\d{4}-\d{2}-\d{2}$/.test(s)]. *)
Definition date_regex_test (s : jsstring) : bool :=
  match s with
  | [y1; y2; y3; y4; h1; m1; m2; h2; d1; d2] =>
      is_digit y1 && is_digit y2 && is_digit y3 && is_digit y4
      && cu_eqb h1 45%N && is_digit m1 && is_digit m2
      && cu_eqb h2 45%N && is_digit d1 && is_digit d2
  | _ => false
  end.

Definition dateString : Schema jsstring := fun p v =>
  match v with
  | Some (JStr s) =>
      if date_regex_test s then inr s
      else inl [mkIssue p (lit "Use YYYY-MM-DD")]
  | _ => inl [invalid_type p (lit "string") v]
  end.

(** [z.object(shape)] keeps zod's default for unknown keys: they are
    stripped, and no issue is raised for them. [field] parses the value
    under one key of the shape. *)
Definition field {A : Type} (schema : Schema A) (key : string)
           (p : list path_elem) (props : list (jsstring * json)) : ParseResult A :=
  schema (p ++ [PKey (lit key)]) (lookup (lit key) props).

Definition z_object {A : Type} (shape : list path_elem -> list (jsstring * json) -> ParseResult A)
  : Schema A := fun p v =>
  match v with
  | Some (JObj props) => shape p props
  | _ => inl [invalid_type p (lit "object") v]
  end.

Definition openQuestionSchema : Schema OpenQuestion.t :=
  z_object (fun p o =>
    inr OpenQuestion.mk
      <*> field trimmedString "question" p o
      <*> field (optional trimmedString) "owner" p o
      <*> field (optional trimmedString) "due" p o).

Definition nextStepSchema : Schema NextStep.t :=
  z_object (fun p o =>
    inr NextStep.mk
      <*> field trimmedString "action" p o
      <*> field (optional trimmedString) "owner" p o
      <*> field (optional trimmedString) "due" p o
      <*> field (z_enum [open; done] Status_str) "status" p o).

Definition riskSchema : Schema Risk.t :=
  z_object (fun p o =>
    inr Risk.mk
      <*> field trimmedString "risk" p o
      <*> field (z_enum [low; med; high] Severity_str) "severity" p o
      <*> field (optional trimmedString) "mitigation" p o).

Definition stakeholderSchema : Schema Stakeholder.t :=
  z_object (fun p o =>
    inr Stakeholder.mk
      <*> field trimmedString "name" p o
      <*> field (optional trimmedString) "role" p o
      <*> field (optional trimmedString) "influence" p o).

Definition evidenceSchema : Schema Evidence.t :=
  z_object (fun p o =>
    inr Evidence.mk
      <*> field (z_enum [conversation; canvas] EvidenceType_str) "type" p o
      <*> field trimmedString "pointer" p o
      <*> field trimmedString "excerpt" p o).

Definition contextSchema : Schema Context :=
  z_object (fun p o =>
    inr mkContext
      <*> field trimmedString "summary" p o
      <*> field (default (optional (z_array trimmedString))) "key_points" p o
      <*> field (default (optional (z_array openQuestionSchema))) "open_questions" p o
      <*> field (default (optional (z_array nextStepSchema))) "next_steps" p o
      <*> field (default (optional (z_array riskSchema))) "risks" p o
      <*> field (default (optional (z_array stakeholderSchema))) "stakeholders" p o
      <*> field (default (optional (z_array evidenceSchema))) "evidence" p o
      <*> field (optional dateString) "last_updated" p o).

Definition summarizeInputSchema : Schema SummarizeInput :=
  z_object (fun p o =>
    inr mkSummarizeInput
      <*> field (optional trimmedString) "deal_id" p o
      <*> field (optional trimmedString) "deal_name" p o
      <*> field (optional trimmedString) "source_canvas_name" p o
      <*> field contextSchema "context" p o
      <*> field (z_enum [exec_bullets; se_deal_update; memo] OutputFormat_str) "output_format" p o
      <*> field (optional trimmedString) "doc_title" p o).

(** [schema.safeParse(data)]. *)
Definition safeParse {A : Type} (schema : Schema A) (data : json) : ParseResult A :=
  schema [] (Some data).

Definition path_elem_str (e : path_elem) : jsstring :=
  match e with
  | PKey k => k
  | PIndex i => string_of_nat i
  end.

Definition issue_line (issue : ZodIssue) : jsstring :=
  let p := match path issue with
           | [] => lit "input"
           | _ => join (lit ".") (List.map path_elem_str (path issue))
           end in
  lit "- " ++ p ++ lit ": " ++ message issue.

Definition formatZodError (errors : list ZodIssue) : jsstring :=
  join [LF] (List.map issue_line errors).

(* ================================================================== *)
(** * The environment and the effects of a request *)
(* ================================================================== *)

Definition SERVER_NAME : jsstring := lit "CanvasApp MCP Summarizer".
Definition SERVER_VERSION : jsstring := lit "0.1.0".
Definition PROTOCOL_VERSION : jsstring := lit "2024-11-05".

(** The request [fetch] is called with. *)
Record HttpRequest := mkHttpRequest {
  req_url : jsstring;
  req_method : jsstring;
  req_redirect : jsstring;
  req_headers : list (jsstring * jsstring);
  req_body : jsstring
}.

(** What a call of [fetch] comes to: it throws ([error] is
    [String(error)]), or it resolves to a response with a status and a
    body ([None] when [res.text()] rejects). *)
Inductive FetchOutcome :=
| FetchRejected (error : jsstring)
| FetchResponse (status : N) (body : option jsstring).

(** What the handler reads from outside: the process environment, the
    network as seen through [fetch], the process uptime and the clock. *)
Record Env := mkEnv {
  APP_BASE_URL : option jsstring;
  DOC_WEBHOOK_URL : option jsstring;
  DOC_WEBHOOK_TOKEN : option jsstring;
  fetch : HttpRequest -> FetchOutcome;
  process_uptime : Z;
  now_iso : jsstring
}.

(** What the handler does to the outside: a call of [log], a call of
    [fetch]. *)
Inductive Event :=
| EvLog (level message : string) (meta : list (jsstring * json))
| EvFetch (req : HttpRequest).

(** A computation reads the environment and emits events in order. *)
Definition IO (A : Type) : Type := Env -> A * list Event.

Definition ret {A : Type} (a : A) : IO A := fun _ => (a, []).

Definition bind {A B : Type} (m : IO A) (k : A -> IO B) : IO B := fun env =>
  let (a, t1) := m env in
  let (b, t2) := k a env in
  (b, t1 ++ t2).

Notation "x <- m ;; k" := (bind m (fun x => k))
  (at level 61, m at next level, right associativity).
Notation "m ;;; k" := (bind m (fun _ => k))
  (at level 61, right associativity).

Definition ask : IO Env := fun env => (env, []).

Definition emit (e : Event) : IO unit := fun _ => (tt, [e]).

Definition log (level message : string) (meta : list (jsstring * json)) : IO unit :=
  emit (EvLog level message meta).

(** The result of a computation, and the calls of [fetch] it made. *)
Definition result_of {A : Type} (m : IO A) (env : Env) : A := fst (m env).
Definition trace_of {A : Type} (m : IO A) (env : Env) : list Event := snd (m env).

Definition is_fetch (e : Event) : bool :=
  match e with EvFetch _ => true | EvLog _ _ _ => false end.

Definition fetches {A : Type} (m : IO A) (env : Env) : list Event :=
  filter is_fetch (trace_of m env).

(** [src/lib/server.ts] *)
Definition getHealthPayload : IO json :=
  env <- ask ;;
  ret (JObj [(lit "version", JStr SERVER_VERSION);
             (lit "uptime", JNum (process_uptime env));
             (lit "server_time", JStr (now_iso env))]).

Definition isBaseUrlConfigured : IO bool :=
  env <- ask ;; ret (truthy (APP_BASE_URL env)).

(* ================================================================== *)
(** * The webhook pusher *)
(* ================================================================== *)

Definition getDocWebhookConfig : IO (option (jsstring * jsstring)) :=
  env <- ask ;;
  let url := DOC_WEBHOOK_URL env in
  let token := DOC_WEBHOOK_TOKEN env in
  ret (if negb (truthy url) || negb (truthy token) then None
       else match url, token with
            | Some u, Some t => Some (u, t)
            | _, _ => None
            end).

(** [{ ok: true }] or [{ ok: false, error }]. *)
Inductive PushResult :=
| PushOk
| PushFailed (error : jsstring).

Definition push_ok (r : PushResult) : bool :=
  match r with PushOk => true | PushFailed _ => false end.

Definition NOT_CONFIGURED : jsstring :=
  lit "DOC_WEBHOOK_URL / DOC_WEBHOOK_TOKEN not configured.".

(** [body.slice(0, n)]. *)
Definition slice0 (n : nat) (s : jsstring) : jsstring := firstn n s.

Definition webhook_request (url token title text : jsstring) : HttpRequest :=
  mkHttpRequest url (lit "POST") (lit "manual")
    [(lit "Content-Type", lit "application/json")]
    (JSON_stringify (JObj [(lit "token", JStr token);
                           (lit "title", JStr title);
                           (lit "text", JStr text);
                           (lit "source", JStr (lit "CanvasETL"))])).

Definition pushSummaryToDocWebhook (title text : jsstring) : IO PushResult :=
  cfg <- getDocWebhookConfig ;;
  match cfg with
  | None => ret (PushFailed NOT_CONFIGURED)
  | Some (url, token) =>
      let req := webhook_request url token title text in
      env <- ask ;;
      emit (EvFetch req) ;;;
      match fetch env req with
      | FetchRejected error => ret (PushFailed error)
      | FetchResponse status text_result =>
          let ok := ((200 <=? status) && (status <? 400))%N in
          if ok then ret PushOk
          else
            let body := match text_result with Some b => b | None => [] end in
            ret (PushFailed (lit "Webhook HTTP " ++ string_of_N status ++ lit ": "
                               ++ slice0 300 body))
      end
  end.

(* ================================================================== *)
(** * The JSON-RPC dispatcher (the [/mcp] route) *)
(* ================================================================== *)

(** Object and string literals of the source. *)
Definition obj (props : list (string * json)) : json :=
  JObj (List.map (fun kv => (lit (fst kv), snd kv)) props).
Definition str (s : string) : json := JStr (lit s).

Definition CORS_HEADERS : list (jsstring * jsstring) :=
  [(lit "Access-Control-Allow-Origin", lit "*");
   (lit "Access-Control-Allow-Methods", lit "POST, OPTIONS");
   (lit "Access-Control-Allow-Headers", lit "Content-Type");
   (lit "Cache-Control", lit "no-store")].

(** [JsonRpcId]: a string, a number or [null], as a JSON value. *)
Definition coerceJsonRpcId (value : option json) : json :=
  match value with
  | Some (JStr s) => JStr s
  | Some (JNum n) => JNum n
  | _ => JNull
  end.

(** [String(id)] on a [JsonRpcId]. *)
Definition String_of_id (id : json) : jsstring :=
  match id with
  | JStr s => s
  | JNum n => string_of_Z n
  | _ => lit "null"
  end.

Local Open Scope string_scope.

Definition string_schema : json := obj [("type", str "string")].

Definition item_schema (props : list (string * json)) (required : list string) : json :=
  obj [("type", str "object");
       ("properties", obj props);
       ("required", JArr (List.map str required));
       ("additionalProperties", JBool false)].

Definition array_of (items : json) : json :=
  obj [("type", str "array"); ("items", items)].

Definition enum_schema (options : list string) : json :=
  obj [("type", str "string"); ("enum", JArr (List.map str options))].

Definition TOOL_DEFS : list json :=
  [obj [("name", str "healthcheck");
        ("description", str "Return server version, uptime, and server_time.");
        ("inputSchema", obj [("type", str "object");
                             ("properties", obj []);
                             ("additionalProperties", JBool false)])];
   obj [("name", str "summarize_context");
        ("description",
          str ("Read the full relevant conversation context and (if specified) the canvas named source_canvas_name before calling this tool. "
               ++ "Do not ask the user to paste anything. "
               ++ "Prefer structured extraction; keep evidence excerpts short and minimal. "
               ++ "If the canvas name is provided, prioritize the canvas for canonical fields, and use the chat for recent deltas."));
        ("inputSchema",
          obj [("type", str "object");
               ("properties",
                 obj [("deal_id", string_schema);
                      ("deal_name", string_schema);
                      ("source_canvas_name", string_schema);
                      ("doc_title", string_schema);
                      ("context",
                        obj [("type", str "object");
                             ("properties",
                               obj [("summary", string_schema);
                                    ("key_points", array_of string_schema);
                                    ("open_questions",
                                      array_of (item_schema
                                        [("question", string_schema);
                                         ("owner", string_schema);
                                         ("due", string_schema)]
                                        ["question"]));
                                    ("next_steps",
                                      array_of (item_schema
                                        [("action", string_schema);
                                         ("owner", string_schema);
                                         ("due", string_schema);
                                         ("status", enum_schema ["open"; "done"])]
                                        ["action"; "status"]));
                                    ("risks",
                                      array_of (item_schema
                                        [("risk", string_schema);
                                         ("severity", enum_schema ["low"; "med"; "high"]);
                                         ("mitigation", string_schema)]
                                        ["risk"; "severity"]));
                                    ("stakeholders",
                                      array_of (item_schema
                                        [("name", string_schema);
                                         ("role", string_schema);
                                         ("influence", string_schema)]
                                        ["name"]));
                                    ("evidence",
                                      array_of (item_schema
                                        [("type", enum_schema ["conversation"; "canvas"]);
                                         ("pointer", string_schema);
                                         ("excerpt", string_schema)]
                                        ["type"; "pointer"; "excerpt"]));
                                    ("last_updated",
                                      obj [("type", str "string");
                                           ("description", str "YYYY-MM-DD")])]);
                             ("required", JArr [str "summary"]);
                             ("additionalProperties", JBool false)]);
                      ("output_format",
                        enum_schema ["exec_bullets"; "se_deal_update"; "memo"])]);
               ("required", JArr [str "context"; str "output_format"]);
               ("additionalProperties", JBool false)])]].

Local Close Scope string_scope.

(** [makeError]; a [data] left out is [undefined] and does not appear in
    the serialized response. *)
Definition makeError (id : json) (code : Z) (message : string) (data : option json) : json :=
  JObj [(lit "jsonrpc", str "2.0");
        (lit "id", id);
        (lit "error",
          JObj ([(lit "code", JNum code); (lit "message", str message)]
                  ++ match data with
                     | Some d => [(lit "data", d)]
                     | None => []
                     end))].

Definition makeResult (id : json) (result : json) : json :=
  JObj [(lit "jsonrpc", str "2.0"); (lit "id", id); (lit "result", result)].

(** The result of a tool call: [{ content: [{ type: "text", text }], isError }]. *)
Definition toolResult (text : jsstring) (isError : bool) : json :=
  JObj [(lit "content", JArr [JObj [(lit "type", str "text"); (lit "text", JStr text)]]);
        (lit "isError", JBool isError)].

Definition getContextStats (input : json) : list (jsstring * json) :=
  match input with
  | JObj i =>
      match lookup (lit "context") i with
      | Some (JObj ctx) =>
          List.map
            (fun name : string =>
               (lit name ++ lit "_count",
                JNum match lookup (lit name) ctx with
                     | Some (JArr value) => Z.of_nat (List.length value)
                     | _ => 0%Z
                     end))
            ["key_points"; "open_questions"; "next_steps"; "risks";
             "stakeholders"; "evidence"]%string
      | _ => []
      end
  | _ => []
  end.

(** The branch of [tools/call] for [summarize_context]. *)
Definition callSummarizeContext (id : json) (requestId name : jsstring)
           (args : list (jsstring * json)) : IO (option json) :=
  match safeParse summarizeInputSchema (JObj args) with
  | inl errors =>
      let details := formatZodError errors in
      log "warn" "mcp.tools.call.validation_error"
          [(lit "request_id", JStr requestId); (lit "tool", JStr name)] ;;;
      ret (Some (makeResult id
                   (toolResult (lit "Validation error:" ++ [LF] ++ details) true)))
  | inr data =>
      let summaryText := formatSummary data in
      let title :=
        nullish (doc_title data)
          (nullish (deal_name data)
             (nullish (deal_id data) (lit "CanvasETL Summary"))) in
      pushResult <- pushSummaryToDocWebhook title summaryText ;;
      match pushResult with
      | PushOk => log "info" "mcp.doc_push.ok" [(lit "request_id", JStr requestId)]
      | PushFailed error =>
          log "error" "mcp.doc_push.failed"
              [(lit "request_id", JStr requestId); (lit "error", JStr error)]
      end ;;;
      log "info" "mcp.tools.call.summarize_context"
          ([(lit "request_id", JStr requestId);
            (lit "tool", JStr name);
            (lit "output_format", JStr (OutputFormat_str (output_format data)))]
             ++ getContextStats (SummarizeInput_json data)) ;;;
      ret (Some (makeResult id
                   (toolResult
                      match pushResult with
                      | PushOk => lit "Doc push: ok" ++ [LF] ++ lit "Title: " ++ title
                      | PushFailed error => lit "Doc push: failed" ++ [LF] ++ error
                      end
                      (negb (push_ok pushResult)))))
  end.

(** [isObject(message.params) ? message.params : {}]. *)
Definition params_of (message : list (jsstring * json)) : list (jsstring * json) :=
  match lookup (lit "params") message with
  | Some (JObj p) => p
  | _ => []
  end.

(** [typeof params.name === "string" ? params.name : ""]. *)
Definition name_of (params : list (jsstring * json)) : jsstring :=
  match lookup (lit "name") params with
  | Some (JStr n) => n
  | _ => []
  end.

(** [isObject(params.arguments) ? params.arguments : {}]. *)
Definition arguments_of (params : list (jsstring * json)) : list (jsstring * json) :=
  match lookup (lit "arguments") params with
  | Some (JObj a) => a
  | _ => []
  end.

(** The case ["tools/call"] of the switch. *)
Definition toolsCall (id : json) (requestId : jsstring)
           (message : list (jsstring * json)) : IO (option json) :=
  let params := params_of message in
  let name := name_of params in
  let args := arguments_of params in
  match name with
  | [] =>
      log "warn" "mcp.tools.call.invalid" [(lit "request_id", JStr requestId)] ;;;
      ret (Some (makeResult id
                   (toolResult (lit "Validation error: tool name is required.") true)))
  | _ =>
      if jsstring_eqb name (lit "healthcheck") then
        payload <- getHealthPayload ;;
        log "info" "mcp.tools.call.healthcheck" [(lit "request_id", JStr requestId)] ;;;
        ret (Some (makeResult id (toolResult (JSON_stringify2 payload) false)))
      else if jsstring_eqb name (lit "summarize_context") then
        callSummarizeContext id requestId name args
      else
        log "warn" "mcp.tools.call.unknown_tool"
            [(lit "request_id", JStr requestId); (lit "tool", JStr name)] ;;;
        ret (Some (makeResult id (toolResult (lit "Unknown tool: " ++ name) true)))
  end.

(** [hasId ? coerceJsonRpcId(message.id) : null]. *)
Definition envelope_id (m : list (jsstring * json)) : json :=
  if hasOwnProperty m (lit "id") then coerceJsonRpcId (lookup (lit "id") m) else JNull.

(** [hasId ? String(id) : "notification"]. *)
Definition envelope_requestId (m : list (jsstring * json)) : jsstring :=
  if hasOwnProperty m (lit "id") then String_of_id (envelope_id m) else lit "notification".

(** [handleMessage] from the point where the envelope is known to carry
    [jsonrpc: "2.0"] and a non-empty [method]: the two notification
    acknowledgments, the guard on a missing id, the switch. *)
Definition routeMethod (hasId : bool) (id : json) (requestId method : jsstring)
           (m : list (jsstring * json)) : IO (option json) :=
  if jsstring_eqb method (lit "initialized")
     || jsstring_eqb method (lit "notifications/initialized") then
    log "info" "mcp.initialized" [(lit "request_id", JStr requestId)] ;;;
    ret (if hasId then Some (makeResult id (JObj [])) else None)
  else if negb hasId
          && negb (jsstring_eqb method (lit "notifications/initialized"))
          && negb (jsstring_eqb method (lit "initialized")) then
    log "warn" "mcp.notification.ignored"
        [(lit "request_id", JStr requestId); (lit "method", JStr method)] ;;;
    ret None
  else if jsstring_eqb method (lit "initialize") then
    configured <- isBaseUrlConfigured ;;
    log "info" "mcp.initialize"
        [(lit "request_id", JStr requestId);
         (lit "base_url_configured", JBool configured)] ;;;
    ret (Some (makeResult id
                 (JObj [(lit "protocolVersion", JStr PROTOCOL_VERSION);
                        (lit "capabilities",
                          obj [("tools", obj [("listChanged", JBool false)])]%string);
                        (lit "serverInfo",
                          JObj [(lit "name", JStr SERVER_NAME);
                                (lit "version", JStr SERVER_VERSION)])])))
  else if jsstring_eqb method (lit "tools/list") then
    log "info" "mcp.tools.list"
        [(lit "request_id", JStr requestId);
         (lit "tool_count", JNum (Z.of_nat (List.length TOOL_DEFS)))] ;;;
    ret (Some (makeResult id (obj [("tools", JArr TOOL_DEFS)]%string)))
  else if jsstring_eqb method (lit "tools/call") then
    toolsCall id requestId m
  else
    log "warn" "mcp.method.not_found"
        [(lit "request_id", JStr requestId); (lit "method", JStr method)] ;;;
    ret (Some (makeError id (-32601) "Method not found"
                 (Some (JObj [(lit "method", JStr method)])))).

(** [handleMessage]: the response to one envelope, [None] for [null]. *)
Definition handleMessage (message : json) : IO (option json) :=
  match message with
  | JObj m =>
      let hasId := hasOwnProperty m (lit "id") in
      let id := envelope_id m in
      let requestId := envelope_requestId m in
      match lookup (lit "jsonrpc") m with
      | Some (JStr v) =>
          if jsstring_eqb v (lit "2.0") then
            let method := match lookup (lit "method") m with
                          | Some (JStr s) => s
                          | _ => []
                          end in
            match method with
            | [] => ret (Some (makeError id (-32600) "Invalid Request"
                                 (Some (str "Missing method."))))
            | _ => routeMethod hasId id requestId method m
            end
          else ret (Some (makeError id (-32600) "Invalid Request"
                            (Some (str "Missing jsonrpc: '2.0'."))))
      | _ => ret (Some (makeError id (-32600) "Invalid Request"
                          (Some (str "Missing jsonrpc: '2.0'."))))
      end
  | _ => ret (Some (makeError JNull (-32600) "Invalid Request"
                      (Some (str "Expected JSON object."))))
  end.

(** The HTTP response: a status, the CORS headers, a JSON body or none. *)
Record HttpResponse := mkHttpResponse {
  res_status : N;
  res_headers : list (jsstring * jsstring);
  res_body : option json
}.

Definition jsonResponse (body : json) (status : N) : HttpResponse :=
  mkHttpResponse status CORS_HEADERS (Some body).

Definition noContent : HttpResponse := mkHttpResponse 204 CORS_HEADERS None.

(** The loop of [POST] over a batch: the responses pushed, in order. *)
Fixpoint handleBatch (body : list json) : IO (list json) :=
  match body with
  | [] => ret []
  | message :: rest =>
      response <- handleMessage message ;;
      responses <- handleBatch rest ;;
      ret match response with
          | Some r => r :: responses
          | None => responses
          end
  end.

(** [POST]; [body] is what [req.json()] resolves to, [inl error] when it
    throws ([error] is [String(error)]). *)
Definition POST (body : jsstring + json) : IO HttpResponse :=
  match body with
  | inl error =>
      log "error" "mcp.parse_error" [(lit "error", JStr error)] ;;;
      ret (jsonResponse (makeError JNull (-32700) "Parse error" None) 400)
  | inr (JArr messages) =>
      responses <- handleBatch messages ;;
      match responses with
      | [] => ret noContent
      | _ => ret (jsonResponse (JArr responses) 200)
      end
  | inr message =>
      response <- handleMessage message ;;
      match response with
      | None => ret noContent
      | Some r => ret (jsonResponse r 200)
      end
  end.

Definition OPTIONS : IO HttpResponse := ret noContent.

(* ================================================================== *)
(** * [JSON.parse] and the fenced block of a rendered summary *)
(* ================================================================== *)

(** JSON white space. *)
Definition is_json_ws (c : code_unit) : bool :=
  ((c =? 32) || (c =? 9) || (c =? 10) || (c =? 13))%N.

Fixpoint skip_ws (s : jsstring) : jsstring :=
  match s with
  | [] => []
  | c :: t => if is_json_ws c then skip_ws t else s
  end.

Definition hex_value (c : code_unit) : option N :=
  (if (48 <=? c) && (c <=? 57) then Some (c - 48)
   else if (97 <=? c) && (c <=? 102) then Some (c - 87)
   else if (65 <=? c) && (c <=? 70) then Some (c - 55)
   else None)%N.

(** The character a two-character escape stands for. *)
Definition simple_escape (e : code_unit) : option code_unit :=
  (if e =? 34 then Some 34
   else if e =? 92 then Some 92
   else if e =? 47 then Some 47
   else if e =? 98 then Some 8
   else if e =? 102 then Some 12
   else if e =? 110 then Some 10
   else if e =? 114 then Some 13
   else if e =? 116 then Some 9
   else None)%N.

Definition cons_fst {A B : Type} (a : A) (r : option (list A * B)) : option (list A * B) :=
  match r with
  | Some (l, b) => Some (a :: l, b)
  | None => None
  end.

(** A string literal after its opening quote: the string it denotes and
    the text after the closing quote. *)
Fixpoint parse_string (s : jsstring) : option (jsstring * jsstring) :=
  match s with
  | [] => None
  | c :: t =>
      if (c =? 34)%N then Some ([], t)
      else if (c =? 92)%N then
        match t with
        | [] => None
        | e :: t' =>
            if (e =? 117)%N then
              match t' with
              | h1 :: h2 :: h3 :: h4 :: t'' =>
                  match hex_value h1, hex_value h2, hex_value h3, hex_value h4 with
                  | Some a, Some b, Some c', Some d =>
                      cons_fst (a * 4096 + b * 256 + c' * 16 + d)%N (parse_string t'')
                  | _, _, _, _ => None
                  end
              | _ => None
              end
            else
              match simple_escape e with
              | Some x => cons_fst x (parse_string t')
              | None => None
              end
        end
      else if (c <? 32)%N then None
      else cons_fst c (parse_string t)
  end.

Fixpoint take_digits (s : jsstring) : jsstring * jsstring :=
  match s with
  | [] => ([], [])
  | c :: t =>
      if is_digit c then let (ds, rest) := take_digits t in (c :: ds, rest)
      else ([], s)
  end.

Definition digits_value (ds : jsstring) : Z :=
  fold_left (fun acc d => (acc * 10 + (Z.of_N d - 48))%Z) ds 0%Z.

(** An integer literal. A literal with a fraction or an exponent is not
    modelled: the parser gives [None] for it. *)
Definition parse_number (s : jsstring) : option (json * jsstring) :=
  let neg := match s with c :: _ => (c =? 45)%N | [] => false end in
  let (ds, rest) := take_digits (if neg then tl s else s) in
  let terminated := match rest with
                    | c :: _ => negb ((c =? 46) || (c =? 101) || (c =? 69))%N
                    | [] => true
                    end in
  match ds with
  | [] => None
  | d :: ds' =>
      if (d =? 48)%N && negb (Nat.eqb (List.length ds') 0) then None
      else if terminated
           then Some (JNum (if neg then - digits_value ds else digits_value ds)%Z, rest)
           else None
  end.

(** [CreateDataProperty] on an object under construction: a key met again
    keeps its place and takes the new value. (The order in which a
    JavaScript object enumerates integer-like keys is not modelled: no
    modelled function depends on it.) *)
Fixpoint set_prop (k : jsstring) (v : json) (props : list (jsstring * json))
  : list (jsstring * json) :=
  match props with
  | [] => [(k, v)]
  | (k', v') :: rest =>
      if jsstring_eqb k' k then (k, v) :: rest else (k', v') :: set_prop k v rest
  end.

Definition build_object (members : list (jsstring * json)) : list (jsstring * json) :=
  fold_left (fun acc kv => set_prop (fst kv) (snd kv) acc) members [].

(** The recursive-descent parser; [fuel] bounds the nesting of calls. *)
Fixpoint parse_value (fuel : nat) (s : jsstring) : option (json * jsstring) :=
  match fuel with
  | O => None
  | S fuel =>
      match skip_ws s with
      | [] => None
      | c :: t =>
          if (c =? 123)%N then
            match skip_ws t with
            | [] => None
            | c' :: t' =>
                if (c' =? 125)%N then Some (JObj [], t')
                else match parse_members fuel t with
                     | Some (ms, rest) => Some (JObj (build_object ms), rest)
                     | None => None
                     end
            end
          else if (c =? 91)%N then
            match skip_ws t with
            | [] => None
            | c' :: t' =>
                if (c' =? 93)%N then Some (JArr [], t')
                else match parse_elements fuel t with
                     | Some (vs, rest) => Some (JArr vs, rest)
                     | None => None
                     end
            end
          else if (c =? 34)%N then
            match parse_string t with
            | Some (str, rest) => Some (JStr str, rest)
            | None => None
            end
          else if startsWith (c :: t) (lit "true") then Some (JBool true, skipn 4 (c :: t))
          else if startsWith (c :: t) (lit "false") then Some (JBool false, skipn 5 (c :: t))
          else if startsWith (c :: t) (lit "null") then Some (JNull, skipn 4 (c :: t))
          else parse_number (c :: t)
      end
  end
with parse_elements (fuel : nat) (s : jsstring) : option (list json * jsstring) :=
  match fuel with
  | O => None
  | S fuel =>
      match parse_value fuel s with
      | None => None
      | Some (v, r) =>
          match skip_ws r with
          | [] => None
          | c :: r' =>
              if (c =? 44)%N then cons_fst v (parse_elements fuel r')
              else if (c =? 93)%N then Some ([v], r')
              else None
          end
      end
  end
with parse_members (fuel : nat) (s : jsstring)
  : option (list (jsstring * json) * jsstring) :=
  match fuel with
  | O => None
  | S fuel =>
      match skip_ws s with
      | [] => None
      | q :: t =>
          if (q =? 34)%N then
            match parse_string t with
            | None => None
            | Some (k, r) =>
                match skip_ws r with
                | [] => None
                | colon :: r1 =>
                    if (colon =? 58)%N then
                      match parse_value fuel r1 with
                      | None => None
                      | Some (v, r2) =>
                          match skip_ws r2 with
                          | [] => None
                          | c :: r3 =>
                              if (c =? 44)%N then cons_fst (k, v) (parse_members fuel r3)
                              else if (c =? 125)%N then Some ([(k, v)], r3)
                              else None
                          end
                      end
                    else None
                end
            end
          else None
      end
  end.

(** [JSON.parse(text)], [None] when it throws. *)
Definition JSON_parse (text : jsstring) : option json :=
  match parse_value (S (List.length text)) text with
  | Some (v, rest) =>
      match skip_ws rest with
      | [] => Some v
      | _ :: _ => None
      end
  | None => None
  end.

Definition OPEN_FENCE : jsstring := lit "```json".
Definition CLOSE_FENCE : jsstring := lit "```".

(** The lines from the first opening fence on, the fence left out. *)
Fixpoint after_open_fence (lines : list jsstring) : option (list jsstring) :=
  match lines with
  | [] => None
  | l :: rest => if jsstring_eqb l OPEN_FENCE then Some rest else after_open_fence rest
  end.

(** The lines up to the first closing fence, and the lines after it. *)
Fixpoint until_close_fence (lines : list jsstring) : option (list jsstring * list jsstring) :=
  match lines with
  | [] => None
  | l :: rest =>
      if jsstring_eqb l CLOSE_FENCE then Some ([], rest)
      else cons_fst l (until_close_fence rest)
  end.

(** The first fenced JSON block of a Markdown text: its content, and the
    lines that follow its closing fence. *)
Definition fenced_json_block (text : jsstring) : option (jsstring * list jsstring) :=
  match after_open_fence (split_lines text) with
  | None => None
  | Some rest =>
      match until_close_fence rest with
      | None => None
      | Some (content, following) => Some (join [LF] content, following)
      end
  end.

(* ================================================================== *)
(** * Specification vocabulary *)
(* ================================================================== *)

(** A text without a line feed: it is one line. *)
Definition no_LF (s : jsstring) : bool := forallb (fun c => negb (cu_eqb c LF)) s.

(** The list-shaped sections of a rendered summary. *)
Inductive ListSection := KeyPoints | OpenQuestions | NextSteps | Risks | Stakeholders.

(** The number of entries of a section's list. *)
Definition section_size (k : ListSection) (c : Context) : nat :=
  match k with
  | KeyPoints => List.length (key_points c)
  | OpenQuestions => List.length (open_questions c)
  | NextSteps => List.length (next_steps c)
  | Risks => List.length (risks c)
  | Stakeholders => List.length (stakeholders c)
  end.

(** The item line of every entry of a section's list, in order. *)
Definition section_item_lines (k : ListSection) (c : Context) : list jsstring :=
  match k with
  | KeyPoints => List.map key_point_line (key_points c)
  | OpenQuestions => List.map question_line (open_questions c)
  | NextSteps => List.map next_step_line (next_steps c)
  | Risks => List.map risk_line (risks c)
  | Stakeholders => List.map stakeholder_line (stakeholders c)
  end.

(** What the formatter renders for a section. *)
Definition section_text (k : ListSection) (c : Context) : jsstring :=
  match k with
  | KeyPoints => formatList (key_points c)
  | OpenQuestions => formatQuestions (open_questions c)
  | NextSteps => formatNextSteps (next_steps c)
  | Risks => formatRisks (risks c)
  | Stakeholders => formatStakeholders (stakeholders c)
  end.

(** The shape the five section formatters share. *)
Definition format_with {T : Type} (line : T -> jsstring) (items : list T) : jsstring :=
  match items with
  | [] => lit "- None"
  | _ =>
      let limited := limitItems items in
      join [LF] (push_more (List.map line (fst limited)) (snd limited))
  end.

(* ================================================================== *)
(** * Lines and white space *)
(* ================================================================== *)

Lemma no_LF_app (a b : jsstring) : no_LF (a ++ b) = no_LF a && no_LF b.
Proof. apply forallb_app. Qed.

Lemma no_LF_cons (c : code_unit) (s : jsstring) :
  no_LF (c :: s) = negb (cu_eqb c LF) && no_LF s.
Proof. reflexivity. Qed.

Lemma no_LF_In (s : jsstring) :
  no_LF s = true <-> (forall c, In c s -> c <> LF).
Proof.
  unfold no_LF. rewrite forallb_forall. split; intros H c Hc.
  - specialize (H c Hc). unfold cu_eqb in H.
    destruct (N.eqb_spec c LF); [discriminate | assumption].
  - specialize (H c Hc). unfold cu_eqb.
    destruct (N.eqb_spec c LF); [contradiction | reflexivity].
Qed.

Lemma no_LF_rev (s : jsstring) : no_LF (rev s) = no_LF s.
Proof.
  destruct (no_LF s) eqn:E.
  - apply no_LF_In. intros c Hc. apply in_rev in Hc.
    apply no_LF_In with (c := c) in E; assumption.
  - destruct (no_LF (rev s)) eqn:E'; [| reflexivity].
    rewrite <- E. symmetry. apply no_LF_In. intros c Hc.
    apply no_LF_In with (c := c) in E'; [assumption |].
    apply in_rev. rewrite rev_involutive. assumption.
Qed.

Lemma is_space_LF (c : code_unit) : is_space c = false -> cu_eqb c LF = false.
Proof.
  intros H. unfold cu_eqb. destruct (N.eqb_spec c LF) as [-> |]; [| reflexivity].
  discriminate H.
Qed.

Lemma replace_ws_no_LF (s : jsstring) (in_run : bool) :
  no_LF (replace_ws in_run s) = true.
Proof.
  revert in_run. induction s as [| c t IH]; intros in_run; simpl; [reflexivity |].
  destruct (is_space c) eqn:Hc.
  - destruct in_run; [apply IH |].
    rewrite no_LF_cons, IH. reflexivity.
  - rewrite no_LF_cons, IH, (is_space_LF _ Hc). reflexivity.
Qed.

Lemma trimStart_no_LF (s : jsstring) : no_LF s = true -> no_LF (trimStart s) = true.
Proof.
  induction s as [| c t IH]; simpl; [reflexivity |].
  intros H. destruct (is_space c); [| exact H].
  apply IH. apply andb_prop in H. apply H.
Qed.

Lemma trim_no_LF (s : jsstring) : no_LF s = true -> no_LF (trim s) = true.
Proof.
  intros H. unfold trim, trimEnd.
  rewrite no_LF_rev. apply trimStart_no_LF.
  rewrite no_LF_rev. apply trimStart_no_LF, H.
Qed.

Lemma clean_no_LF (text : jsstring) : no_LF (clean text) = true.
Proof. unfold clean. apply trim_no_LF, replace_ws_no_LF. Qed.

Lemma string_of_uint_no_LF (d : Decimal.uint) :
  no_LF (lit (NilEmpty.string_of_uint d)) = true.
Proof. induction d; simpl; try reflexivity; exact IHd. Qed.

Lemma string_of_nat_no_LF (n : nat) : no_LF (string_of_nat n) = true.
Proof. apply string_of_uint_no_LF. Qed.

Lemma string_of_N_no_LF (n : N) : no_LF (string_of_N n) = true.
Proof. apply string_of_uint_no_LF. Qed.

Lemma join_no_LF (sep : jsstring) (parts : list jsstring) :
  no_LF sep = true -> forallb no_LF parts = true -> no_LF (join sep parts) = true.
Proof.
  intros Hsep. induction parts as [| p rest IH]; [reflexivity |].
  intros H. simpl in H. apply andb_prop in H. destruct H as [Hp Hrest].
  destruct rest as [| q rest']; [exact Hp |].
  change (join sep (p :: q :: rest')) with (p ++ sep ++ join sep (q :: rest')).
  rewrite !no_LF_app, Hp, Hsep, (IH Hrest). reflexivity.
Qed.

Lemma split_lines_one (s : jsstring) : no_LF s = true -> split_lines s = [s].
Proof.
  induction s as [| c t IH]; [reflexivity |].
  rewrite no_LF_cons. intros H. apply andb_prop in H. destruct H as [Hc Ht].
  simpl. apply negb_true_iff in Hc. rewrite Hc, (IH Ht). reflexivity.
Qed.

Lemma split_lines_nonempty (s : jsstring) : split_lines s <> [].
Proof.
  destruct s as [| c t]; simpl; [discriminate |].
  destruct (cu_eqb c LF); [discriminate |].
  destruct (split_lines t); discriminate.
Qed.

(** The lines of two texts joined by a line feed. *)
Lemma split_lines_app (a b : jsstring) :
  split_lines (a ++ LF :: b) = split_lines a ++ split_lines b.
Proof.
  induction a as [| c t IH]; [reflexivity |].
  simpl. destruct (cu_eqb c LF); [rewrite IH; reflexivity |].
  rewrite IH. pose proof (split_lines_nonempty t) as Hne.
  destruct (split_lines t); [contradiction | reflexivity].
Qed.

Lemma join_cons (sep p : jsstring) (rest : list jsstring) :
  rest <> [] -> join sep (p :: rest) = p ++ sep ++ join sep rest.
Proof. destruct rest; [contradiction | reflexivity]. Qed.

(** Lines joined by line feeds are the lines of the text. *)
Lemma split_lines_join (ls : list jsstring) :
  ls <> [] -> forallb no_LF ls = true -> split_lines (join [LF] ls) = ls.
Proof.
  induction ls as [| p rest IH]; [contradiction |].
  intros _ H. simpl in H. apply andb_prop in H. destruct H as [Hp Hrest].
  destruct rest as [| q rest']; [apply split_lines_one, Hp |].
  rewrite join_cons by discriminate.
  change (p ++ [LF] ++ join [LF] (q :: rest')) with (p ++ LF :: join [LF] (q :: rest')).
  rewrite split_lines_app, (split_lines_one _ Hp), IH; [reflexivity | discriminate | exact Hrest].
Qed.

Lemma join_split_lines (s : jsstring) : join [LF] (split_lines s) = s.
Proof.
  induction s as [| c t IH]; [reflexivity |].
  simpl. pose proof (split_lines_nonempty t) as Hne.
  destruct (cu_eqb c LF) eqn:Hc.
  - rewrite join_cons by assumption. rewrite IH.
    unfold cu_eqb in Hc. apply N.eqb_eq in Hc. subst c. reflexivity.
  - destruct (split_lines t) as [| l ls]; [contradiction |].
    destruct ls as [| l' ls'].
    + simpl in *. rewrite IH. reflexivity.
    + change (join [LF] ((c :: l) :: l' :: ls'))
        with (c :: (l ++ [LF] ++ join [LF] (l' :: ls'))).
      change (join [LF] (l :: l' :: ls'))
        with (l ++ [LF] ++ join [LF] (l' :: ls')) in IH.
      rewrite IH. reflexivity.
Qed.

(* ================================================================== *)
(** * The formatter's list sections *)
(* ================================================================== *)

Lemma forallb_no_LF_map {T : Type} (line : T -> jsstring) (items : list T) :
  (forall x, no_LF (line x) = true) -> forallb no_LF (List.map line items) = true.
Proof.
  intros H. induction items as [| x rest IH]; [reflexivity |].
  simpl. rewrite H, IH. reflexivity.
Qed.

Lemma more_line_no_LF (n : nat) : no_LF (more_line n) = true.
Proof.
  unfold more_line. rewrite !no_LF_app, string_of_nat_no_LF. reflexivity.
Qed.

Lemma meta_entry_no_LF (label : string) (value : option jsstring) :
  no_LF (lit label) = true -> forallb no_LF (meta_entry label value) = true.
Proof.
  intros H. unfold meta_entry. destruct value as [v |]; [| reflexivity].
  destruct (truthy (Some v)); [| reflexivity].
  simpl. rewrite no_LF_app, H, clean_no_LF. reflexivity.
Qed.

Lemma metaText_no_LF (meta : list jsstring) :
  forallb no_LF meta = true -> no_LF (metaText meta) = true.
Proof.
  intros H. unfold metaText. destruct meta as [| m rest]; [reflexivity |].
  rewrite !no_LF_app, (join_no_LF (lit "; ") (m :: rest) eq_refl H). reflexivity.
Qed.

Lemma key_point_line_no_LF (item : jsstring) : no_LF (key_point_line item) = true.
Proof. unfold key_point_line. rewrite no_LF_app, clean_no_LF. reflexivity. Qed.

Lemma question_line_no_LF (item : OpenQuestion.t) : no_LF (question_line item) = true.
Proof.
  unfold question_line. rewrite !no_LF_app, clean_no_LF, metaText_no_LF; [reflexivity |].
  rewrite forallb_app, !meta_entry_no_LF; reflexivity.
Qed.

Lemma next_step_line_no_LF (item : NextStep.t) : no_LF (next_step_line item) = true.
Proof.
  unfold next_step_line. rewrite !no_LF_app, clean_no_LF.
  rewrite (join_no_LF (lit "; ")); [reflexivity | reflexivity |].
  rewrite !forallb_app, !meta_entry_no_LF by reflexivity.
  destruct (NextStep.status item); reflexivity.
Qed.

Lemma risk_line_no_LF (item : Risk.t) : no_LF (risk_line item) = true.
Proof.
  unfold risk_line. rewrite !no_LF_app, clean_no_LF.
  assert (no_LF (toUpperCase (Severity_str (Risk.severity item))) = true) as ->
    by (destruct (Risk.severity item); reflexivity).
  destruct (Risk.mitigation item) as [m |]; [| reflexivity].
  destruct (truthy (Some m)); [| reflexivity].
  rewrite !no_LF_app, clean_no_LF. reflexivity.
Qed.

Lemma stakeholder_line_no_LF (item : Stakeholder.t) : no_LF (stakeholder_line item) = true.
Proof.
  unfold stakeholder_line. rewrite !no_LF_app, clean_no_LF, metaText_no_LF; [reflexivity |].
  rewrite forallb_app, !meta_entry_no_LF; reflexivity.
Qed.

(** What [limitItems] keeps. *)
Lemma limitItems_le {T : Type} (items : list T) :
  List.length items <= MAX_ITEMS -> limitItems items = (items, 0).
Proof.
  intros H. unfold limitItems. apply Nat.leb_le in H. rewrite H. reflexivity.
Qed.

Lemma limitItems_gt {T : Type} (items : list T) :
  MAX_ITEMS < List.length items ->
  limitItems items = (firstn MAX_ITEMS items, List.length items - MAX_ITEMS).
Proof.
  intros H. unfold limitItems. apply Nat.leb_gt in H. rewrite H. reflexivity.
Qed.

(** The lines of a section rendered with item lines that hold no line feed. *)
Lemma format_with_lines {T : Type} (line : T -> jsstring) (items : list T) :
  (forall x, no_LF (line x) = true) ->
  (List.length items = 0 -> format_with line items = lit "- None")
  /\ (1 <= List.length items <= 8 ->
      split_lines (format_with line items) = List.map line items)
  /\ (8 < List.length items ->
      split_lines (format_with line items)
      = firstn 8 (List.map line items) ++ [more_line (List.length items - 8)]).
Proof.
  intros Hline. split; [| split].
  - destruct items; [reflexivity | discriminate].
  - intros [Hlo Hhi]. destruct items as [| x rest]; [simpl in Hlo; lia |].
    unfold format_with. rewrite limitItems_le by exact Hhi.
    apply split_lines_join; [discriminate |].
    apply forallb_no_LF_map, Hline.
  - intros Hgt. destruct items as [| x rest]; [simpl in Hgt; lia |].
    unfold format_with. rewrite limitItems_gt by exact Hgt.
    cbn [fst snd]. unfold MAX_ITEMS.
    destruct (List.length (x :: rest) - 8) as [| k] eqn:Hk; [lia |].
    unfold push_more. rewrite firstn_map.
    apply split_lines_join.
    + intros Heq. apply app_eq_nil in Heq. destruct Heq as [_ Heq]. discriminate.
    + rewrite forallb_app, (forallb_no_LF_map _ _ Hline). cbn [forallb].
      rewrite more_line_no_LF. reflexivity.
Qed.

(** C3. For every request and every list-shaped section (key points, open
    questions, next steps, risks, stakeholders): an empty list renders as the
    single line "- None"; a list of n entries with 1 <= n <= 8 renders as
    exactly its n item lines, in order, with no overflow line; a list of
    n > 8 entries renders as the item lines of its first 8 entries, in order,
    followed by the one line "- ... (+N more)" with N = n - 8. *)
Theorem list_section_rendering (c : Context) (k : ListSection) :
  List.length (section_item_lines k c) = section_size k c
  /\ (section_size k c = 0 ->
      section_text k c = lit "- None"
      /\ split_lines (section_text k c) = [lit "- None"])
  /\ (1 <= section_size k c <= 8 ->
      split_lines (section_text k c) = section_item_lines k c)
  /\ (8 < section_size k c ->
      split_lines (section_text k c)
      = firstn 8 (section_item_lines k c)
          ++ [lit "- ... (+" ++ string_of_nat (section_size k c - 8) ++ lit " more)"]).
Proof.
  destruct k; cbn [section_item_lines section_size section_text].
  - pose proof (format_with_lines key_point_line (key_points c) key_point_line_no_LF)
      as (H0 & H1 & H2).
    rewrite length_map. repeat split; try assumption.
    + apply H0; assumption.
    + change (formatList (key_points c)) with (format_with key_point_line (key_points c)).
      rewrite H0 by assumption. reflexivity.
  - pose proof (format_with_lines question_line (open_questions c) question_line_no_LF)
      as (H0 & H1 & H2).
    rewrite length_map. repeat split; try assumption.
    + apply H0; assumption.
    + change (formatQuestions (open_questions c))
        with (format_with question_line (open_questions c)).
      rewrite H0 by assumption. reflexivity.
  - pose proof (format_with_lines next_step_line (next_steps c) next_step_line_no_LF)
      as (H0 & H1 & H2).
    rewrite length_map. repeat split; try assumption.
    + apply H0; assumption.
    + change (formatNextSteps (next_steps c))
        with (format_with next_step_line (next_steps c)).
      rewrite H0 by assumption. reflexivity.
  - pose proof (format_with_lines risk_line (risks c) risk_line_no_LF) as (H0 & H1 & H2).
    rewrite length_map. repeat split; try assumption.
    + apply H0; assumption.
    + change (formatRisks (risks c)) with (format_with risk_line (risks c)).
      rewrite H0 by assumption. reflexivity.
  - pose proof (format_with_lines stakeholder_line (stakeholders c) stakeholder_line_no_LF)
      as (H0 & H1 & H2).
    rewrite length_map. repeat split; try assumption.
    + apply H0; assumption.
    + change (formatStakeholders (stakeholders c))
        with (format_with stakeholder_line (stakeholders c)).
      rewrite H0 by assumption. reflexivity.
Qed.

(* ================================================================== *)
(** * The validator *)
(* ================================================================== *)

Lemma jsstring_eqb_eq (a b : jsstring) : jsstring_eqb a b = true <-> a = b.
Proof.
  revert b. induction a as [| x a IH]; intros [| y b]; simpl; split; intros H;
    try reflexivity; try discriminate.
  - apply andb_prop in H. destruct H as [Hxy Hab].
    apply N.eqb_eq in Hxy. apply IH in Hab. subst. reflexivity.
  - injection H as -> ->. unfold cu_eqb. rewrite N.eqb_refl. apply IH. reflexivity.
Qed.

Lemma jsstring_eqb_refl (a : jsstring) : jsstring_eqb a a = true.
Proof. apply jsstring_eqb_eq. reflexivity. Qed.

Lemma jsstring_eqb_neq (a b : jsstring) : jsstring_eqb a b = false <-> a <> b.
Proof.
  split.
  - intros H Heq. apply jsstring_eqb_eq in Heq. congruence.
  - intros H. destruct (jsstring_eqb a b) eqn:E; [| reflexivity].
    apply jsstring_eqb_eq in E. contradiction.
Qed.

(** A property appended under a key is not seen when another key is
    looked up. *)
Lemma lookup_app_other (key k : jsstring) (v : json) (props : list (jsstring * json)) :
  jsstring_eqb k key = false -> lookup key (props ++ [(k, v)]) = lookup key props.
Proof.
  intros Hk. induction props as [| [k' v'] rest IH]; simpl.
  - rewrite Hk. reflexivity.
  - destruct (jsstring_eqb k' key); [reflexivity | exact IH].
Qed.

(** The keys the request schema declares. *)
Definition request_keys : list jsstring :=
  [lit "deal_id"; lit "deal_name"; lit "source_canvas_name"; lit "context";
   lit "output_format"; lit "doc_title"].

(** A property the request schema does not declare changes nothing: the
    outcome of validation is that of the object without it. *)
Lemma undeclared_property_is_ignored (props : list (jsstring * json)) (k : jsstring) (v : json) :
  forallb (fun key => negb (jsstring_eqb k key)) request_keys = true ->
  safeParse summarizeInputSchema (JObj (props ++ [(k, v)]))
  = safeParse summarizeInputSchema (JObj props).
Proof.
  intros H. cbn [forallb request_keys] in H.
  repeat match type of H with
         | (_ && _ = true) => apply andb_prop in H; destruct H as [?H H]
         end.
  repeat match goal with
         | Hk : negb (jsstring_eqb _ _) = true |- _ => apply negb_true_iff in Hk
         end.
  unfold safeParse, summarizeInputSchema, z_object, field.
  rewrite !lookup_app_other by assumption. reflexivity.
Qed.

(** A request with a property the schema does not declare, at the top level
    and inside [context]. *)
Definition request_with_unknown_properties : json :=
  obj [("output_format", str "exec_bullets");
       ("context", obj [("summary", str "Renewal in negotiation"); ("note", JNum 7)]);
       ("extra", JBool true)]%string.

(** C1 (the code departs from the claim). Validation accepts a request that
    carries undeclared properties, at the top level and inside [context]: the
    schemas are zod objects in their default mode, so the unknown properties
    are stripped without a violation and the normalized request is returned. *)
Theorem unknown_properties_are_accepted :
  safeParse summarizeInputSchema request_with_unknown_properties
  = inr (mkSummarizeInput None None None
           (mkContext (lit "Renewal in negotiation") [] [] [] [] [] [] None)
           exec_bullets None).
Proof. vm_compute. reflexivity. Qed.

(** What [trimmedString] accepts: exactly the strings of length at least 1,
    as they are. *)
Lemma trimmedString_accepts (p : list path_elem) (v : option json) (s : jsstring) :
  trimmedString p v = inr s <-> v = Some (JStr s) /\ s <> [].
Proof.
  unfold trimmedString. split.
  - destruct v as [[| b | z | s' | items | props] |]; try discriminate.
    destruct s' as [| c t]; simpl; [discriminate |].
    intros H. injection H as <-. split; [reflexivity | discriminate].
  - intros [-> Hs]. destruct s as [| c t]; [contradiction | reflexivity].
Qed.

(** A string of a single space. *)
Definition blank : jsstring := [SPACE].

Definition request_with_blank_summary : json :=
  obj [("output_format", str "memo"); ("context", JObj [(lit "summary", JStr blank)])]%string.

(** C2 (the code departs from the claim). [trimmedString] is
    [z.string().min(1)] and trims nothing: a summary of one space is empty
    after trimming, and validation accepts the request that carries it. *)
Theorem blank_summary_is_accepted :
  trim blank = []
  /\ safeParse summarizeInputSchema request_with_blank_summary
     = inr (mkSummarizeInput None None None
              (mkContext blank [] [] [] [] [] [] None) memo None).
Proof. split; vm_compute; reflexivity. Qed.

(** ** Where the issues of a failed validation point *)

(** The issue lies at [p] or below it. *)
Definition extends (p : list path_elem) (i : ZodIssue) : Prop :=
  exists q, path i = p ++ q.

(** The issue lies under a key of the object at [p]. *)
Definition below (p : list path_elem) (i : ZodIssue) : Prop :=
  exists k q, path i = p ++ PKey k :: q.

Definition issues_in {A : Type} (P : ZodIssue -> Prop) (r : ParseResult A) : Prop :=
  match r with
  | inl e => Forall P e
  | inr _ => True
  end.

(** Every issue a schema raises lies at or below the path it is applied to. *)
Definition sound_schema {A : Type} (S : Schema A) : Prop :=
  forall p v, issues_in (extends p) (S p v).

Lemma extends_refl (p : list path_elem) (m : jsstring) : extends p (mkIssue p m).
Proof. exists []. simpl. rewrite app_nil_r. reflexivity. Qed.

Lemma extends_app (p r : list path_elem) (i : ZodIssue) : extends (p ++ r) i -> extends p i.
Proof. intros [q Hq]. exists (r ++ q). rewrite Hq, app_assoc. reflexivity. Qed.

Lemma issues_in_impl {A : Type} (P Q : ZodIssue -> Prop) (r : ParseResult A) :
  (forall i, P i -> Q i) -> issues_in P r -> issues_in Q r.
Proof.
  intros HPQ. destruct r as [e | a]; simpl; [| trivial].
  intros H. eapply Forall_impl; eassumption.
Qed.

Lemma ap_issues {A B : Type} (P : ZodIssue -> Prop)
      (f : ParseResult (A -> B)) (x : ParseResult A) :
  issues_in P f -> issues_in P x -> issues_in P (f <*> x).
Proof.
  destruct f as [e1 | g], x as [e2 | a]; simpl; intros H1 H2; try assumption.
  apply Forall_app. split; assumption.
Qed.

Lemma trimmedString_sound : sound_schema trimmedString.
Proof.
  intros p v. unfold trimmedString, invalid_type.
  destruct v as [[| b | z | s | items | props] |]; simpl;
    try (constructor; [apply extends_refl | constructor]).
  destruct (Nat.ltb (List.length s) 1); simpl; [| trivial].
  constructor; [apply extends_refl | constructor].
Qed.

Lemma dateString_sound : sound_schema dateString.
Proof.
  intros p v. unfold dateString, invalid_type.
  destruct v as [[| b | z | s | items | props] |]; simpl;
    try (constructor; [apply extends_refl | constructor]).
  destruct (date_regex_test s); simpl; [trivial |].
  constructor; [apply extends_refl | constructor].
Qed.

Lemma z_enum_sound {E : Type} (options : list E) (to_str : E -> jsstring) :
  sound_schema (z_enum options to_str).
Proof.
  intros p v. unfold z_enum, invalid_type.
  destruct v as [[| b | z | s | items | props] |]; simpl;
    try (constructor; [apply extends_refl | constructor]).
  destruct (find _ options); simpl; [trivial |].
  constructor; [apply extends_refl | constructor].
Qed.

Lemma optional_sound {A : Type} (S : Schema A) : sound_schema S -> sound_schema (optional S).
Proof.
  intros HS p v. unfold optional. destruct v as [x |]; simpl; [| trivial].
  specialize (HS p (Some x)). destruct (S p (Some x)); simpl in *; [assumption | trivial].
Qed.

Lemma default_sound {A : Type} (S : Schema (option (list A))) :
  sound_schema S -> sound_schema (default S).
Proof.
  intros HS p v. unfold default. destruct v as [x |]; simpl; [| trivial].
  specialize (HS p (Some x)). destruct (S p (Some x)) as [e | [a |]]; simpl in *;
    [assumption | trivial | trivial].
Qed.

Lemma parse_items_sound {A : Type} (S : Schema A) (p : list path_elem) (items : list json) :
  sound_schema S -> forall i, issues_in (extends p) (parse_items S p i items).
Proof.
  intros HS. induction items as [| x rest IH]; intros i; cbn [parse_items]; [exact I |].
  apply ap_issues; [apply ap_issues; [exact I |] | apply IH].
  eapply issues_in_impl; [| apply HS]. intros issue. apply extends_app.
Qed.

Lemma z_array_sound {A : Type} (S : Schema A) : sound_schema S -> sound_schema (z_array S).
Proof.
  intros HS p v. unfold z_array, invalid_type.
  destruct v as [[| b | z | s | items | props] |]; simpl;
    try (constructor; [apply extends_refl | constructor]).
  apply parse_items_sound, HS.
Qed.

Lemma field_below {A : Type} (S : Schema A) (key : string) (p : list path_elem)
      (o : list (jsstring * json)) :
  sound_schema S -> issues_in (below p) (field S key p o).
Proof.
  intros HS. unfold field. eapply issues_in_impl; [| apply HS].
  intros i [q Hq]. exists (lit key), q. rewrite Hq, <- app_assoc. reflexivity.
Qed.

Lemma z_object_sound {A : Type} (shape : list path_elem -> list (jsstring * json) -> ParseResult A) :
  (forall p o, issues_in (below p) (shape p o)) -> sound_schema (z_object shape).
Proof.
  intros Hshape p v. unfold z_object, invalid_type.
  destruct v as [[| b | z | s | items | props] |]; simpl;
    try (constructor; [apply extends_refl | constructor]).
  eapply issues_in_impl; [| apply Hshape].
  intros i (k & q & Hq). exists (PKey k :: q). exact Hq.
Qed.

Create HintDb schema discriminated.
#[local] Hint Resolve trimmedString_sound dateString_sound z_enum_sound optional_sound
  default_sound z_array_sound : schema.

Ltac shape_sound :=
  repeat (apply ap_issues); [exact I | ..]; apply field_below; auto 6 with schema.

Lemma openQuestionSchema_sound : sound_schema openQuestionSchema.
Proof. apply z_object_sound. intros p o. shape_sound. Qed.

Lemma nextStepSchema_sound : sound_schema nextStepSchema.
Proof. apply z_object_sound. intros p o. shape_sound. Qed.

Lemma riskSchema_sound : sound_schema riskSchema.
Proof. apply z_object_sound. intros p o. shape_sound. Qed.

Lemma stakeholderSchema_sound : sound_schema stakeholderSchema.
Proof. apply z_object_sound. intros p o. shape_sound. Qed.

Lemma evidenceSchema_sound : sound_schema evidenceSchema.
Proof. apply z_object_sound. intros p o. shape_sound. Qed.

#[local] Hint Resolve openQuestionSchema_sound nextStepSchema_sound riskSchema_sound
  stakeholderSchema_sound evidenceSchema_sound : schema.

Lemma contextSchema_sound : sound_schema contextSchema.
Proof. apply z_object_sound. intros p o. shape_sound. Qed.

#[local] Hint Resolve contextSchema_sound : schema.

(** Every issue of a request object that fails validation names a field:
    its path is not empty. *)
Lemma request_issues_name_a_field (args : list (jsstring * json)) (errors : list ZodIssue) :
  safeParse summarizeInputSchema (JObj args) = inl errors ->
  Forall (fun issue => path issue <> []) errors.
Proof.
  intros H.
  assert (issues_in (below []) (safeParse summarizeInputSchema (JObj args))) as Hb.
  { unfold safeParse, summarizeInputSchema, z_object. shape_sound. }
  rewrite H in Hb. simpl in Hb.
  eapply Forall_impl; [| exact Hb].
  intros i (k & q & Hq). rewrite Hq. discriminate.
Qed.

(* ================================================================== *)
(** * Effects: results and traces of a computation *)
(* ================================================================== *)

Lemma result_bind {A B : Type} (m : IO A) (k : A -> IO B) (env : Env) :
  result_of (bind m k) env = result_of (k (result_of m env)) env.
Proof.
  unfold result_of, bind. destruct (m env) as [a t1]. simpl.
  destruct (k a env). reflexivity.
Qed.

Lemma trace_bind {A B : Type} (m : IO A) (k : A -> IO B) (env : Env) :
  trace_of (bind m k) env = trace_of m env ++ trace_of (k (result_of m env)) env.
Proof.
  unfold trace_of, result_of, bind. destruct (m env) as [a t1]. simpl.
  destruct (k a env). reflexivity.
Qed.

Lemma fetches_bind {A B : Type} (m : IO A) (k : A -> IO B) (env : Env) :
  fetches (bind m k) env = fetches m env ++ fetches (k (result_of m env)) env.
Proof. unfold fetches. rewrite trace_bind. apply filter_app. Qed.

Lemma result_ret {A : Type} (a : A) (env : Env) : result_of (ret a) env = a.
Proof. reflexivity. Qed.

Lemma fetches_ret {A : Type} (a : A) (env : Env) : fetches (ret a) env = [].
Proof. reflexivity. Qed.

Lemma fetches_log (level message : string) (meta : list (jsstring * json)) (env : Env) :
  fetches (log level message meta) env = [].
Proof. reflexivity. Qed.

Lemma result_ask (env : Env) : result_of ask env = env.
Proof. reflexivity. Qed.

Lemma fetches_ask (env : Env) : fetches ask env = [].
Proof. reflexivity. Qed.

Lemma fetches_emit_fetch (req : HttpRequest) (env : Env) :
  fetches (emit (EvFetch req)) env = [EvFetch req].
Proof. reflexivity. Qed.

(* ================================================================== *)
(** * The webhook pusher *)
(* ================================================================== *)

(** Both the destination URL and the token are set and not empty. *)
Definition configured (env : Env) : bool :=
  truthy (DOC_WEBHOOK_URL env) && truthy (DOC_WEBHOOK_TOKEN env).

(** The status is one of 200..399. *)
Definition success_status (status : N) : Prop := (200 <= status <= 399)%N.

(** The diagnostic of a response outside 200..399. *)
Definition http_diagnostic (status : N) (body : option jsstring) : jsstring :=
  lit "Webhook HTTP " ++ string_of_N status ++ lit ": "
    ++ firstn 300 match body with Some b => b | None => [] end.

Lemma getDocWebhookConfig_none (env : Env) :
  configured env = false -> result_of getDocWebhookConfig env = None.
Proof.
  unfold configured, getDocWebhookConfig. rewrite result_bind, result_ask, result_ret.
  intros H. apply andb_false_iff in H.
  destruct H as [H | H]; rewrite H; simpl; [reflexivity |].
  rewrite orb_true_r. reflexivity.
Qed.

Lemma getDocWebhookConfig_some (env : Env) (url token : jsstring) :
  DOC_WEBHOOK_URL env = Some url -> DOC_WEBHOOK_TOKEN env = Some token ->
  configured env = true -> result_of getDocWebhookConfig env = Some (url, token).
Proof.
  unfold configured, getDocWebhookConfig. rewrite result_bind, result_ask, result_ret.
  intros -> -> H. apply andb_prop in H. destruct H as [-> ->]. reflexivity.
Qed.

Lemma fetches_getDocWebhookConfig (env : Env) : fetches getDocWebhookConfig env = [].
Proof. reflexivity. Qed.

(** The pusher without configuration. *)
Lemma push_not_configured (env : Env) (title text : jsstring) :
  configured env = false ->
  result_of (pushSummaryToDocWebhook title text) env = PushFailed NOT_CONFIGURED
  /\ fetches (pushSummaryToDocWebhook title text) env = [].
Proof.
  intros H. unfold pushSummaryToDocWebhook.
  rewrite result_bind, fetches_bind, fetches_getDocWebhookConfig,
    (getDocWebhookConfig_none _ H).
  split; reflexivity.
Qed.

(** The pusher with configuration: one call of [fetch], and the result read
    off its outcome. *)
Lemma push_configured (env : Env) (title text url token : jsstring) :
  DOC_WEBHOOK_URL env = Some url -> DOC_WEBHOOK_TOKEN env = Some token ->
  configured env = true ->
  let req := webhook_request url token title text in
  fetches (pushSummaryToDocWebhook title text) env = [EvFetch req]
  /\ result_of (pushSummaryToDocWebhook title text) env
     = match fetch env req with
       | FetchRejected error => PushFailed error
       | FetchResponse status body =>
           if ((200 <=? status) && (status <? 400))%N then PushOk
           else PushFailed (http_diagnostic status body)
       end.
Proof.
  intros Hu Ht Hc req. unfold pushSummaryToDocWebhook.
  rewrite result_bind, fetches_bind, fetches_getDocWebhookConfig,
    (getDocWebhookConfig_some _ _ _ Hu Ht Hc).
  fold req. cbn [app].
  rewrite result_bind, fetches_bind, fetches_ask, result_ask. cbn [app].
  rewrite result_bind, fetches_bind, fetches_emit_fetch.
  destruct (fetch env req) as [error | status body].
  - split; reflexivity.
  - destruct ((200 <=? status) && (status <? 400))%N; split; reflexivity.
Qed.

Lemma success_status_test (status : N) :
  ((200 <=? status) && (status <? 400))%N = true <-> success_status status.
Proof.
  unfold success_status. rewrite andb_true_iff, N.leb_le, N.ltb_lt. lia.
Qed.

(** C6. The webhook pusher: without a destination URL or a token it fails
    with the "not configured" diagnostic, which no HTTP diagnostic equals,
    and calls [fetch] not at all; otherwise it issues exactly one POST with
    redirects not followed, succeeds if and only if that POST completes with
    a status in 200..399, reports any other status with a diagnostic that
    holds at most the first 300 characters of the response body, and reports
    a transport failure as a failure. *)
Theorem webhook_push_outcome (env : Env) (title text : jsstring) :
  let push := pushSummaryToDocWebhook title text in
  (configured env = false ->
     result_of push env = PushFailed NOT_CONFIGURED /\ fetches push env = [])
  /\ (forall status body, NOT_CONFIGURED <> http_diagnostic status body)
  /\ (forall url token,
        DOC_WEBHOOK_URL env = Some url -> DOC_WEBHOOK_TOKEN env = Some token ->
        configured env = true ->
        let req := webhook_request url token title text in
        fetches push env = [EvFetch req]
        /\ req_url req = url
        /\ req_method req = lit "POST"
        /\ req_redirect req = lit "manual"
        /\ (result_of push env = PushOk <->
            exists status body,
              fetch env req = FetchResponse status body /\ success_status status)
        /\ (forall status body,
              fetch env req = FetchResponse status body -> ~ success_status status ->
              result_of push env
              = PushFailed (lit "Webhook HTTP " ++ string_of_N status ++ lit ": "
                              ++ slice0 300 match body with Some b => b | None => [] end)
              /\ List.length (slice0 300 match body with Some b => b | None => [] end) <= 300)
        /\ (forall error,
              fetch env req = FetchRejected error -> result_of push env = PushFailed error))
  /\ (result_of push env = PushOk -> configured env = true).
Proof.
  intros push. split; [| split; [| split]].
  - apply push_not_configured.
  - intros status body H. discriminate H.
  - intros url token Hu Ht Hc req.
    destruct (@push_configured env title text url token Hu Ht Hc) as [Hf Hr]. fold req in Hf, Hr.
    fold push in Hf, Hr.
    split; [exact Hf |]. repeat (split; [reflexivity |]).
    split; [| split].
    + rewrite Hr. split.
      * destruct (fetch env req) as [error | status body]; [discriminate |].
        destruct ((200 <=? status) && (status <? 400))%N eqn:E; [| discriminate].
        intros _. exists status, body. split; [reflexivity |].
        apply success_status_test, E.
      * intros (status & body & -> & Hs). apply success_status_test in Hs.
        rewrite Hs. reflexivity.
    + intros status body Hfetch Hs. rewrite Hr, Hfetch.
      destruct ((200 <=? status) && (status <? 400))%N eqn:E.
      * apply success_status_test in E. contradiction.
      * split; [reflexivity | apply firstn_le_length].
    + intros error Hfetch. rewrite Hr, Hfetch. reflexivity.
  - destruct (configured env) eqn:Hc; [reflexivity |].
    destruct (@push_not_configured env title text Hc) as [Hr _]. fold push in Hr.
    rewrite Hr. discriminate.
Qed.

(* ================================================================== *)
(** * The dispatcher *)
(* ================================================================== *)

(** The envelope is an object with [jsonrpc: "2.0"] and the given method. *)
Definition envelope (m : list (jsstring * json)) (method : jsstring) : Prop :=
  lookup (lit "jsonrpc") m = Some (str "2.0")
  /\ lookup (lit "method") m = Some (JStr method).

Definition has_id (m : list (jsstring * json)) : bool := hasOwnProperty m (lit "id").

(** The method is one of the two notification acknowledgments. *)
Definition is_initialized (method : jsstring) : bool :=
  jsstring_eqb method (lit "initialized")
  || jsstring_eqb method (lit "notifications/initialized").

(** The method is one the dispatcher routes. *)
Definition is_known_method (method : jsstring) : bool :=
  is_initialized method
  || jsstring_eqb method (lit "initialize")
  || jsstring_eqb method (lit "tools/list")
  || jsstring_eqb method (lit "tools/call").

(** A response is a tool-level result: a JSON-RPC result whose payload is
    a text and an error flag. *)
Definition tool_level (id : json) (response : option json) : Prop :=
  exists text isError, response = Some (makeResult id (toolResult text isError)).

(** The field path of an issue, as [formatZodError] prints it. *)
Definition field_path (issue : ZodIssue) : jsstring :=
  join (lit ".") (List.map path_elem_str (path issue)).

(** The line of a violation: its field path, then its message. *)
Definition violation_line (issue : ZodIssue) : jsstring :=
  lit "- " ++ field_path issue ++ lit ": " ++ message issue.

Definition NAME_REQUIRED : json :=
  toolResult (lit "Validation error: tool name is required.") true.

(** The title of the pushed document. *)
Definition chosen_title (data : SummarizeInput) : jsstring :=
  match doc_title data, deal_name data, deal_id data with
  | Some t, _, _ => t
  | None, Some n, _ => n
  | None, None, Some i => i
  | None, None, None => lit "CanvasETL Summary"
  end.

Lemma handleMessage_tools_call (m : list (jsstring * json)) :
  envelope m (lit "tools/call") -> has_id m = true ->
  handleMessage (JObj m) = toolsCall (envelope_id m) (envelope_requestId m) m.
Proof.
  intros [Hrpc Hmethod] Hid. unfold has_id in Hid. unfold handleMessage.
  rewrite Hrpc, Hmethod, Hid. reflexivity.
Qed.

Lemma handleMessage_route (m : list (jsstring * json)) (method : jsstring) :
  envelope m method -> method <> [] ->
  handleMessage (JObj m)
  = routeMethod (has_id m) (envelope_id m) (envelope_requestId m) method m.
Proof.
  intros [Hrpc Hmethod] Hne. unfold handleMessage. rewrite Hrpc, Hmethod.
  destruct method; [contradiction | reflexivity].
Qed.

Lemma envelope_id_has_id (m : list (jsstring * json)) :
  has_id m = true -> envelope_id m = coerceJsonRpcId (lookup (lit "id") m).
Proof. unfold has_id, envelope_id. intros ->. reflexivity. Qed.

Lemma toolsCall_no_name (id : json) (requestId : jsstring) (m : list (jsstring * json))
      (env : Env) :
  name_of (params_of m) = [] ->
  result_of (toolsCall id requestId m) env = Some (makeResult id NAME_REQUIRED)
  /\ fetches (toolsCall id requestId m) env = [].
Proof. intros H. unfold toolsCall. rewrite H. split; reflexivity. Qed.

Lemma toolsCall_summarize_context (id : json) (requestId : jsstring)
      (m : list (jsstring * json)) :
  name_of (params_of m) = lit "summarize_context" ->
  toolsCall id requestId m
  = callSummarizeContext id requestId (lit "summarize_context")
      (arguments_of (params_of m)).
Proof. intros H. unfold toolsCall. rewrite H. reflexivity. Qed.

Lemma callSummarizeContext_invalid (id : json) (requestId name : jsstring)
      (args : list (jsstring * json)) (errors : list ZodIssue) (env : Env) :
  safeParse summarizeInputSchema (JObj args) = inl errors ->
  result_of (callSummarizeContext id requestId name args) env
  = Some (makeResult id
            (toolResult (lit "Validation error:" ++ [LF] ++ formatZodError errors) true))
  /\ trace_of (callSummarizeContext id requestId name args) env
     = [EvLog "warn" "mcp.tools.call.validation_error"
              [(lit "request_id", JStr requestId); (lit "tool", JStr name)]].
Proof. intros H. unfold callSummarizeContext. rewrite H. split; reflexivity. Qed.

Lemma nullish_title (data : SummarizeInput) :
  nullish (doc_title data)
    (nullish (deal_name data) (nullish (deal_id data) (lit "CanvasETL Summary")))
  = chosen_title data.
Proof.
  unfold chosen_title, nullish.
  destruct (doc_title data), (deal_name data), (deal_id data); reflexivity.
Qed.

Lemma callSummarizeContext_valid (id : json) (requestId name : jsstring)
      (args : list (jsstring * json)) (data : SummarizeInput) (env : Env) :
  safeParse summarizeInputSchema (JObj args) = inr data ->
  let push := pushSummaryToDocWebhook (chosen_title data) (formatSummary data) in
  result_of (callSummarizeContext id requestId name args) env
  = Some (makeResult id
            (toolResult
               match result_of push env with
               | PushOk => lit "Doc push: ok" ++ [LF] ++ lit "Title: " ++ chosen_title data
               | PushFailed error => lit "Doc push: failed" ++ [LF] ++ error
               end
               (negb (push_ok (result_of push env)))))
  /\ fetches (callSummarizeContext id requestId name args) env = fetches push env.
Proof.
  intros H push. unfold callSummarizeContext. rewrite H, nullish_title. fold push.
  rewrite result_bind, fetches_bind.
  destruct (result_of push env) as [| error]; split;
    try reflexivity; rewrite <- app_nil_r; reflexivity.
Qed.

Lemma issue_line_field (issue : ZodIssue) :
  path issue <> [] -> issue_line issue = violation_line issue.
Proof.
  unfold issue_line, violation_line, field_path.
  destruct (path issue); [contradiction | reflexivity].
Qed.

Lemma formatZodError_fields (errors : list ZodIssue) :
  Forall (fun issue => path issue <> []) errors ->
  formatZodError errors = join [LF] (List.map violation_line errors).
Proof.
  intros H. unfold formatZodError. f_equal.
  induction H as [| issue rest Hissue _ IH]; [reflexivity |].
  simpl. rewrite IH, (issue_line_field issue Hissue). reflexivity.
Qed.

(** C9 (as amended). A [tools/call] of [summarize_context] whose arguments
    pass validation pushes the rendered summary under the chosen title
    ([doc_title], else [deal_name], else [deal_id], else "CanvasETL Summary")
    and makes no other call of [fetch]; its result is "Doc push: ok" and the
    title when the push succeeded, "Doc push: failed" and the pusher's
    diagnostic when it failed, and its [isError] flag is false exactly when
    the push succeeded. *)
Theorem summarize_context_result (env : Env) (m : list (jsstring * json))
        (data : SummarizeInput) :
  envelope m (lit "tools/call") ->
  has_id m = true ->
  name_of (params_of m) = lit "summarize_context" ->
  safeParse summarizeInputSchema (JObj (arguments_of (params_of m))) = inr data ->
  let push := pushSummaryToDocWebhook (chosen_title data) (formatSummary data) in
  let outcome := result_of push env in
  fetches (handleMessage (JObj m)) env = fetches push env
  /\ result_of (handleMessage (JObj m)) env
     = Some (makeResult (coerceJsonRpcId (lookup (lit "id") m))
               (toolResult
                  match outcome with
                  | PushOk => lit "Doc push: ok" ++ [LF] ++ lit "Title: " ++ chosen_title data
                  | PushFailed error => lit "Doc push: failed" ++ [LF] ++ error
                  end
                  (negb (push_ok outcome))))
  /\ (negb (push_ok outcome) = false <-> outcome = PushOk).
Proof.
  intros Henv Hid Hname Hdata push outcome.
  rewrite (handleMessage_tools_call m Henv Hid), (toolsCall_summarize_context _ _ _ Hname).
  destruct (callSummarizeContext_valid (envelope_id m) (envelope_requestId m)
              (lit "summarize_context") _ _ env Hdata) as [Hr Hf].
  fold push in Hr, Hf. fold outcome in Hr.
  rewrite Hr, Hf, (envelope_id_has_id _ Hid).
  split; [reflexivity | split; [reflexivity |]].
  destruct outcome; simpl; split; intros H; try reflexivity; discriminate.
Qed.

(** Every branch of [tools/call] answers with a tool-level result. *)
Lemma toolsCall_tool_level (id : json) (requestId : jsstring) (m : list (jsstring * json))
      (env : Env) :
  tool_level id (result_of (toolsCall id requestId m) env).
Proof.
  unfold toolsCall, tool_level.
  destruct (name_of (params_of m)) as [| c name] eqn:Hname.
  - eexists _, _. reflexivity.
  - destruct (jsstring_eqb (c :: name) (lit "healthcheck")).
    + eexists _, _. rewrite !result_bind. reflexivity.
    + destruct (jsstring_eqb (c :: name) (lit "summarize_context")).
      * destruct (safeParse summarizeInputSchema (JObj (arguments_of (params_of m))))
          as [errors | data] eqn:Hparse.
        -- destruct (callSummarizeContext_invalid id requestId (c :: name) _ _ env Hparse)
             as [Hr _].
           eexists _, _. exact Hr.
        -- destruct (callSummarizeContext_valid id requestId (c :: name) _ _ env Hparse)
             as [Hr _].
           eexists _, _. exact Hr.
      * eexists _, _. reflexivity.
Qed.

Lemma params_of_default (m : list (jsstring * json)) :
  (forall p, lookup (lit "params") m <> Some (JObj p)) -> params_of m = [].
Proof.
  intros H. unfold params_of.
  destruct (lookup (lit "params") m) as [[| b | z | s | items | p] |]; try reflexivity.
  exfalso. exact (H p eq_refl).
Qed.

Lemma name_of_default (params : list (jsstring * json)) :
  (forall n, lookup (lit "name") params <> Some (JStr n)) -> name_of params = [].
Proof.
  intros H. unfold name_of.
  destruct (lookup (lit "name") params) as [[| b | z | s | items | p] |]; try reflexivity.
  exfalso. exact (H s eq_refl).
Qed.

Lemma arguments_of_default (params : list (jsstring * json)) :
  (forall a, lookup (lit "arguments") params <> Some (JObj a)) -> arguments_of params = [].
Proof.
  intros H. unfold arguments_of.
  destruct (lookup (lit "arguments") params) as [[| b | z | s | items | p] |];
    try reflexivity.
  exfalso. exact (H p eq_refl).
Qed.

(** C10. For a [tools/call] envelope with an id the answer is always a
    tool-level result, never a JSON-RPC error. When [params] is absent or not
    an object the empty object stands for it, and when [params.name] is
    missing or not a string the result is "Validation error: tool name is
    required." with [isError] true; when [params.arguments] is absent or not
    an object the empty object stands for it and the call proceeds with it. *)
Theorem tools_call_defaults (env : Env) (m : list (jsstring * json)) :
  envelope m (lit "tools/call") ->
  has_id m = true ->
  let id := coerceJsonRpcId (lookup (lit "id") m) in
  let response := result_of (handleMessage (JObj m)) env in
  tool_level id response
  /\ ((forall p, lookup (lit "params") m <> Some (JObj p)) ->
      params_of m = []
      /\ response
         = Some (makeResult id
                   (toolResult (lit "Validation error: tool name is required.") true)))
  /\ ((forall n, lookup (lit "name") (params_of m) <> Some (JStr n)) ->
      response
      = Some (makeResult id
                (toolResult (lit "Validation error: tool name is required.") true)))
  /\ ((forall a, lookup (lit "arguments") (params_of m) <> Some (JObj a)) ->
      arguments_of (params_of m) = []
      /\ (name_of (params_of m) = lit "summarize_context" ->
          handleMessage (JObj m)
          = callSummarizeContext id (envelope_requestId m) (lit "summarize_context") [])).
Proof.
  intros Henv Hid id response. subst response.
  rewrite (handleMessage_tools_call m Henv Hid).
  rewrite (envelope_id_has_id m Hid). fold id.
  split; [apply toolsCall_tool_level |]. split; [| split].
  - intros Hp. pose proof (params_of_default m Hp) as Hparams.
    split; [exact Hparams |].
    apply toolsCall_no_name. rewrite Hparams. reflexivity.
  - intros Hn. apply toolsCall_no_name, name_of_default, Hn.
  - intros Ha. pose proof (arguments_of_default _ Ha) as Hargs.
    split; [exact Hargs |].
    intros Hname. rewrite (toolsCall_summarize_context _ _ _ Hname), Hargs. reflexivity.
Qed.

(** C7 (as amended). For an envelope with [jsonrpc: "2.0"] and a method that
    is a non-empty string: without an id, a method other than the two
    [initialized] variants gets no response; with an id there is always a
    response, which for a method the dispatcher does not route is the -32601
    error; the two [initialized] variants get a response exactly when an id
    was supplied. *)
Theorem notification_semantics (env : Env) (m : list (jsstring * json)) (method : jsstring) :
  envelope m method ->
  method <> [] ->
  let response := result_of (handleMessage (JObj m)) env in
  (has_id m = false -> is_initialized method = false -> response = None)
  /\ (has_id m = true -> response <> None)
  /\ (has_id m = true -> is_known_method method = false ->
      response
      = Some (makeError (coerceJsonRpcId (lookup (lit "id") m)) (-32601) "Method not found"
                (Some (JObj [(lit "method", JStr method)]))))
  /\ (is_initialized method = true -> (response <> None <-> has_id m = true)).
Proof.
  intros Henv Hne response. subst response.
  rewrite (handleMessage_route m method Henv Hne).
  unfold routeMethod, is_known_method, is_initialized.
  destruct (jsstring_eqb method (lit "initialized")) eqn:E1;
    destruct (jsstring_eqb method (lit "notifications/initialized")) eqn:E2;
    cbn [orb negb andb];
    try (rewrite result_bind, result_ret;
         destruct (has_id m) eqn:Hid; repeat split; intros;
         try discriminate; try reflexivity; try congruence).
  destruct (has_id m) eqn:Hid; cbn [orb negb andb].
  - rewrite (envelope_id_has_id m Hid).
    repeat split; try discriminate.
    + intros _.
      destruct (jsstring_eqb method (lit "initialize"));
        [rewrite !result_bind; discriminate |].
      destruct (jsstring_eqb method (lit "tools/list"));
        [rewrite !result_bind; discriminate |].
      destruct (jsstring_eqb method (lit "tools/call")).
      * destruct (toolsCall_tool_level (coerceJsonRpcId (lookup (lit "id") m))
                    (envelope_requestId m) m env) as (text & isError & Hr).
        rewrite Hr. discriminate.
      * rewrite result_bind. discriminate.
    + intros _ Hknown.
      destruct (jsstring_eqb method (lit "initialize")); [discriminate |].
      destruct (jsstring_eqb method (lit "tools/list")); [discriminate |].
      destruct (jsstring_eqb method (lit "tools/call")); [discriminate |].
      rewrite result_bind. reflexivity.
  - rewrite result_bind, result_ret.
    repeat split; try discriminate; try reflexivity; intros; congruence.
Qed.

(** ** Concrete requests *)

(** A deployment without webhook configuration, and one whose sink fails
    with status 500 and sends the text it was given back as the body. *)
Definition env_unconfigured : Env :=
  mkEnv None None None (fun _ => FetchRejected (lit "TypeError: fetch failed"))
        12 (lit "2025-02-14T09:00:00.000Z").

Definition echo_sink (req : HttpRequest) : FetchOutcome :=
  match JSON_parse (req_body req) with
  | Some (JObj payload) =>
      match lookup (lit "text") payload with
      | Some (JStr text) => FetchResponse 500 (Some text)
      | _ => FetchResponse 500 None
      end
  | _ => FetchResponse 400 None
  end.

Definition env_echo : Env :=
  mkEnv None (Some (lit "https://sink.example/exec")) (Some (lit "secret"))
        echo_sink 12 (lit "2025-02-14T09:00:00.000Z").

Definition call (id : json) (params : json) : list (jsstring * json) :=
  [(lit "jsonrpc", str "2.0"); (lit "id", id); (lit "method", str "tools/call");
   (lit "params", params)].

(** [summarize_context] called with no arguments at all. *)
Definition call_without_arguments : list (jsstring * json) :=
  call (JNum 1) (obj [("name", str "summarize_context")]%string).

(** [summarize_context] called with a valid request. *)
Definition renewal : SummarizeInput :=
  mkSummarizeInput None None None
    (mkContext (lit "Renewal in negotiation") [] [] [] [] [] [] None)
    exec_bullets (Some (lit "Q3 review")).

Definition call_renewal : list (jsstring * json) :=
  call (JNum 2)
       (obj [("name", str "summarize_context");
             ("arguments",
               obj [("output_format", str "exec_bullets");
                    ("context", obj [("summary", str "Renewal in negotiation")]);
                    ("doc_title", str "Q3 review")])]%string).

(** [tools/call] with [params] that is not an object. *)
Definition call_with_bad_params : list (jsstring * json) := call (str "7") (JNum 3).

(** A notification of an unknown method, and an envelope whose method is the
    empty string, both without an id. *)
Definition ping_notification : list (jsstring * json) :=
  [(lit "jsonrpc", str "2.0"); (lit "method", str "ping")].

Definition empty_method_envelope : list (jsstring * json) :=
  [(lit "jsonrpc", str "2.0"); (lit "method", JStr [])].

Lemma summarize_context_result_witness :
  fetches (handleMessage (JObj call_renewal)) env_unconfigured = []
  /\ result_of (handleMessage (JObj call_renewal)) env_unconfigured
     = Some (makeResult (JNum 2)
               (toolResult (lit "Doc push: failed" ++ [LF] ++ NOT_CONFIGURED) true)).
Proof.
  pose proof (summarize_context_result env_unconfigured call_renewal renewal
                (conj eq_refl eq_refl) eq_refl eq_refl eq_refl) as (Hfetch & Hresult & _).
  split; [exact Hfetch | exact Hresult].
Defined.

(** C9 (the claim as stated fails). The sink answers the push of a valid
    request with status 500 and the pushed text as its body: the tool
    result's text then holds the whole rendered summary, and does not hold
    the chosen title. *)
Lemma result_text_can_hold_the_summary :
  safeParse summarizeInputSchema (JObj (arguments_of (params_of call_renewal)))
  = inr renewal
  /\ result_of (handleMessage (JObj call_renewal)) env_echo
     = Some (makeResult (JNum 2)
               (toolResult
                  (lit "Doc push: failed" ++ [LF] ++ lit "Webhook HTTP 500: "
                     ++ formatSummary renewal)
                  true))
  /\ includes (lit "Doc push: failed" ++ [LF] ++ lit "Webhook HTTP 500: "
                 ++ formatSummary renewal)
              (formatSummary renewal) = true
  /\ includes (lit "Doc push: failed" ++ [LF] ++ lit "Webhook HTTP 500: "
                 ++ formatSummary renewal)
              (chosen_title renewal) = false.
Proof. repeat split; vm_compute; reflexivity. Qed.

Lemma tools_call_defaults_witness :
  tool_level (JStr (lit "7")) (result_of (handleMessage (JObj call_with_bad_params)) env_echo)
  /\ result_of (handleMessage (JObj call_with_bad_params)) env_echo
     = Some (makeResult (JStr (lit "7"))
               (toolResult (lit "Validation error: tool name is required.") true)).
Proof.
  pose proof (tools_call_defaults env_echo call_with_bad_params
                (conj eq_refl eq_refl) eq_refl) as (Htool & Hparams & _).
  split; [exact Htool |].
  apply Hparams. intros p H. discriminate H.
Defined.

Lemma notification_semantics_witness :
  result_of (handleMessage (JObj ping_notification)) env_echo = None.
Proof.
  pose proof (notification_semantics env_echo ping_notification (lit "ping")
                (conj eq_refl eq_refl)) as H.
  apply H; [discriminate | reflexivity | reflexivity].
Defined.

(** C7 (the claim as stated fails). An envelope with [jsonrpc: "2.0"], no
    id, and the empty string as its method (a string method that is neither
    of the [initialized] variants) is answered, with the -32600 error. *)
Lemma empty_method_without_id_is_answered :
  envelope empty_method_envelope []
  /\ has_id empty_method_envelope = false
  /\ is_initialized [] = false
  /\ result_of (handleMessage (JObj empty_method_envelope)) env_unconfigured
     = Some (makeError JNull (-32600) "Invalid Request" (Some (str "Missing method."))).
Proof. repeat split. Qed.

(* ================================================================== *)
(** * Batches *)
(* ================================================================== *)

(** The responses that are not [null], in order. *)
Fixpoint omit_null (responses : list (option json)) : list json :=
  match responses with
  | [] => []
  | Some r :: rest => r :: omit_null rest
  | None :: rest => omit_null rest
  end.

Lemma handleBatch_result (messages : list json) (env : Env) :
  result_of (handleBatch messages) env
  = omit_null (List.map (fun message => result_of (handleMessage message) env) messages).
Proof.
  induction messages as [| message rest IH]; [reflexivity |].
  cbn [handleBatch List.map omit_null].
  rewrite !result_bind, result_ret, IH.
  destruct (result_of (handleMessage message) env); reflexivity.
Qed.

Lemma handleBatch_trace (messages : list json) (env : Env) :
  trace_of (handleBatch messages) env
  = List.concat (List.map (fun message => trace_of (handleMessage message) env) messages).
Proof.
  induction messages as [| message rest IH]; [reflexivity |].
  cbn [handleBatch List.map List.concat].
  rewrite !trace_bind, IH.
  change (trace_of (ret _) env) with (@nil Event).
  rewrite app_nil_r. reflexivity.
Qed.

(** C8. For an array body, every element is handled on its own and in array
    order: the effects of the request are those of the elements one after
    the other, and the batch response holds exactly the elements' responses
    that are not null, in that order, with status 200; when every element
    produces no response, the handler answers 204 with no body. *)
Theorem batch_responses (env : Env) (messages : list json) :
  let responses :=
    omit_null (List.map (fun message => result_of (handleMessage message) env) messages) in
  trace_of (POST (inr (JArr messages))) env
  = List.concat (List.map (fun message => trace_of (handleMessage message) env) messages)
  /\ result_of (POST (inr (JArr messages))) env
     = match responses with
       | [] => mkHttpResponse 204 CORS_HEADERS None
       | _ :: _ => mkHttpResponse 200 CORS_HEADERS (Some (JArr responses))
       end.
Proof.
  intros responses. unfold POST. rewrite result_bind, trace_bind.
  rewrite handleBatch_result, handleBatch_trace. fold responses.
  destruct responses; split; try reflexivity;
    change (trace_of (ret _) env) with (@nil Event); apply app_nil_r.
Qed.

(* ================================================================== *)
(** * [JSON.parse] after [JSON.stringify]: strings *)
(* ================================================================== *)

Lemma hex_value_hex_digit (n : N) : (n < 16)%N -> hex_value (hex_digit n) = Some n.
Proof.
  intros H. unfold hex_value, hex_digit.
  destruct (N.ltb_spec n 10) as [Hlow | Hhigh].
  - assert ((48 <=? 48 + n) && (48 + n <=? 57) = true)%N as ->
        by (apply andb_true_intro; split; apply N.leb_le; lia).
    f_equal. lia.
  - assert ((48 <=? 87 + n) && (87 + n <=? 57) = false)%N as ->
        by (apply andb_false_iff; right; apply N.leb_gt; lia).
    assert ((97 <=? 87 + n) && (87 + n <=? 102) = true)%N as ->
        by (apply andb_true_intro; split; apply N.leb_le; lia).
    f_equal. lia.
Qed.

Lemma hex_digits_value (c : code_unit) :
  (c < 65536)%N ->
  (c / 4096 mod 16 * 4096 + c / 256 mod 16 * 256 + c / 16 mod 16 * 16 + c mod 16 = c)%N.
Proof.
  intros H.
  pose proof (N.div_mod c 16 ltac:(discriminate)) as H0.
  pose proof (N.div_mod (c / 16) 16 ltac:(discriminate)) as H1.
  pose proof (N.div_mod (c / 16 / 16) 16 ltac:(discriminate)) as H2.
  assert (c / 256 = c / 16 / 16)%N as E2 by (rewrite N.Div0.div_div; reflexivity).
  assert (c / 4096 = c / 16 / 16 / 16)%N as E3 by (rewrite !N.Div0.div_div; reflexivity).
  assert (c / 16 / 16 / 16 < 16)%N as Hsmall.
  { rewrite <- E3. apply N.Div0.div_lt_upper_bound. exact H. }
  rewrite E2, E3, (N.mod_small _ _ Hsmall). lia.
Qed.

(** An escape [\uXXXX] is read back as the code unit it was written for. *)
Lemma parse_string_unicode_escape (c : code_unit) (x : jsstring) :
  (c < 65536)%N -> parse_string (unicode_escape c ++ x) = cons_fst c (parse_string x).
Proof.
  intros H. unfold unicode_escape.
  change (lit "\u") with [92; 117]%N. cbn [app parse_string].
  change (92 =? 34)%N with false. change (92 =? 92)%N with true.
  change (117 =? 117)%N with true. cbv iota.
  rewrite !hex_value_hex_digit by (apply N.mod_lt; discriminate).
  rewrite (hex_digits_value c H). reflexivity.
Qed.

(** A code unit written as it is is read back as it is. *)
Lemma parse_string_literal (c : code_unit) (x : jsstring) :
  (c =? 34)%N = false -> (c =? 92)%N = false -> (c <? 32)%N = false ->
  parse_string (c :: x) = cons_fst c (parse_string x).
Proof. intros H1 H2 H3. cbn [parse_string]. rewrite H1, H2, H3. reflexivity. Qed.

Lemma surrogate_bounds (c : code_unit) :
  is_high_surrogate c = true \/ is_low_surrogate c = true ->
  (c < 65536)%N /\ (c =? 34)%N = false /\ (c =? 92)%N = false /\ (c <? 32)%N = false.
Proof.
  unfold is_high_surrogate, is_low_surrogate.
  rewrite !andb_true_iff, !N.leb_le. intros H.
  repeat split; try lia.
  - apply N.eqb_neq. lia.
  - apply N.eqb_neq. lia.
  - apply N.ltb_ge. lia.
Qed.

(** The string a quoted string denotes. *)
Definition reads_back (s : jsstring) : Prop :=
  forall rest, parse_string (quote_body s ++ DQUOTE :: rest) = Some (s, rest).

(** A two-character escape is read back as the code unit it stands for. *)
Lemma parse_string_simple_escape (e x : code_unit) (y : jsstring) :
  (e =? 117)%N = false -> simple_escape e = Some x ->
  parse_string (BACKSLASH :: e :: y) = cons_fst x (parse_string y).
Proof.
  intros He Hx. cbn [parse_string]. unfold BACKSLASH.
  change (92 =? 34)%N with false. change (92 =? 92)%N with true. cbv iota.
  rewrite He, Hx. reflexivity.
Qed.

Ltac short_escape E e x :=
  apply N.eqb_eq in E; subst; cbn [app];
  rewrite (parse_string_simple_escape e x) by reflexivity;
  match goal with
  | Ht : reads_back _ |- context [parse_string (_ ++ DQUOTE :: ?rest)] => rewrite (Ht rest)
  end; reflexivity.

(** One more code unit in front, when it does not open a surrogate pair. *)
Lemma reads_back_cons (c : code_unit) (t : jsstring) :
  reads_back t ->
  (is_high_surrogate c = true ->
   match t with d :: _ => is_low_surrogate d = false | [] => True end) ->
  reads_back (c :: t).
Proof.
  intros Ht Hpair rest. cbn [quote_body].
  destruct (c =? 8)%N eqn:E8; [short_escape E8 98%N 8%N |].
  destruct (c =? 9)%N eqn:E9; [short_escape E9 116%N 9%N |].
  destruct (c =? 10)%N eqn:E10; [short_escape E10 110%N 10%N |].
  destruct (c =? 12)%N eqn:E12; [short_escape E12 102%N 12%N |].
  destruct (c =? 13)%N eqn:E13; [short_escape E13 114%N 13%N |].
  destruct (c =? 34)%N eqn:E34; [short_escape E34 34%N 34%N |].
  destruct (c =? 92)%N eqn:E92; [short_escape E92 92%N 92%N |].
  destruct (c <? 32)%N eqn:E32.
  { rewrite <- app_assoc, parse_string_unicode_escape, (Ht rest); [reflexivity |].
    apply N.ltb_lt in E32. lia. }
  destruct (is_high_surrogate c) eqn:Ehigh.
  { destruct (surrogate_bounds c (or_introl Ehigh)) as (Hlt & _).
    specialize (Hpair eq_refl). destruct t as [| d t'].
    - rewrite parse_string_unicode_escape by exact Hlt.
      specialize (Ht rest). cbn [quote_body app] in Ht. rewrite Ht. reflexivity.
    - rewrite Hpair, <- app_assoc, parse_string_unicode_escape, (Ht rest) by exact Hlt.
      reflexivity. }
  destruct (is_low_surrogate c) eqn:Elow.
  { destruct (surrogate_bounds c (or_intror Elow)) as (Hlt & _).
    rewrite <- app_assoc, parse_string_unicode_escape, (Ht rest) by exact Hlt.
    reflexivity. }
  cbn [app]. rewrite parse_string_literal, (Ht rest) by assumption. reflexivity.
Qed.

(** A surrogate pair in front. *)
Lemma reads_back_pair (c d : code_unit) (t : jsstring) :
  reads_back t -> is_high_surrogate c = true -> is_low_surrogate d = true ->
  reads_back (c :: d :: t).
Proof.
  intros Ht Hc Hd rest.
  destruct (surrogate_bounds c (or_introl Hc)) as (_ & Hc34 & Hc92 & Hc32).
  destruct (surrogate_bounds d (or_intror Hd)) as (_ & Hd34 & Hd92 & Hd32).
  cbn [quote_body].
  assert ((c =? 8) = false /\ (c =? 9) = false /\ (c =? 10) = false
          /\ (c =? 12) = false /\ (c =? 13) = false)%N as (E8 & E9 & E10 & E12 & E13).
  { apply N.ltb_ge in Hc32. repeat split; apply N.eqb_neq; lia. }
  rewrite E8, E9, E10, E12, E13, Hc34, Hc92, Hc32, Hc, Hd.
  cbn [app]. rewrite !parse_string_literal, (Ht rest) by assumption. reflexivity.
Qed.

(** Every string is read back from its quoted form. *)
Lemma quote_body_reads_back (s : jsstring) : reads_back s.
Proof.
  enough (reads_back s /\ forall c, reads_back (c :: s)) as [H _] by exact H.
  induction s as [| d t [IHt IHc]].
  - assert (reads_back []) as Hnil by (intros rest; reflexivity).
    split; [exact Hnil |]. intros c. apply reads_back_cons; [exact Hnil | trivial].
  - split; [apply IHc |]. intros c.
    destruct (is_high_surrogate c) eqn:Hc; [destruct (is_low_surrogate d) eqn:Hd |].
    + apply reads_back_pair; assumption.
    + apply reads_back_cons; [apply IHc | intros _; exact Hd].
    + apply reads_back_cons; [apply IHc | intros H; congruence].
Qed.

Lemma parse_string_QuoteJSONString (s rest : jsstring) :
  QuoteJSONString s ++ rest = DQUOTE :: (quote_body s ++ DQUOTE :: rest)
  /\ parse_string (quote_body s ++ DQUOTE :: rest) = Some (s, rest).
Proof.
  split; [| apply quote_body_reads_back].
  unfold QuoteJSONString. cbn [app]. rewrite <- app_assoc. reflexivity.
Qed.

(* ================================================================== *)
(** * [JSON.parse] after [JSON.stringify]: values *)
(* ================================================================== *)

Fixpoint nodup_keys (keys : list jsstring) : bool :=
  match keys with
  | [] => true
  | k :: rest => negb (existsb (jsstring_eqb k) rest) && nodup_keys rest
  end.

(** The values the round trip is proved for: no number inside, and no
    object with a key twice. *)
Fixpoint round_trippable (v : json) : bool :=
  match v with
  | JNum _ => false
  | JArr items => forallb round_trippable items
  | JObj props =>
      nodup_keys (List.map fst props)
      && forallb (fun kv => round_trippable (snd kv)) props
  | _ => true
  end.

(** The fuel that parsing the serialized value takes. *)
Fixpoint size (v : json) : nat :=
  match v with
  | JArr items => S (list_sum (List.map (fun x => S (size x)) items))
  | JObj props => S (list_sum (List.map (fun kv => S (size (snd kv))) props))
  | _ => 1
  end.

Definition all_ws (w : jsstring) : bool := forallb is_json_ws w.

(** The serializer with the gap of two spaces. *)
Definition gap2 : jsstring := [SPACE; SPACE].
Definition Ser (indent : jsstring) (v : json) : jsstring := SerializeJSON gap2 indent v.

(** The separator between the members of an indented object or array. *)
Definition sep (indent : jsstring) : jsstring := lit "," ++ [LF] ++ indent.

(** Induction on a JSON value, with the hypothesis for every member. *)
Fixpoint json_induction (P : json -> Prop)
         (Hnull : P JNull) (Hbool : forall b, P (JBool b)) (Hnum : forall z, P (JNum z))
         (Hstr : forall s, P (JStr s))
         (Harr : forall items, Forall P items -> P (JArr items))
         (Hobj : forall props, Forall (fun kv => P (snd kv)) props -> P (JObj props))
         (v : json) {struct v} : P v :=
  match v with
  | JNull => Hnull
  | JBool b => Hbool b
  | JNum z => Hnum z
  | JStr s => Hstr s
  | JArr items =>
      Harr items
        ((fix all (l : list json) : Forall P l :=
            match l with
            | [] => Forall_nil P
            | x :: rest =>
                Forall_cons x (json_induction P Hnull Hbool Hnum Hstr Harr Hobj x) (all rest)
            end) items)
  | JObj props =>
      Hobj props
        ((fix all (l : list (jsstring * json)) : Forall (fun kv => P (snd kv)) l :=
            match l with
            | [] => Forall_nil _
            | kv :: rest =>
                Forall_cons kv
                  (json_induction P Hnull Hbool Hnum Hstr Harr Hobj (snd kv)) (all rest)
            end) props)
  end.

Lemma parse_value_S (fuel : nat) (s : jsstring) :
  parse_value (S fuel) s
  = match skip_ws s with
    | [] => None
    | c :: t =>
        if (c =? 123)%N then
          match skip_ws t with
          | [] => None
          | c' :: t' =>
              if (c' =? 125)%N then Some (JObj [], t')
              else match parse_members fuel t with
                   | Some (ms, rest) => Some (JObj (build_object ms), rest)
                   | None => None
                   end
          end
        else if (c =? 91)%N then
          match skip_ws t with
          | [] => None
          | c' :: t' =>
              if (c' =? 93)%N then Some (JArr [], t')
              else match parse_elements fuel t with
                   | Some (vs, rest) => Some (JArr vs, rest)
                   | None => None
                   end
          end
        else if (c =? 34)%N then
          match parse_string t with
          | Some (str, rest) => Some (JStr str, rest)
          | None => None
          end
        else if startsWith (c :: t) (lit "true") then Some (JBool true, skipn 4 (c :: t))
        else if startsWith (c :: t) (lit "false") then Some (JBool false, skipn 5 (c :: t))
        else if startsWith (c :: t) (lit "null") then Some (JNull, skipn 4 (c :: t))
        else parse_number (c :: t)
    end.
Proof. reflexivity. Qed.

Lemma parse_elements_S (fuel : nat) (s : jsstring) :
  parse_elements (S fuel) s
  = match parse_value fuel s with
    | None => None
    | Some (v, r) =>
        match skip_ws r with
        | [] => None
        | c :: r' =>
            if (c =? 44)%N then cons_fst v (parse_elements fuel r')
            else if (c =? 93)%N then Some ([v], r')
            else None
        end
    end.
Proof. reflexivity. Qed.

Lemma parse_members_S (fuel : nat) (s : jsstring) :
  parse_members (S fuel) s
  = match skip_ws s with
    | [] => None
    | q :: t =>
        if (q =? 34)%N then
          match parse_string t with
          | None => None
          | Some (k, r) =>
              match skip_ws r with
              | [] => None
              | colon :: r1 =>
                  if (colon =? 58)%N then
                    match parse_value fuel r1 with
                    | None => None
                    | Some (v, r2) =>
                        match skip_ws r2 with
                        | [] => None
                        | c :: r3 =>
                            if (c =? 44)%N then cons_fst (k, v) (parse_members fuel r3)
                            else if (c =? 125)%N then Some ([(k, v)], r3)
                            else None
                        end
                    end
                  else None
              end
          end
        else None
    end.
Proof. reflexivity. Qed.

Lemma skip_ws_app (w x : jsstring) : all_ws w = true -> skip_ws (w ++ x) = skip_ws x.
Proof.
  induction w as [| c w IH]; [reflexivity |].
  cbn [all_ws forallb app skip_ws]. intros H. apply andb_prop in H.
  destruct H as [Hc Hw]. rewrite Hc. apply IH, Hw.
Qed.

Lemma skip_ws_stop (c : code_unit) (x : jsstring) :
  is_json_ws c = false -> skip_ws (c :: x) = c :: x.
Proof. intros H. cbn [skip_ws]. rewrite H. reflexivity. Qed.

Lemma parse_value_ws (fuel : nat) (w x : jsstring) :
  all_ws w = true -> parse_value fuel (w ++ x) = parse_value fuel x.
Proof.
  intros H. destruct fuel; [reflexivity |].
  rewrite !parse_value_S, (skip_ws_app w x H). reflexivity.
Qed.

Lemma parse_elements_ws (fuel : nat) (w x : jsstring) :
  all_ws w = true -> parse_elements fuel (w ++ x) = parse_elements fuel x.
Proof.
  intros H. destruct fuel; [reflexivity |].
  rewrite !parse_elements_S, (parse_value_ws fuel w x H). reflexivity.
Qed.

Lemma parse_members_ws (fuel : nat) (w x : jsstring) :
  all_ws w = true -> parse_members fuel (w ++ x) = parse_members fuel x.
Proof.
  intros H. destruct fuel; [reflexivity |].
  rewrite !parse_members_S, (skip_ws_app w x H). reflexivity.
Qed.

(** A serialized value starts with a character that is neither white space
    nor a closing bracket. *)
Definition opens_value (s : jsstring) : Prop :=
  exists c t, s = c :: t /\ is_json_ws c = false
              /\ (c =? 93)%N = false /\ (c =? 125)%N = false.

Lemma Ser_opens_value (indent : jsstring) (v : json) :
  round_trippable v = true -> opens_value (Ser indent v).
Proof.
  intros H. unfold opens_value, Ser.
  destruct v as [| [|] | z | s | items | props]; try discriminate H;
    try (cbn [SerializeJSON]; eexists _, _; split; [reflexivity |]; repeat split).
  - destruct items as [| x items]; cbn [SerializeJSON wrap_members List.map];
      eexists _, _; (split; [reflexivity |]); repeat split.
  - destruct props as [| x props]; cbn [SerializeJSON wrap_members List.map];
      eexists _, _; (split; [reflexivity |]); repeat split.
Qed.

Lemma wrap_members_gap2 (stepback indent : jsstring) (opening closing : string)
      (p : jsstring) (partial : list jsstring) :
  wrap_members gap2 stepback indent opening closing (p :: partial)
  = lit opening ++ [LF] ++ indent ++ join (sep indent) (p :: partial)
      ++ [LF] ++ stepback ++ lit closing.
Proof. reflexivity. Qed.

(** What the induction provides for a member: it is read back after any
    white space, at the indentation [indent], with enough fuel. *)
Definition value_reads_back (indent : jsstring) (v : json) : Prop :=
  forall rest fuel w,
    all_ws w = true -> size v <= fuel ->
    parse_value fuel (w ++ Ser indent v ++ rest) = Some (v, rest).

Lemma all_ws_LF_indent (indent : jsstring) :
  all_ws indent = true -> all_ws (LF :: indent) = true.
Proof. intros H. cbn [all_ws forallb]. exact H. Qed.

Lemma list_sum_cons (n : nat) (l : list nat) : list_sum (n :: l) = n + list_sum l.
Proof. reflexivity. Qed.

(** The elements of an array are read back up to the closing bracket. *)
Lemma parse_elements_join (indent stepback : jsstring) (items : list json) :
  Forall (value_reads_back indent) items -> items <> [] ->
  all_ws indent = true -> all_ws stepback = true ->
  forall rest fuel w,
    all_ws w = true ->
    list_sum (List.map (fun x => S (size x)) items) <= fuel ->
    parse_elements fuel
      (w ++ join (sep indent) (List.map (Ser indent) items)
         ++ LF :: stepback ++ 93%N :: rest)
    = Some (items, rest).
Proof.
  intros Hitems. induction Hitems as [| v more Hv Hmore IH]; [contradiction |].
  intros _ Hind Hstep rest fuel w Hw Hfuel.
  cbn [List.map] in Hfuel. rewrite list_sum_cons in Hfuel.
  destruct fuel as [| fuel]; [lia |].
  rewrite parse_elements_S.
  destruct more as [| v2 more'].
  - cbn [List.map join].
    rewrite (Hv (LF :: stepback ++ 93%N :: rest) fuel w Hw) by lia.
    change (LF :: stepback ++ 93%N :: rest) with ((LF :: stepback) ++ 93%N :: rest).
    rewrite skip_ws_app by (apply all_ws_LF_indent, Hstep).
    reflexivity.
  - cbn [List.map]. rewrite join_cons by discriminate.
    rewrite <- !app_assoc.
    rewrite (Hv _ fuel w Hw) by lia.
    unfold sep at 1. change (lit ",") with [44%N]. cbn [app skip_ws].
    change (is_json_ws 44%N) with false. cbv iota.
    change (44 =? 44)%N with true. cbv iota.
    change (LF :: indent ++ ?x) with ((LF :: indent) ++ x).
    change (Ser indent v2 :: List.map (Ser indent) more')
      with (List.map (Ser indent) (v2 :: more')).
    rewrite (IH ltac:(discriminate) Hind Hstep rest fuel (LF :: indent)
               (all_ws_LF_indent indent Hind)) by lia.
    reflexivity.
Qed.

Lemma member_app (k s x : jsstring) :
  member gap2 k s ++ x
  = DQUOTE :: (quote_body k ++ DQUOTE :: 58%N :: ([SPACE] ++ s ++ x)).
Proof.
  unfold member, QuoteJSONString, gap2. change (lit ":") with [58%N].
  cbn [app]. rewrite <- !app_assoc. reflexivity.
Qed.

(** The text of an object member, as the induction sees it. *)
Definition member_text (indent : jsstring) (kv : jsstring * json) : jsstring :=
  member gap2 (fst kv) (Ser indent (snd kv)).

(** The members of an object are read back up to the closing brace. *)
Lemma parse_members_join (indent stepback : jsstring) (props : list (jsstring * json)) :
  Forall (fun kv => value_reads_back indent (snd kv)) props -> props <> [] ->
  all_ws indent = true -> all_ws stepback = true ->
  forall rest fuel w,
    all_ws w = true ->
    list_sum (List.map (fun kv => S (size (snd kv))) props) <= fuel ->
    parse_members fuel
      (w ++ join (sep indent) (List.map (member_text indent) props)
         ++ LF :: stepback ++ 125%N :: rest)
    = Some (props, rest).
Proof.
  intros Hprops. induction Hprops as [| [k v] more Hv Hmore IH]; [contradiction |].
  intros _ Hind Hstep rest fuel w Hw Hfuel.
  cbn [List.map snd] in Hfuel. rewrite list_sum_cons in Hfuel.
  cbn [snd] in Hv.
  destruct fuel as [| fuel]; [lia |].
  rewrite parse_members_ws by exact Hw.
  rewrite parse_members_S.
  destruct more as [| kv2 more'].
  - cbn [List.map join]. unfold member_text. cbn [fst snd].
    rewrite member_app, skip_ws_stop by reflexivity.
    change (DQUOTE =? 34)%N with true. cbv iota.
    rewrite quote_body_reads_back.
    rewrite skip_ws_stop by reflexivity.
    change (58 =? 58)%N with true. cbv iota.
    rewrite (Hv _ fuel [SPACE] eq_refl) by lia.
    change (LF :: stepback ++ 125%N :: rest) with ((LF :: stepback) ++ 125%N :: rest).
    rewrite skip_ws_app by (apply all_ws_LF_indent, Hstep).
    reflexivity.
  - cbn [List.map]. rewrite join_cons by discriminate.
    unfold member_text at 1. cbn [fst snd].
    rewrite <- !app_assoc.
    rewrite member_app, skip_ws_stop by reflexivity.
    change (DQUOTE =? 34)%N with true. cbv iota.
    rewrite quote_body_reads_back.
    rewrite skip_ws_stop by reflexivity.
    change (58 =? 58)%N with true. cbv iota.
    rewrite (Hv _ fuel [SPACE] eq_refl) by lia.
    unfold sep at 1. change (lit ",") with [44%N]. cbn [app skip_ws].
    change (is_json_ws 44%N) with false. cbv iota.
    change (44 =? 44)%N with true. cbv iota.
    change (LF :: indent ++ ?x) with ((LF :: indent) ++ x).
    change (member_text indent kv2 :: List.map (member_text indent) more')
      with (List.map (member_text indent) (kv2 :: more')).
    rewrite (IH ltac:(discriminate) Hind Hstep rest fuel (LF :: indent)
               (all_ws_LF_indent indent Hind)) by lia.
    reflexivity.
Qed.

(** [build_object] on members with distinct keys. *)
Lemma existsb_jsstring_eqb (k : jsstring) (keys : list jsstring) :
  existsb (jsstring_eqb k) keys = false -> ~ In k keys.
Proof.
  induction keys as [| k' keys IH]; [intros _ [] |].
  cbn [existsb]. intros H. apply orb_false_elim in H. destruct H as [Hk Hrest].
  intros [Heq | Hin]; [| exact (IH Hrest Hin)].
  subst k'. rewrite jsstring_eqb_refl in Hk. discriminate.
Qed.

Lemma set_prop_fresh (k : jsstring) (v : json) (acc : list (jsstring * json)) :
  ~ In k (List.map fst acc) -> set_prop k v acc = acc ++ [(k, v)].
Proof.
  induction acc as [| [k' v'] acc IH]; [reflexivity |].
  cbn [List.map fst In set_prop app]. intros H.
  destruct (jsstring_eqb k' k) eqn:E.
  - apply jsstring_eqb_eq in E. exfalso. apply H. left. exact E.
  - rewrite IH; [reflexivity |]. intros Hin. apply H. right. exact Hin.
Qed.

Lemma fold_set_prop (members acc : list (jsstring * json)) :
  nodup_keys (List.map fst members) = true ->
  (forall k, In k (List.map fst members) -> ~ In k (List.map fst acc)) ->
  fold_left (fun a kv => set_prop (fst kv) (snd kv) a) members acc = acc ++ members.
Proof.
  revert acc. induction members as [| [k v] members IH]; intros acc Hnodup Hfresh.
  - cbn [fold_left]. rewrite app_nil_r. reflexivity.
  - cbn [List.map fst nodup_keys] in Hnodup. apply andb_prop in Hnodup.
    destruct Hnodup as [Hk Hrest]. apply negb_true_iff in Hk.
    apply existsb_jsstring_eqb in Hk.
    cbn [fold_left fst snd].
    rewrite set_prop_fresh by (apply Hfresh; left; reflexivity).
    rewrite IH; [rewrite <- app_assoc; reflexivity | exact Hrest |].
    intros k' Hin Hacc. rewrite map_app in Hacc. apply in_app_or in Hacc.
    destruct Hacc as [Hacc | [Heq | []]].
    + apply (Hfresh k'); [right; exact Hin | exact Hacc].
    + cbn [fst] in Heq. subst k'. exact (Hk Hin).
Qed.

Lemma build_object_nodup (members : list (jsstring * json)) :
  nodup_keys (List.map fst members) = true -> build_object members = members.
Proof.
  intros H. unfold build_object. rewrite fold_set_prop; [reflexivity | exact H |].
  intros k _ [].
Qed.

Lemma opens_value_app (x y : jsstring) : opens_value x -> opens_value (x ++ y).
Proof.
  intros (c & t & -> & H). exists c, (t ++ y). split; [reflexivity | exact H].
Qed.

Lemma opens_value_join (separator p : jsstring) (rest : list jsstring) :
  opens_value p -> opens_value (join separator (p :: rest)).
Proof.
  intros H. destruct rest as [| q rest]; [exact H |].
  rewrite join_cons by discriminate. apply opens_value_app, H.
Qed.

Lemma skip_ws_opens (s : jsstring) :
  opens_value s ->
  exists c t, skip_ws s = c :: t /\ (c =? 93)%N = false /\ (c =? 125)%N = false.
Proof.
  intros (c & t & -> & Hws & H). exists c, t.
  split; [apply skip_ws_stop, Hws | exact H].
Qed.

Lemma all_ws_indent_gap2 (indent : jsstring) :
  all_ws indent = true -> all_ws (indent ++ gap2) = true.
Proof.
  intros H. unfold all_ws. rewrite forallb_app. fold (all_ws indent). rewrite H. reflexivity.
Qed.

(** The text of a non-empty array and of a non-empty object. *)
Lemma Ser_array_app (indent : jsstring) (x : json) (items : list json) (rest : jsstring) :
  Ser indent (JArr (x :: items)) ++ rest
  = 91%N :: ((LF :: indent ++ gap2)
               ++ (join (sep (indent ++ gap2)) (List.map (Ser (indent ++ gap2)) (x :: items))
                     ++ LF :: indent ++ 93%N :: rest)).
Proof.
  unfold Ser. cbn [SerializeJSON]. cbn [List.map]. rewrite wrap_members_gap2.
  change (lit "[") with [91%N]. change (lit "]") with [93%N].
  set (body := join _ _). cbn [app]. rewrite <- !app_assoc. cbn [app].
  rewrite <- !app_assoc. reflexivity.
Qed.

Lemma Ser_object_app (indent : jsstring) (kv : jsstring * json)
      (props : list (jsstring * json)) (rest : jsstring) :
  Ser indent (JObj (kv :: props)) ++ rest
  = 123%N :: ((LF :: indent ++ gap2)
                ++ (join (sep (indent ++ gap2))
                         (List.map (member_text (indent ++ gap2)) (kv :: props))
                      ++ LF :: indent ++ 125%N :: rest)).
Proof.
  unfold Ser. cbn [SerializeJSON]. cbn [List.map]. rewrite wrap_members_gap2.
  change (lit "{") with [123%N]. change (lit "}") with [125%N].
  set (body := join _ _). cbn [app]. rewrite <- !app_assoc. cbn [app].
  rewrite <- !app_assoc. reflexivity.
Qed.

Lemma member_text_opens (indent : jsstring) (kv : jsstring * json) :
  opens_value (member_text indent kv).
Proof.
  unfold member_text, member, QuoteJSONString. eexists _, _.
  split; [reflexivity |]. repeat split.
Qed.

(** A round-trippable value is read back from its serialization, after any
    white space and before any text, with enough fuel. *)
Lemma Ser_reads_back (v : json) :
  round_trippable v = true ->
  forall indent, all_ws indent = true -> value_reads_back indent v.
Proof.
  induction v as [| b | z | s | items IH | props IH] using json_induction;
    intros Hrt indent Hind rest fuel w Hw Hfuel;
    (destruct fuel as [| fuel]; [cbn [size] in Hfuel; lia |]);
    rewrite (parse_value_ws _ w _ Hw), parse_value_S.
  - reflexivity.
  - destruct b; reflexivity.
  - discriminate Hrt.
  - unfold Ser. cbn [SerializeJSON].
    destruct (parse_string_QuoteJSONString s rest) as [-> Hs].
    rewrite skip_ws_stop by reflexivity.
    change (DQUOTE =? 123)%N with false. change (DQUOTE =? 91)%N with false.
    change (DQUOTE =? 34)%N with true. cbv iota.
    rewrite Hs. reflexivity.
  - destruct items as [| x items]; [reflexivity |].
    cbn [round_trippable] in Hrt. cbn [size] in Hfuel.
    pose proof (all_ws_indent_gap2 indent Hind) as Hind'.
    assert (Forall (value_reads_back (indent ++ gap2)) (x :: items)) as Hall.
    { rewrite Forall_forall in IH. apply Forall_forall. intros y Hy.
      apply IH; [exact Hy | | exact Hind'].
      rewrite forallb_forall in Hrt. apply Hrt, Hy. }
    assert (round_trippable x = true) as Hx
        by (cbn [forallb] in Hrt; apply andb_prop in Hrt; apply Hrt).
    rewrite Ser_array_app, skip_ws_stop by reflexivity.
    change (91 =? 123)%N with false. change (91 =? 91)%N with true. cbv iota.
    rewrite skip_ws_app by (apply all_ws_LF_indent, Hind').
    destruct (skip_ws_opens
                (join (sep (indent ++ gap2)) (List.map (Ser (indent ++ gap2)) (x :: items))
                   ++ LF :: indent ++ 93%N :: rest)) as (c & t & -> & H93 & _).
    { apply opens_value_app. cbn [List.map].
      apply opens_value_join, Ser_opens_value, Hx. }
    rewrite H93.
    rewrite (parse_elements_join (indent ++ gap2) indent (x :: items) Hall
               ltac:(discriminate) Hind' Hind rest fuel (LF :: indent ++ gap2)
               (all_ws_LF_indent _ Hind')) by lia.
    reflexivity.
  - destruct props as [| kv props]; [reflexivity |].
    cbn [round_trippable] in Hrt. apply andb_prop in Hrt. destruct Hrt as [Hkeys Hrt].
    cbn [size] in Hfuel.
    pose proof (all_ws_indent_gap2 indent Hind) as Hind'.
    assert (Forall (fun kv0 => value_reads_back (indent ++ gap2) (snd kv0)) (kv :: props))
      as Hall.
    { rewrite Forall_forall in IH. apply Forall_forall. intros y Hy.
      apply IH; [exact Hy | | exact Hind'].
      rewrite forallb_forall in Hrt. apply Hrt, Hy. }
    rewrite Ser_object_app, skip_ws_stop by reflexivity.
    change (123 =? 123)%N with true. cbv iota.
    rewrite skip_ws_app by (apply all_ws_LF_indent, Hind').
    destruct (skip_ws_opens
                (join (sep (indent ++ gap2))
                      (List.map (member_text (indent ++ gap2)) (kv :: props))
                   ++ LF :: indent ++ 125%N :: rest)) as (c & t & -> & _ & H125).
    { apply opens_value_app. cbn [List.map].
      apply opens_value_join, member_text_opens. }
    rewrite H125.
    rewrite (parse_members_join (indent ++ gap2) indent (kv :: props) Hall
               ltac:(discriminate) Hind' Hind rest fuel (LF :: indent ++ gap2)
               (all_ws_LF_indent _ Hind')) by lia.
    rewrite (build_object_nodup _ Hkeys). reflexivity.
Qed.

(** ** The fuel [JSON.parse] starts with is enough *)

Lemma join_length (separator : jsstring) (parts : list jsstring) :
  separator <> [] ->
  list_sum (List.map (fun p => S (List.length p)) parts)
  <= S (List.length (join separator parts)).
Proof.
  intros Hsep. induction parts as [| p rest IH]; [cbn; lia |].
  cbn [List.map]. rewrite list_sum_cons.
  destruct rest as [| q rest'].
  - cbn. lia.
  - rewrite join_cons by discriminate. rewrite !length_app.
    destruct separator as [| c separator']; [contradiction |].
    change (List.length (c :: separator')) with (S (List.length separator')). lia.
Qed.

Lemma list_sum_le {A : Type} (f g : A -> nat) (l : list A) :
  Forall (fun x => f x <= g x) l ->
  list_sum (List.map f l) <= list_sum (List.map g l).
Proof.
  induction 1 as [| x rest Hx _ IH]; [reflexivity |].
  cbn [List.map]. rewrite !list_sum_cons. lia.
Qed.

Lemma sep_nonempty (indent : jsstring) : sep indent <> [].
Proof. discriminate. Qed.

Lemma size_le_length (v : json) :
  round_trippable v = true -> forall indent, size v <= List.length (Ser indent v).
Proof.
  induction v as [| b | z | s | items IH | props IH] using json_induction;
    intros Hrt indent.
  - cbn. lia.
  - destruct b; cbn; lia.
  - discriminate Hrt.
  - unfold Ser. cbn [SerializeJSON size]. unfold QuoteJSONString. cbn [List.length]. lia.
  - destruct items as [| x items]; [cbn; lia |].
    cbn [round_trippable] in Hrt. cbn [size].
    rewrite <- (app_nil_r (Ser indent (JArr (x :: items)))), Ser_array_app.
    cbn [List.length]. rewrite !length_app. cbn [List.length].
    pose proof (join_length (sep (indent ++ gap2))
                  (List.map (Ser (indent ++ gap2)) (x :: items))
                  (sep_nonempty _)) as Hjoin.
    rewrite map_map in Hjoin.
    assert (list_sum (List.map (fun y => S (size y)) (x :: items))
            <= list_sum (List.map (fun y => S (List.length (Ser (indent ++ gap2) y)))
                                  (x :: items))) as Hsum.
    { apply list_sum_le. rewrite Forall_forall in IH. apply Forall_forall.
      intros y Hy. apply le_n_S. apply IH; [exact Hy |].
      rewrite forallb_forall in Hrt. apply Hrt, Hy. }
    lia.
  - destruct props as [| kv props]; [cbn; lia |].
    cbn [round_trippable] in Hrt. apply andb_prop in Hrt. destruct Hrt as [_ Hrt].
    cbn [size].
    rewrite <- (app_nil_r (Ser indent (JObj (kv :: props)))), Ser_object_app.
    cbn [List.length]. rewrite !length_app. cbn [List.length].
    pose proof (join_length (sep (indent ++ gap2))
                  (List.map (member_text (indent ++ gap2)) (kv :: props))
                  (sep_nonempty _)) as Hjoin.
    rewrite map_map in Hjoin.
    assert (list_sum (List.map (fun y => S (size (snd y))) (kv :: props))
            <= list_sum (List.map (fun y => S (List.length (member_text (indent ++ gap2) y)))
                                  (kv :: props))) as Hsum.
    { apply list_sum_le. rewrite Forall_forall in IH. apply Forall_forall.
      intros y Hy. apply le_n_S.
      transitivity (List.length (Ser (indent ++ gap2) (snd y))).
      - apply IH; [exact Hy |]. rewrite forallb_forall in Hrt. apply Hrt, Hy.
      - unfold member_text, member. rewrite !length_app. lia. }
    lia.
Qed.

(** [JSON.parse(JSON.stringify(v, null, 2))] is [v], for a value without
    numbers and without repeated keys. *)
Lemma JSON_parse_stringify2 (v : json) :
  round_trippable v = true -> JSON_parse (JSON_stringify2 v) = Some v.
Proof.
  intros Hrt. unfold JSON_parse, JSON_stringify2. fold gap2. fold (Ser [] v).
  pose proof (Ser_reads_back v Hrt [] eq_refl [] (S (List.length (Ser [] v))) [] eq_refl)
    as H.
  cbn [app] in H. rewrite app_nil_r in H.
  rewrite H; [reflexivity |].
  pose proof (size_le_length v Hrt []). lia.
Qed.

(** ** The validated request is round-trippable *)

Lemma forallb_round_trippable_map {T : Type} (f : T -> json) (l : list T) :
  (forall x, round_trippable (f x) = true) ->
  forallb round_trippable (List.map f l) = true.
Proof.
  intros H. induction l as [| x rest IH]; [reflexivity |].
  cbn [List.map forallb]. rewrite H, IH. reflexivity.
Qed.

Lemma OpenQuestion_json_round_trippable (q : OpenQuestion.t) :
  round_trippable (OpenQuestion_json q) = true.
Proof. destruct q as [question [owner |] [due |]]; reflexivity. Qed.

Lemma NextStep_json_round_trippable (s : NextStep.t) :
  round_trippable (NextStep_json s) = true.
Proof. destruct s as [action [owner |] [due |] status]; reflexivity. Qed.

Lemma Risk_json_round_trippable (r : Risk.t) : round_trippable (Risk_json r) = true.
Proof. destruct r as [risk severity [mitigation |]]; reflexivity. Qed.

Lemma Stakeholder_json_round_trippable (s : Stakeholder.t) :
  round_trippable (Stakeholder_json s) = true.
Proof. destruct s as [name [role |] [influence |]]; reflexivity. Qed.

Lemma Evidence_json_round_trippable (e : Evidence.t) :
  round_trippable (Evidence_json e) = true.
Proof. destruct e as [type pointer excerpt]; reflexivity. Qed.

Lemma Context_json_round_trippable (c : Context) :
  round_trippable (Context_json c) = true.
Proof.
  destruct c as [text kps oqs nss rs shs evs [updated |]];
    unfold Context_json;
    cbn [opt_prop app round_trippable forallb snd
         summary key_points open_questions next_steps risks stakeholders
         evidence last_updated];
    rewrite (forallb_round_trippable_map JStr kps (fun _ => eq_refl)),
      (forallb_round_trippable_map _ oqs OpenQuestion_json_round_trippable),
      (forallb_round_trippable_map _ nss NextStep_json_round_trippable),
      (forallb_round_trippable_map _ rs Risk_json_round_trippable),
      (forallb_round_trippable_map _ shs Stakeholder_json_round_trippable),
      (forallb_round_trippable_map _ evs Evidence_json_round_trippable);
    reflexivity.
Qed.

Lemma SummarizeInput_json_round_trippable (input : SummarizeInput) :
  round_trippable (SummarizeInput_json input) = true.
Proof.
  destruct input as [[id |] [name |] [canvas |] ctx format [title |]];
    unfold SummarizeInput_json;
    cbn [opt_prop app round_trippable forallb snd
         deal_id deal_name source_canvas_name context output_format doc_title];
    rewrite (Context_json_round_trippable ctx); reflexivity.
Qed.

(* ================================================================== *)
(** * Fence lines *)
(* ================================================================== *)

Definition BACKTICK : code_unit := 96%N.

(** A line that does not start with a backtick: it is no fence. *)
Definition plain (l : jsstring) : bool :=
  match l with
  | c :: _ => negb (cu_eqb c BACKTICK)
  | [] => true
  end.

(** Reading a text from a position that is or is not a line start: [None]
    when a line of it starts with a backtick, else whether the end of the
    text is a line start. *)
Fixpoint scan (at_line_start : bool) (s : jsstring) : option bool :=
  match s with
  | [] => Some at_line_start
  | c :: t =>
      if at_line_start && cu_eqb c BACKTICK then None
      else scan (cu_eqb c LF) t
  end.

(** A text that can stand anywhere: no line of it starts with a backtick,
    wherever it is put, and it does not end with a line feed. *)
Definition solid (s : jsstring) : Prop := forall b, scan b s = Some false.

Lemma scan_app (b : bool) (x y : jsstring) :
  scan b (x ++ y) = match scan b x with
                    | Some b' => scan b' y
                    | None => None
                    end.
Proof.
  revert b. induction x as [| c t IH]; intros b; [reflexivity |].
  cbn [app scan]. destruct (b && cu_eqb c BACKTICK); [reflexivity | apply IH].
Qed.

Lemma scan_no_LF (s : jsstring) : no_LF s = true -> scan false s = Some false.
Proof.
  induction s as [| c t IH]; [reflexivity |].
  rewrite no_LF_cons. intros H. apply andb_prop in H. destruct H as [Hc Ht].
  cbn [scan andb]. apply negb_true_iff in Hc. rewrite Hc. apply IH, Ht.
Qed.

Lemma scan_plain_line (s : jsstring) :
  no_LF s = true -> plain s = true -> scan true s <> None.
Proof.
  destruct s as [| c t]; [discriminate |].
  rewrite no_LF_cons. unfold plain. cbn [scan andb].
  intros H Hc. apply andb_prop in H. destruct H as [Hlf Ht].
  apply negb_true_iff in Hc, Hlf. rewrite Hc, Hlf.
  rewrite (scan_no_LF t Ht). discriminate.
Qed.

Lemma solid_app (x y : jsstring) : solid x -> solid y -> solid (x ++ y).
Proof. intros Hx Hy b. rewrite scan_app, (Hx b). apply Hy. Qed.

Lemma solid_cons (c : code_unit) (y : jsstring) :
  cu_eqb c BACKTICK = false -> cu_eqb c LF = false -> solid y -> solid (c :: y).
Proof.
  intros Hc Hlf Hy b. cbn [scan]. rewrite Hc, Hlf, andb_false_r. apply Hy.
Qed.

Lemma solid_one (c : code_unit) :
  cu_eqb c BACKTICK = false -> cu_eqb c LF = false -> solid [c].
Proof. intros Hc Hlf b. cbn [scan]. rewrite Hc, Hlf, andb_false_r. reflexivity. Qed.

Lemma is_json_ws_not_backtick (c : code_unit) :
  is_json_ws c = true -> cu_eqb c BACKTICK = false.
Proof.
  unfold cu_eqb. destruct (N.eqb_spec c BACKTICK) as [-> |]; [discriminate | reflexivity].
Qed.

Lemma solid_after_ws (w y : jsstring) : all_ws w = true -> solid y -> solid (w ++ y).
Proof.
  intros Hw Hy. induction w as [| c w IH]; [exact Hy |].
  cbn [all_ws forallb] in Hw. apply andb_prop in Hw. destruct Hw as [Hc Hw].
  intros b. cbn [app scan]. rewrite (is_json_ws_not_backtick c Hc), andb_false_r.
  apply IH, Hw.
Qed.

Lemma solid_no_LF (c : code_unit) (s : jsstring) :
  cu_eqb c BACKTICK = false -> no_LF (c :: s) = true -> solid (c :: s).
Proof.
  intros Hc H b. rewrite no_LF_cons in H. apply andb_prop in H. destruct H as [Hlf Hs].
  apply negb_true_iff in Hlf. cbn [scan]. rewrite Hc, Hlf, andb_false_r.
  apply scan_no_LF, Hs.
Qed.

(** The lines of a text in which no line starts with a backtick. *)
Lemma scan_split_lines (s : jsstring) (b : bool) :
  scan b s <> None ->
  match split_lines s with
  | [] => False
  | l :: ls => (b = true -> plain l = true) /\ forallb plain ls = true
  end.
Proof.
  revert b. induction s as [| c t IH]; intros b H.
  - cbn. split; reflexivity.
  - cbn [scan] in H. cbn [split_lines].
    destruct (b && cu_eqb c BACKTICK) eqn:Hb; [contradiction |].
    specialize (IH _ H).
    destruct (split_lines t) as [| l ls]; [contradiction |].
    destruct IH as [Hl Hls].
    destruct (cu_eqb c LF) eqn:Hlf.
    + split; [reflexivity |]. cbn [forallb]. rewrite (Hl eq_refl), Hls. reflexivity.
    + split; [| exact Hls]. intros ->. cbn [andb] in Hb.
      unfold plain. rewrite Hb. reflexivity.
Qed.

Lemma scan_lines_plain (s : jsstring) :
  scan true s <> None -> forallb plain (split_lines s) = true.
Proof.
  intros H. pose proof (scan_split_lines s true H) as Hs.
  destruct (split_lines s) as [| l ls]; [contradiction |].
  destruct Hs as [Hl Hls]. cbn [forallb]. rewrite (Hl eq_refl), Hls. reflexivity.
Qed.

Lemma plain_not_open_fence (l : jsstring) :
  plain l = true -> jsstring_eqb l OPEN_FENCE = false.
Proof.
  intros H. apply jsstring_eqb_neq. intros ->. discriminate H.
Qed.

Lemma plain_not_close_fence (l : jsstring) :
  plain l = true -> jsstring_eqb l CLOSE_FENCE = false.
Proof.
  intros H. apply jsstring_eqb_neq. intros ->. discriminate H.
Qed.

Lemma after_open_fence_plain (ls more : list jsstring) :
  forallb plain ls = true -> after_open_fence (ls ++ more) = after_open_fence more.
Proof.
  induction ls as [| l ls IH]; [reflexivity |].
  cbn [forallb app after_open_fence]. intros H. apply andb_prop in H.
  destruct H as [Hl Hls]. rewrite (plain_not_open_fence l Hl). apply IH, Hls.
Qed.

Lemma until_close_fence_plain (ls following : list jsstring) :
  forallb plain ls = true ->
  until_close_fence (ls ++ CLOSE_FENCE :: following) = Some (ls, following).
Proof.
  induction ls as [| l ls IH]; [reflexivity |].
  cbn [forallb app until_close_fence]. intros H. apply andb_prop in H.
  destruct H as [Hl Hls]. rewrite (plain_not_close_fence l Hl), (IH Hls). reflexivity.
Qed.

Lemma no_open_fence_plain (ls : list jsstring) :
  forallb plain ls = true ->
  forallb (fun l => negb (jsstring_eqb l OPEN_FENCE)) ls = true.
Proof.
  induction ls as [| l ls IH]; [reflexivity |].
  cbn [forallb]. intros H. apply andb_prop in H. destruct H as [Hl Hls].
  rewrite (plain_not_open_fence l Hl), (IH Hls). reflexivity.
Qed.

(** Texts joined by line feeds: no line starts with a backtick when none
    does in any of them. *)
Lemma scan_join_LF (parts : list jsstring) :
  Forall (fun p => scan true p <> None) parts -> scan true (join [LF] parts) <> None.
Proof.
  induction 1 as [| p rest Hp Hrest IH]; [discriminate |].
  destruct rest as [| q rest']; [exact Hp |].
  rewrite join_cons by discriminate. rewrite scan_app.
  destruct (scan true p) as [b |]; [| contradiction].
  cbn [app scan]. change (cu_eqb LF BACKTICK) with false. rewrite andb_false_r.
  exact IH.
Qed.

(** ** No line of the serialized request starts with a backtick *)

Lemma hex_digit_no_LF (n : N) : cu_eqb (hex_digit n) LF = false.
Proof.
  unfold hex_digit, cu_eqb, LF. destruct (n <? 10)%N; apply N.eqb_neq; lia.
Qed.

Lemma unicode_escape_no_LF (c : code_unit) : no_LF (unicode_escape c) = true.
Proof.
  unfold unicode_escape. change (lit "\u") with [92; 117]%N. cbn [app].
  rewrite !no_LF_cons, !hex_digit_no_LF. reflexivity.
Qed.

Lemma quote_body_cons_no_LF (c : code_unit) (t : jsstring) :
  no_LF (quote_body t) = true ->
  match t with d :: t' => no_LF (quote_body t') = true | [] => True end ->
  no_LF (quote_body (c :: t)) = true.
Proof.
  intros Ht Ht'. cbn [quote_body].
  repeat match goal with
         | |- no_LF (if ?b then _ else _) = true =>
             destruct b eqn:?; [rewrite ?no_LF_app, ?unicode_escape_no_LF, ?no_LF_cons, ?Ht;
                                reflexivity |]
         end.
  destruct (is_high_surrogate c) eqn:Hhigh.
  - destruct t as [| d t'].
    + apply unicode_escape_no_LF.
    + destruct (is_low_surrogate d) eqn:Hd.
      * rewrite !no_LF_cons, Ht'.
        destruct (surrogate_bounds d (or_intror Hd)) as (_ & _ & _ & Hd32).
        destruct (surrogate_bounds c (or_introl Hhigh)) as (_ & _ & _ & Hc32).
        apply N.ltb_ge in Hd32, Hc32.
        assert (cu_eqb c LF = false) as -> by (apply N.eqb_neq; unfold LF; lia).
        assert (cu_eqb d LF = false) as -> by (apply N.eqb_neq; unfold LF; lia).
        reflexivity.
      * rewrite no_LF_app, unicode_escape_no_LF, Ht. reflexivity.
  - destruct (is_low_surrogate c).
    + rewrite no_LF_app, unicode_escape_no_LF, Ht. reflexivity.
    + rewrite no_LF_cons, Ht.
      match goal with H : (c =? 10)%N = false |- _ => unfold cu_eqb, LF; rewrite H end.
      reflexivity.
Qed.

Lemma quote_body_no_LF (s : jsstring) : no_LF (quote_body s) = true.
Proof.
  enough (no_LF (quote_body s) = true /\ forall c, no_LF (quote_body (c :: s)) = true)
    as [H _] by exact H.
  induction s as [| d t [IHt IHc]].
  - split; [reflexivity |]. intros c. apply quote_body_cons_no_LF; [reflexivity | exact I].
  - split; [apply IHc |]. intros c. apply quote_body_cons_no_LF; [apply IHc | exact IHt].
Qed.

Lemma QuoteJSONString_solid (s : jsstring) : solid (QuoteJSONString s).
Proof.
  unfold QuoteJSONString. apply solid_no_LF; [reflexivity |].
  rewrite no_LF_cons, no_LF_app, quote_body_no_LF. reflexivity.
Qed.

Lemma sep_solid_join (indent : jsstring) (parts : list jsstring) :
  Forall solid parts -> parts <> [] -> all_ws indent = true ->
  solid (join (sep indent) parts).
Proof.
  intros Hparts. induction Hparts as [| p rest Hp Hrest IH]; [contradiction |].
  intros _ Hind. destruct rest as [| q rest']; [exact Hp |].
  rewrite join_cons by discriminate.
  apply solid_app; [exact Hp |].
  unfold sep. change (lit ",") with [44%N]. cbn [app].
  apply solid_cons; [reflexivity | reflexivity |].
  change (LF :: indent ++ ?x) with ((LF :: indent) ++ x).
  apply solid_after_ws; [apply all_ws_LF_indent, Hind |].
  apply IH; [discriminate | exact Hind].
Qed.

Lemma closing_solid (indent : jsstring) (c : code_unit) :
  all_ws indent = true -> cu_eqb c BACKTICK = false -> cu_eqb c LF = false ->
  solid (LF :: indent ++ [c]).
Proof.
  intros Hind Hc Hlf. change (LF :: indent ++ [c]) with ((LF :: indent) ++ [c]).
  apply solid_after_ws; [apply all_ws_LF_indent, Hind | apply solid_one; assumption].
Qed.

Lemma Ser_solid (v : json) :
  round_trippable v = true -> forall indent, all_ws indent = true -> solid (Ser indent v).
Proof.
  induction v as [| b | z | s | items IH | props IH] using json_induction;
    intros Hrt indent Hind.
  - apply solid_no_LF; reflexivity.
  - destruct b; apply solid_no_LF; reflexivity.
  - discriminate Hrt.
  - apply QuoteJSONString_solid.
  - destruct items as [| x items]; [apply solid_no_LF; reflexivity |].
    cbn [round_trippable] in Hrt.
    pose proof (all_ws_indent_gap2 indent Hind) as Hind'.
    rewrite <- (app_nil_r (Ser indent (JArr (x :: items)))), Ser_array_app.
    apply solid_cons; [reflexivity | reflexivity |].
    apply solid_after_ws; [apply all_ws_LF_indent, Hind' |].
    apply solid_app; [| apply closing_solid; [exact Hind | reflexivity | reflexivity]].
    apply sep_solid_join; [| discriminate | exact Hind'].
    rewrite Forall_forall in IH. apply Forall_forall. intros p Hp.
    apply in_map_iff in Hp. destruct Hp as (y & <- & Hy).
    apply IH; [exact Hy | | exact Hind'].
    rewrite forallb_forall in Hrt. apply Hrt, Hy.
  - destruct props as [| kv props]; [apply solid_no_LF; reflexivity |].
    cbn [round_trippable] in Hrt. apply andb_prop in Hrt. destruct Hrt as [_ Hrt].
    pose proof (all_ws_indent_gap2 indent Hind) as Hind'.
    rewrite <- (app_nil_r (Ser indent (JObj (kv :: props)))), Ser_object_app.
    apply solid_cons; [reflexivity | reflexivity |].
    apply solid_after_ws; [apply all_ws_LF_indent, Hind' |].
    apply solid_app; [| apply closing_solid; [exact Hind | reflexivity | reflexivity]].
    apply sep_solid_join; [| discriminate | exact Hind'].
    rewrite Forall_forall in IH. apply Forall_forall. intros p Hp.
    apply in_map_iff in Hp. destruct Hp as (y & <- & Hy).
    unfold member_text, member, gap2. apply solid_app; [apply QuoteJSONString_solid |].
    change (lit ":") with [58%N]. cbn [app].
    apply solid_cons; [reflexivity | reflexivity |].
    apply solid_cons; [reflexivity | reflexivity |].
    apply IH; [exact Hy | | exact Hind'].
    rewrite forallb_forall in Hrt. apply Hrt, Hy.
Qed.

(** ** No line of the document starts with a backtick *)

(** No line of the text starts with a backtick. *)
Definition fence_free (text : jsstring) : Prop := scan true text <> None.

Lemma fence_free_line (label : string) (s : jsstring) :
  no_LF (lit label) = true -> plain (lit label ++ s) = true -> no_LF s = true ->
  fence_free (lit label ++ s).
Proof.
  intros Hlabel Hplain Hs. apply scan_plain_line; [| exact Hplain].
  rewrite no_LF_app, Hlabel, Hs. reflexivity.
Qed.

Lemma header_line_fence_free (label : string) (value : option jsstring) :
  no_LF (lit label) = true -> (forall s, plain (lit label ++ s) = true) ->
  Forall fence_free (header_line label value).
Proof.
  intros Hlabel Hplain. unfold header_line.
  destruct value as [v |]; [| constructor].
  destruct (truthy (Some v)); [| constructor].
  constructor; [| constructor].
  apply fence_free_line; [exact Hlabel | apply Hplain | apply clean_no_LF].
Qed.

Lemma format_with_fence_free {T : Type} (line : T -> jsstring) (items : list T) :
  (forall x, no_LF (line x) = true) -> (forall x, plain (line x) = true) ->
  fence_free (format_with line items).
Proof.
  intros Hlf Hplain. unfold format_with.
  destruct items as [| x rest]; [discriminate |].
  apply scan_join_LF.
  assert (forall l : list T, Forall (fun p => scan true p <> None) (List.map line l)) as Hmap.
  { induction l as [| y l IH]; constructor; [| exact IH].
    apply scan_plain_line; [apply Hlf | apply Hplain]. }
  unfold push_more. destruct (snd (limitItems (x :: rest))); [apply Hmap |].
  apply Forall_app. split; [apply Hmap |].
  constructor; [| constructor].
  apply scan_plain_line; [apply more_line_no_LF | reflexivity].
Qed.

Lemma body_lines_fence_free (input : SummarizeInput) :
  Forall fence_free (body_lines input).
Proof.
  unfold body_lines.
  repeat (apply Forall_app; split);
    repeat match goal with
           | |- Forall _ (_ :: _) => constructor
           | |- Forall _ [] => constructor
           | |- Forall _ (if ?b then _ else _) => destruct b
           | |- Forall _ (header_line _ _) =>
               apply header_line_fence_free; [reflexivity | reflexivity]
           | |- fence_free (lit _ ++ clean _) =>
               apply fence_free_line; [reflexivity | reflexivity | apply clean_no_LF]
           | |- fence_free (formatList _) =>
               apply (format_with_fence_free key_point_line);
               [apply key_point_line_no_LF | reflexivity]
           | |- fence_free (formatRisks _) =>
               apply (format_with_fence_free risk_line);
               [apply risk_line_no_LF | reflexivity]
           | |- fence_free (formatQuestions _) =>
               apply (format_with_fence_free question_line);
               [apply question_line_no_LF | reflexivity]
           | |- fence_free (formatNextSteps _) =>
               apply (format_with_fence_free next_step_line);
               [apply next_step_line_no_LF | reflexivity]
           | |- fence_free (formatStakeholders _) =>
               apply (format_with_fence_free stakeholder_line);
               [apply stakeholder_line_no_LF | reflexivity]
           | |- fence_free _ => discriminate
           end.
Qed.

(* ================================================================== *)
(** * The structured payload of a rendered summary *)
(* ================================================================== *)

Lemma join_app (separator : jsstring) (xs ys : list jsstring) :
  xs <> [] -> ys <> [] ->
  join separator (xs ++ ys) = join separator xs ++ separator ++ join separator ys.
Proof.
  intros Hxs Hys. induction xs as [| x xs IH]; [contradiction |].
  destruct xs as [| x' xs'].
  - cbn [app]. apply join_cons, Hys.
  - change ((x :: x' :: xs') ++ ys) with (x :: ((x' :: xs') ++ ys)).
    rewrite join_cons by discriminate.
    rewrite IH by discriminate.
    rewrite (join_cons separator x (x' :: xs')) by discriminate.
    rewrite <- !app_assoc. reflexivity.
Qed.

Lemma body_lines_nonempty (input : SummarizeInput) : body_lines input <> [].
Proof. discriminate. Qed.

Lemma body_fence_free (input : SummarizeInput) :
  forallb plain (split_lines (join [LF] (body_lines input))) = true.
Proof. apply scan_lines_plain, scan_join_LF, body_lines_fence_free. Qed.

(** The lines of a document followed by a payload block. *)
Lemma split_lines_with_payload (body payload : jsstring) :
  split_lines
    (body ++ [LF]
       ++ join [LF] [[]; lit "### Structured Payload (for ETL)"; OPEN_FENCE; payload;
                     CLOSE_FENCE])
  = split_lines body
      ++ [] :: lit "### Structured Payload (for ETL)" :: OPEN_FENCE
      :: split_lines payload ++ [CLOSE_FENCE].
Proof.
  cbn [join]. change ([LF] ++ ?x) with (LF :: x). cbn [app].
  rewrite split_lines_app. f_equal.
  change (LF :: ?h ++ LF :: ?x) with ([] ++ LF :: h ++ LF :: x).
  rewrite split_lines_app. change (split_lines []) with [@nil code_unit].
  cbn [app]. f_equal.
  rewrite split_lines_app. f_equal.
  rewrite split_lines_app. f_equal.
  rewrite split_lines_app. reflexivity.
Qed.

(** The payload block of a summary whose format is not [exec_bullets]. *)
Lemma payload_block (input : SummarizeInput) :
  output_format input <> exec_bullets ->
  fenced_json_block (formatSummary input)
  = Some (JSON_stringify2 (SummarizeInput_json input), []).
Proof.
  intros Hformat. unfold formatSummary, summary_lines.
  assert (payload_lines input
          = [[]; lit "### Structured Payload (for ETL)"; OPEN_FENCE;
             JSON_stringify2 (SummarizeInput_json input); CLOSE_FENCE]) as ->.
  { unfold payload_lines. destruct (output_format input); [contradiction | |]; reflexivity. }
  rewrite join_app by (try apply body_lines_nonempty; discriminate).
  unfold fenced_json_block. rewrite split_lines_with_payload.
  rewrite after_open_fence_plain by apply body_fence_free.
  cbn [after_open_fence].
  change (jsstring_eqb [] OPEN_FENCE) with false.
  change (jsstring_eqb (lit "### Structured Payload (for ETL)") OPEN_FENCE) with false.
  rewrite jsstring_eqb_refl. cbv iota.
  rewrite until_close_fence_plain, join_split_lines; [reflexivity |].
  apply scan_lines_plain. unfold JSON_stringify2. fold gap2. fold (Ser [] (SummarizeInput_json input)).
  rewrite (Ser_solid _ (SummarizeInput_json_round_trippable input) [] eq_refl true).
  discriminate.
Qed.

(** C4. For every request whose output format is [se_deal_update] or
    [memo], the formatter's output ends with a fenced JSON block (the first
    line "```json" of the output opens it, the last line of the output is
    the "```" that closes it) whose content, parsed as JSON, is the request;
    for every request whose output format is [exec_bullets], no line of the
    output is a fence, so the output holds no fenced JSON block. *)
Theorem fenced_block_round_trip (input : SummarizeInput) :
  match output_format input with
  | exec_bullets =>
      fenced_json_block (formatSummary input) = None
      /\ forallb (fun l => negb (jsstring_eqb l OPEN_FENCE))
                 (split_lines (formatSummary input)) = true
  | se_deal_update | memo =>
      exists block,
        fenced_json_block (formatSummary input) = Some (block, [])
        /\ JSON_parse block = Some (SummarizeInput_json input)
  end.
Proof.
  destruct (output_format input) eqn:Hformat.
  - assert (formatSummary input = join [LF] (body_lines input)) as ->.
    { unfold formatSummary, summary_lines, payload_lines.
      rewrite Hformat, app_nil_r. reflexivity. }
    pose proof (body_fence_free input) as Hplain. split.
    + unfold fenced_json_block.
      rewrite <- (app_nil_r (split_lines _)), after_open_fence_plain by exact Hplain.
      reflexivity.
    + apply no_open_fence_plain, Hplain.
  - exists (JSON_stringify2 (SummarizeInput_json input)). split.
    + apply payload_block. rewrite Hformat. discriminate.
    + apply JSON_parse_stringify2, SummarizeInput_json_round_trippable.
  - exists (JSON_stringify2 (SummarizeInput_json input)). split.
    + apply payload_block. rewrite Hformat. discriminate.
    + apply JSON_parse_stringify2, SummarizeInput_json_round_trippable.
Qed.

(* ================================================================== *)
(** * Scenarios *)
(* ================================================================== *)

(** Ten key points: the first eight, then the overflow line. *)
Example ten_key_points :
  split_lines (formatList (repeat (lit "point") 10))
  = repeat (lit "- point") 8 ++ [lit "- ... (+2 more)"].
Proof. vm_compute. reflexivity. Qed.

(** White space inside an item, line feeds included, is collapsed. *)
Example key_point_on_one_line :
  formatList [[32; 97; 10; 10; 98; 9]%N] = lit "- a b".
Proof. vm_compute. reflexivity. Qed.

(** The date pattern. *)
Example last_updated_pattern :
  date_regex_test (lit "2025-02-14") = true
  /\ date_regex_test (lit "02/14/2025") = false
  /\ date_regex_test (lit "2025-2-14") = false.
Proof. repeat split. Qed.

(** A batch of one [initialized] notification and one [tools/list] request
    is answered by the one result. *)
Example batch_of_notification_and_request :
  result_of
    (POST (inr (JArr [JObj [(lit "jsonrpc", str "2.0"); (lit "method", str "initialized")];
                      JObj [(lit "jsonrpc", str "2.0"); (lit "id", JNum 1);
                            (lit "method", str "tools/list")]])))
    env_unconfigured
  = jsonResponse
      (JArr [makeResult (JNum 1) (JObj [(lit "tools", JArr TOOL_DEFS)])]) 200.
Proof. vm_compute. reflexivity. Qed.

(** An envelope with [jsonrpc: "1.0"] is an invalid request. *)
Example wrong_protocol_version :
  result_of
    (handleMessage (JObj [(lit "jsonrpc", str "1.0"); (lit "id", JNum 1);
                          (lit "method", str "tools/list")]))
    env_unconfigured
  = Some (makeError (JNum 1) (-32600) "Invalid Request"
            (Some (str "Missing jsonrpc: '2.0'."))).
Proof. reflexivity. Qed.

(** Without webhook configuration a valid call reports the failed push. *)
Example push_without_configuration :
  result_of (handleMessage (JObj call_renewal)) env_unconfigured
  = Some (makeResult (JNum 2)
            (toolResult
               (lit "Doc push: failed" ++ [LF]
                  ++ lit "DOC_WEBHOOK_URL / DOC_WEBHOOK_TOKEN not configured.")
               true)).
Proof. vm_compute. reflexivity. Qed.

(** A sink that answers the POST with a redirect: the push succeeded, after
    one call of [fetch]. *)
Example redirect_is_success :
  let env := mkEnv None (Some (lit "https://sink.example/exec")) (Some (lit "secret"))
                   (fun _ => FetchResponse 302 None) 12 (lit "2025-02-14T09:00:00.000Z") in
  result_of (pushSummaryToDocWebhook (lit "Q3 review") (lit "## Deal Summary")) env = PushOk
  /\ List.length (fetches (pushSummaryToDocWebhook (lit "Q3 review") (lit "## Deal Summary")) env)
     = 1.
Proof. split; reflexivity. Qed.

(** The payload of a memo is read back from the rendered text. *)
Example memo_payload_is_read_back :
  let memo_request :=
    mkSummarizeInput (Some (lit "D-123")) None None
      (mkContext (lit "Renewal in negotiation") [[96; 96; 96]%N; [55357; 56832; 10; 34]%N]
                 [] [NextStep.mk (lit "Send quote") None None open] [] [] [] None)
      memo None in
  match fenced_json_block (formatSummary memo_request) with
  | Some (block, []) => JSON_parse block
  | _ => None
  end = Some (SummarizeInput_json memo_request).
Proof. vm_compute. reflexivity. Qed.

(* ================================================================== *)
(** * More on the formatter: [clean] and [limitItems] *)
(* ================================================================== *)

(** A text in which every white-space code unit is a single space standing
    between two other code units; [after_space] says that the text follows a
    space (or starts the whole text). *)
Fixpoint single_spaced (after_space : bool) (s : jsstring) : bool :=
  match s with
  | [] => true
  | c :: t =>
      if is_space c then cu_eqb c SPACE && negb after_space && single_spaced true t
      else single_spaced false t
  end.

(** The last code unit, if any, is not white space. *)
Definition no_trailing_space (s : jsstring) : bool :=
  match rev s with
  | c :: _ => negb (is_space c)
  | [] => true
  end.

(** A text as [clean] leaves it: single spaces only, none at either end. *)
Definition is_clean (s : jsstring) : bool := single_spaced true s && no_trailing_space s.

Lemma replace_ws_single_spaced (s : jsstring) (b : bool) :
  single_spaced b (replace_ws b s) = true.
Proof.
  revert b. induction s as [| c t IH]; intros b; [reflexivity |].
  cbn [replace_ws]. destruct (is_space c) eqn:Hc.
  - destruct b; [apply IH |].
    cbn [single_spaced]. change (is_space SPACE) with true. cbv iota.
    rewrite IH. reflexivity.
  - cbn [single_spaced]. rewrite Hc. apply IH.
Qed.

Lemma trimStart_single_spaced (s : jsstring) (b : bool) :
  single_spaced b s = true -> single_spaced true (trimStart s) = true.
Proof.
  revert b. induction s as [| c t IH]; intros b H; [reflexivity |].
  cbn [trimStart]. cbn [single_spaced] in H. destruct (is_space c) eqn:Hc.
  - apply andb_prop in H. destruct H as [_ H]. exact (IH true H).
  - cbn [single_spaced]. rewrite Hc. exact H.
Qed.

(** [trimStart] removes a run of white space from the front. *)
Lemma trimStart_split (s : jsstring) :
  exists w, s = w ++ trimStart s /\ forallb is_space w = true.
Proof.
  induction s as [| c t (w & Hw & Hspace)]; [exists []; split; reflexivity |].
  cbn [trimStart]. destruct (is_space c) eqn:Hc.
  - exists (c :: w). split; [cbn [app]; rewrite <- Hw; reflexivity |].
    cbn [forallb]. rewrite Hc, Hspace. reflexivity.
  - exists []. split; reflexivity.
Qed.

Lemma trimStart_head (s : jsstring) :
  match trimStart s with
  | c :: _ => is_space c = false
  | [] => True
  end.
Proof.
  induction s as [| c t IH]; [exact I |].
  cbn [trimStart]. destruct (is_space c) eqn:Hc; [exact IH | exact Hc].
Qed.

(** [trimEnd] removes a run of white space from the back. *)
Lemma trimEnd_split (s : jsstring) :
  exists w, s = trimEnd s ++ w /\ forallb is_space w = true.
Proof.
  destruct (trimStart_split (rev s)) as (w & Hw & Hspace).
  exists (rev w). split.
  - unfold trimEnd. rewrite <- rev_app_distr, <- Hw, rev_involutive. reflexivity.
  - rewrite forallb_forall in *. intros c Hc. apply Hspace, in_rev, Hc.
Qed.

Lemma single_spaced_prefix (x y : jsstring) (b : bool) :
  single_spaced b (x ++ y) = true -> single_spaced b x = true.
Proof.
  revert b. induction x as [| c t IH]; intros b H; [reflexivity |].
  cbn [app single_spaced] in *. destruct (is_space c).
  - apply andb_prop in H. destruct H as [H1 H2]. rewrite H1, (IH _ H2). reflexivity.
  - exact (IH _ H).
Qed.

Lemma trimEnd_no_trailing_space (s : jsstring) : no_trailing_space (trimEnd s) = true.
Proof.
  unfold no_trailing_space, trimEnd. rewrite rev_involutive.
  pose proof (trimStart_head (rev s)) as H.
  destruct (trimStart (rev s)) as [| c t]; [reflexivity |]. rewrite H. reflexivity.
Qed.

Lemma clean_is_clean (text : jsstring) : is_clean (clean text) = true.
Proof.
  unfold is_clean, clean, trim. rewrite trimEnd_no_trailing_space, andb_true_r.
  destruct (trimEnd_split (trimStart (replace_ws false text))) as (w & Hw & _).
  apply single_spaced_prefix with (y := w). rewrite <- Hw.
  apply trimStart_single_spaced with (b := false), replace_ws_single_spaced.
Qed.

Lemma single_spaced_replace_ws (s : jsstring) (b : bool) :
  single_spaced b s = true -> replace_ws b s = s.
Proof.
  revert b. induction s as [| c t IH]; intros b H; [reflexivity |].
  cbn [single_spaced] in H. cbn [replace_ws]. destruct (is_space c).
  - apply andb_prop in H. destruct H as [H Ht]. apply andb_prop in H.
    destruct H as [Hc Hb]. apply negb_true_iff in Hb. subst b.
    apply N.eqb_eq in Hc. subst c. rewrite (IH true Ht). reflexivity.
  - rewrite (IH false H). reflexivity.
Qed.

Lemma single_spaced_weaken (s : jsstring) :
  single_spaced true s = true -> single_spaced false s = true.
Proof.
  destruct s as [| c t]; [reflexivity |]. cbn [single_spaced].
  destruct (is_space c); [| trivial].
  rewrite andb_false_r. discriminate.
Qed.

Lemma single_spaced_trimStart (s : jsstring) :
  single_spaced true s = true -> trimStart s = s.
Proof.
  destruct s as [| c t]; [reflexivity |]. cbn [single_spaced trimStart].
  destruct (is_space c); [| reflexivity].
  rewrite andb_false_r. discriminate.
Qed.

Lemma no_trailing_space_trimEnd (s : jsstring) :
  no_trailing_space s = true -> trimEnd s = s.
Proof.
  unfold no_trailing_space, trimEnd. intros H.
  destruct (rev s) as [| c t] eqn:Hrev.
  - cbn. apply (f_equal (@rev code_unit)) in Hrev. rewrite rev_involutive in Hrev.
    symmetry. exact Hrev.
  - cbn [trimStart]. apply negb_true_iff in H. rewrite H, <- Hrev.
    apply rev_involutive.
Qed.

Lemma is_clean_fixed (s : jsstring) : is_clean s = true -> clean s = s.
Proof.
  unfold is_clean, clean, trim. intros H. apply andb_prop in H. destruct H as [Hs Ht].
  rewrite (single_spaced_replace_ws s false (single_spaced_weaken s Hs)).
  rewrite (single_spaced_trimStart s Hs). apply no_trailing_space_trimEnd, Ht.
Qed.

Lemma single_spaced_spaces (s : jsstring) (b : bool) :
  single_spaced b s = true -> forall c, In c s -> is_space c = true -> c = SPACE.
Proof.
  revert b. induction s as [| d t IH]; intros b Hs c Hin Hc; [destruct Hin |].
  cbn [single_spaced] in Hs. destruct Hin as [-> | Hin].
  - rewrite Hc in Hs. apply andb_prop in Hs. destruct Hs as [Hs _].
    apply andb_prop in Hs. destruct Hs as [Hs _]. apply N.eqb_eq in Hs. exact Hs.
  - destruct (is_space d).
    + apply andb_prop in Hs. destruct Hs as [_ Hs]. exact (IH _ Hs c Hin Hc).
    + exact (IH _ Hs c Hin Hc).
Qed.

(** X1. Whatever the text, [clean] returns a text in which the only
    white-space code units are single spaces (no tab, line break or other
    Unicode space survives, and no two spaces are adjacent), and which neither
    starts nor ends with white space. *)
Theorem clean_normal_form (text : jsstring) :
  single_spaced true (clean text) = true
  /\ no_trailing_space (clean text) = true
  /\ (forall c, In c (clean text) -> is_space c = true -> c = SPACE).
Proof.
  pose proof (clean_is_clean text) as H. unfold is_clean in H.
  apply andb_prop in H. destruct H as [Hs Ht]. repeat split; try assumption.
  apply (single_spaced_spaces (clean text) true Hs).
Qed.

(** X2. [clean] is idempotent, and it leaves alone exactly the texts that
    are already clean. *)
Theorem clean_idempotent (text : jsstring) :
  clean (clean text) = clean text
  /\ (clean text = text <-> is_clean text = true).
Proof.
  split; [apply is_clean_fixed, clean_is_clean |]. split.
  - intros <-. apply clean_is_clean.
  - apply is_clean_fixed.
Qed.

(** X3. [limitItems] keeps the first [MAX_ITEMS] = 8 items in order and
    counts the rest: the items kept followed by the items dropped are the
    input, at most 8 are kept, the count is the number dropped, and it is 0
    exactly when the input has at most 8 items (and then all are kept). *)
Theorem limitItems_partition {T : Type} (items : list T) :
  let kept := fst (limitItems items) in
  let remaining := snd (limitItems items) in
  kept = firstn 8 items
  /\ kept ++ skipn 8 items = items
  /\ List.length kept <= 8
  /\ remaining = List.length (skipn 8 items)
  /\ List.length kept + remaining = List.length items
  /\ (remaining = 0 <-> List.length items <= 8)
  /\ (remaining = 0 -> kept = items).
Proof.
  intros kept remaining. subst kept remaining.
  destruct (Nat.le_gt_cases (List.length items) MAX_ITEMS) as [Hle | Hgt].
  - rewrite (limitItems_le items Hle). cbn [fst snd]. unfold MAX_ITEMS in Hle.
    rewrite (firstn_all2 items Hle), (skipn_all2 items Hle), app_nil_r.
    cbn [List.length]. repeat split; try lia; reflexivity.
  - rewrite (limitItems_gt items Hgt). cbn [fst snd]. unfold MAX_ITEMS in *.
    rewrite firstn_skipn, length_skipn, length_firstn.
    repeat split; try lia.
Qed.

(* ================================================================== *)
(** * More on the formatter: the lines of the document *)
(* ================================================================== *)

(** The order in which [formatSummary] renders the list sections. *)
Definition RENDER_ORDER : list ListSection :=
  [KeyPoints; Risks; OpenQuestions; NextSteps; Stakeholders].

Definition section_heading (k : ListSection) : jsstring :=
  match k with
  | KeyPoints => lit "## Key Points"
  | Risks => lit "## Risks"
  | OpenQuestions => lit "## Open Questions"
  | NextSteps => lit "## Next Steps"
  | Stakeholders => lit "## Stakeholders"
  end.

(** The lines [formatSummary] pushes before the first list section. *)
Definition header_lines (input : SummarizeInput) : list jsstring :=
  [lit "## Deal Summary";
   lit "- Deal: "
     ++ clean (nullish (deal_name input) (nullish (deal_id input) (lit "Unspecified")));
   lit "- Summary: " ++ clean (summary (context input))]
  ++ (if truthy (deal_name input) && truthy (deal_id input)
      then header_line "- Deal ID: " (deal_id input) else [])
  ++ header_line "- Source Canvas: " (source_canvas_name input)
  ++ header_line "- Last Updated: " (last_updated (context input)).

(** A line that starts with a hash sign: a Markdown heading. *)
Definition is_heading (l : jsstring) : bool :=
  match l with
  | c :: _ => cu_eqb c 35%N
  | [] => false
  end.

(** A line that starts with "- ": a list item. *)
Definition is_item (l : jsstring) : bool := startsWith l (lit "- ").

Lemma split_lines_join_concat (parts : list jsstring) :
  parts <> [] ->
  split_lines (join [LF] parts) = List.concat (List.map split_lines parts).
Proof.
  induction parts as [| p rest IH]; [contradiction |]. intros _.
  destruct rest as [| q rest'].
  - cbn [join List.map List.concat]. rewrite app_nil_r. reflexivity.
  - rewrite join_cons by discriminate.
    change (p ++ [LF] ++ join [LF] (q :: rest')) with (p ++ LF :: join [LF] (q :: rest')).
    rewrite split_lines_app, IH by discriminate. reflexivity.
Qed.

Lemma concat_split_lines_single (ls : list jsstring) :
  forallb no_LF ls = true -> List.concat (List.map split_lines ls) = ls.
Proof.
  induction ls as [| l ls IH]; [reflexivity |].
  cbn [forallb List.map List.concat]. intros H. apply andb_prop in H.
  destruct H as [Hl Hls]. rewrite (split_lines_one l Hl), (IH Hls). reflexivity.
Qed.

Lemma header_line_no_LF (label : string) (value : option jsstring) :
  no_LF (lit label) = true -> forallb no_LF (header_line label value) = true.
Proof. intros H. apply (meta_entry_no_LF label value H). Qed.

Lemma header_lines_no_LF (input : SummarizeInput) :
  forallb no_LF (header_lines input) = true.
Proof.
  unfold header_lines. rewrite !forallb_app, !header_line_no_LF by reflexivity.
  cbn [forallb]. rewrite !no_LF_app, !clean_no_LF.
  destruct (truthy (deal_name input) && truthy (deal_id input));
    [rewrite header_line_no_LF by reflexivity |]; reflexivity.
Qed.

Lemma header_line_length (label : string) (value : option jsstring) :
  List.length (header_line label value) <= 1.
Proof.
  unfold header_line. destruct value as [v |]; [| cbn; lia].
  destruct (truthy (Some v)); cbn; lia.
Qed.

Lemma header_line_items (label : string) (value : option jsstring) :
  (forall s, is_item (lit label ++ s) = true) ->
  forallb is_item (header_line label value) = true.
Proof.
  intros H. unfold header_line. destruct value as [v |]; [| reflexivity].
  destruct (truthy (Some v)); [| reflexivity]. cbn [forallb]. rewrite H. reflexivity.
Qed.

(** The lines of a section are list items. *)
Lemma format_with_items {T : Type} (line : T -> jsstring) (items : list T) :
  (forall x, no_LF (line x) = true) -> (forall x, is_item (line x) = true) ->
  forallb is_item (split_lines (format_with line items)) = true.
Proof.
  intros Hlf Hitem. unfold format_with. destruct items as [| x rest]; [reflexivity |].
  assert (forall l : list T, forallb is_item (List.map line l) = true) as Hmap.
  { induction l as [| y l IH]; [reflexivity |]. cbn [List.map forallb].
    rewrite Hitem, IH. reflexivity. }
  unfold push_more. destruct (snd (limitItems (x :: rest))) as [| k] eqn:Hrem.
  - rewrite split_lines_join.
    + apply Hmap.
    + destruct (Nat.le_gt_cases (List.length (x :: rest)) MAX_ITEMS) as [Hle | Hgt].
      * rewrite (limitItems_le _ Hle). discriminate.
      * rewrite (limitItems_gt _ Hgt) in Hrem. cbn [snd] in Hrem. lia.
    + apply forallb_no_LF_map, Hlf.
  - rewrite split_lines_join.
    + rewrite forallb_app, Hmap. reflexivity.
    + intros Heq. apply app_eq_nil in Heq. destruct Heq as [_ Heq]. discriminate.
    + rewrite forallb_app, (forallb_no_LF_map _ _ Hlf). cbn [forallb].
      rewrite more_line_no_LF. reflexivity.
Qed.

Lemma section_text_items (k : ListSection) (c : Context) :
  forallb is_item (split_lines (section_text k c)) = true.
Proof.
  destruct k; cbn [section_text].
  - apply (format_with_items key_point_line); [apply key_point_line_no_LF | reflexivity].
  - apply (format_with_items question_line); [apply question_line_no_LF | reflexivity].
  - apply (format_with_items next_step_line); [apply next_step_line_no_LF | reflexivity].
  - apply (format_with_items risk_line); [apply risk_line_no_LF | reflexivity].
  - apply (format_with_items stakeholder_line);
      [apply stakeholder_line_no_LF | reflexivity].
Qed.

(** The lines of the document: the header, then the sections. *)
Lemma body_split_lines (input : SummarizeInput) :
  split_lines (join [LF] (body_lines input))
  = header_lines input
      ++ flat_map (fun k => [[]; section_heading k]
                              ++ split_lines (section_text k (context input)))
                  RENDER_ORDER.
Proof.
  rewrite split_lines_join_concat by apply body_lines_nonempty.
  assert (body_lines input
          = header_lines input
              ++ flat_map (fun k => [[]; section_heading k; section_text k (context input)])
                          RENDER_ORDER) as ->.
  { unfold body_lines, header_lines. cbn [flat_map RENDER_ORDER section_text section_heading].
    rewrite <- !app_assoc. reflexivity. }
  rewrite map_app, concat_app, (concat_split_lines_single _ (header_lines_no_LF input)).
  f_equal.
Qed.

Lemma filter_heading_items (ls : list jsstring) :
  forallb is_item ls = true -> filter is_heading ls = [].
Proof.
  induction ls as [| l ls IH]; [reflexivity |].
  cbn [forallb filter]. intros H. apply andb_prop in H. destruct H as [Hl Hls].
  rewrite (IH Hls). destruct l as [| c t]; [reflexivity |].
  cbn [is_heading]. unfold is_item in Hl. cbn [startsWith lit list_ascii_of_string List.map] in Hl.
  apply andb_prop in Hl. destruct Hl as [Hc _]. unfold cu_eqb in *.
  apply N.eqb_eq in Hc. subst c. reflexivity.
Qed.

Lemma filter_flat_map_sections {A : Type} (p : jsstring -> bool)
      (f : A -> list jsstring) (l : list A) :
  filter p (flat_map f l) = flat_map (fun x => filter p (f x)) l.
Proof.
  induction l as [| x l IH]; [reflexivity |].
  cbn [flat_map]. rewrite filter_app, IH. reflexivity.
Qed.

Lemma forallb_flat_map_sections {A : Type} (p : jsstring -> bool)
      (f : A -> list jsstring) (l : list A) :
  (forall x, forallb p (f x) = true) -> forallb p (flat_map f l) = true.
Proof.
  intros H. induction l as [| x l IH]; [reflexivity |].
  cbn [flat_map]. rewrite forallb_app, H, IH. reflexivity.
Qed.

Lemma section_headings_only (c : Context) (k : ListSection) :
  filter is_heading ([[]; section_heading k] ++ split_lines (section_text k c))
  = [section_heading k].
Proof.
  cbn [app filter]. change (is_heading []) with false. cbv iota.
  rewrite (filter_heading_items _ (section_text_items k c)).
  destruct k; reflexivity.
Qed.

Lemma items_are_document_lines (ls : list jsstring) :
  forallb is_item ls = true ->
  forallb (fun l => is_heading l || is_item l || Nat.eqb (List.length l) 0) ls = true.
Proof.
  induction ls as [| l ls IH]; [reflexivity |]. cbn [forallb]. intros H.
  apply andb_prop in H. destruct H as [Hl Hls].
  rewrite Hl, (IH Hls), orb_true_r. reflexivity.
Qed.

Lemma section_document_lines (c : Context) (k : ListSection) :
  forallb (fun l => is_heading l || is_item l || Nat.eqb (List.length l) 0)
          ([[]; section_heading k] ++ split_lines (section_text k c)) = true.
Proof.
  cbn [app forallb]. rewrite (items_are_document_lines _ (section_text_items k c)).
  destruct k; reflexivity.
Qed.

(** X4. The lines of an [exec_bullets] summary are the header lines (the
    heading "## Deal Summary", the deal line, the summary line and up to three
    optional lines) followed by the five list sections in the fixed order
    Key Points, Risks, Open Questions, Next Steps, Stakeholders, each made
    of an empty line, its heading and its rendered lines. No text of the
    request can add a heading: the heading lines of the output are exactly the
    six fixed ones, and every other line is empty or a list item. *)
Theorem exec_bullets_document_lines (input : SummarizeInput) :
  output_format input = exec_bullets ->
  split_lines (formatSummary input)
  = header_lines input
      ++ flat_map (fun k => [[]; section_heading k]
                              ++ split_lines (section_text k (context input)))
                  RENDER_ORDER
  /\ 3 <= List.length (header_lines input) <= 6
  /\ filter is_heading (split_lines (formatSummary input))
     = lit "## Deal Summary" :: List.map section_heading RENDER_ORDER
  /\ forallb (fun l => is_heading l || is_item l || Nat.eqb (List.length l) 0)
             (split_lines (formatSummary input)) = true.
Proof.
  intros Hformat.
  assert (formatSummary input = join [LF] (body_lines input)) as ->.
  { unfold formatSummary, summary_lines, payload_lines.
    rewrite Hformat, app_nil_r. reflexivity. }
  rewrite body_split_lines.
  assert (forallb is_item (tl (header_lines input)) = true) as Hitems.
  { unfold header_lines. cbn [app tl forallb].
    change (is_item (lit "- Deal: " ++ ?x)) with true.
    change (is_item (lit "- Summary: " ++ ?x)) with true.
    cbn [andb]. rewrite !forallb_app.
    rewrite !header_line_items by reflexivity.
    destruct (truthy (deal_name input) && truthy (deal_id input));
      [rewrite header_line_items by reflexivity |]; reflexivity. }
  split; [reflexivity | split; [| split]].
  - unfold header_lines. rewrite !length_app. cbn [List.length].
    pose proof (header_line_length "- Source Canvas: " (source_canvas_name input)).
    pose proof (header_line_length "- Last Updated: " (last_updated (context input))).
    pose proof (header_line_length "- Deal ID: " (deal_id input)).
    destruct (truthy (deal_name input) && truthy (deal_id input)); cbn [List.length]; lia.
  - rewrite filter_app.
    assert (header_lines input = lit "## Deal Summary" :: tl (header_lines input)) as ->
        by reflexivity.
    cbn [filter]. change (is_heading (lit "## Deal Summary")) with true. cbv iota.
    rewrite (filter_heading_items _ Hitems), filter_flat_map_sections.
    rewrite (flat_map_ext _ _ (section_headings_only (context input))).
    reflexivity.
  - rewrite forallb_app.
    assert (header_lines input = lit "## Deal Summary" :: tl (header_lines input)) as ->
        by reflexivity.
    cbn [forallb]. change (is_heading (lit "## Deal Summary")) with true.
    cbn [orb andb].
    rewrite (items_are_document_lines _ Hitems). cbn [andb].
    apply forallb_flat_map_sections, section_document_lines.
Qed.

Lemma exec_bullets_document_lines_witness :
  filter is_heading (split_lines (formatSummary renewal))
  = lit "## Deal Summary" :: List.map section_heading RENDER_ORDER.
Proof.
  pose proof (exec_bullets_document_lines renewal eq_refl) as (_ & _ & H & _).
  exact H.
Defined.



(* ================================================================== *)
(** * More on the validator: what it returns *)
(* ================================================================== *)

Definition nonempty (s : jsstring) : bool := negb (Nat.eqb (List.length s) 0).

Definition opt_valid (P : jsstring -> bool) (o : option jsstring) : bool :=
  match o with
  | Some s => P s
  | None => true
  end.

Definition valid_OpenQuestion (q : OpenQuestion.t) : bool :=
  nonempty (OpenQuestion.question q)
  && opt_valid nonempty (OpenQuestion.owner q)
  && opt_valid nonempty (OpenQuestion.due q).

Definition valid_NextStep (s : NextStep.t) : bool :=
  nonempty (NextStep.action s)
  && opt_valid nonempty (NextStep.owner s)
  && opt_valid nonempty (NextStep.due s).

Definition valid_Risk (r : Risk.t) : bool :=
  nonempty (Risk.risk r) && opt_valid nonempty (Risk.mitigation r).

Definition valid_Stakeholder (s : Stakeholder.t) : bool :=
  nonempty (Stakeholder.name s)
  && opt_valid nonempty (Stakeholder.role s)
  && opt_valid nonempty (Stakeholder.influence s).

Definition valid_Evidence (e : Evidence.t) : bool :=
  nonempty (Evidence.pointer e) && nonempty (Evidence.excerpt e).

Definition valid_Context (c : Context) : bool :=
  nonempty (summary c)
  && forallb nonempty (key_points c)
  && forallb valid_OpenQuestion (open_questions c)
  && forallb valid_NextStep (next_steps c)
  && forallb valid_Risk (risks c)
  && forallb valid_Stakeholder (stakeholders c)
  && forallb valid_Evidence (evidence c)
  && opt_valid date_regex_test (last_updated c).

(** The requests the schema describes: every string has at least one code
    unit, and [last_updated], when present, has the form YYYY-MM-DD. *)
Definition valid_request (i : SummarizeInput) : bool :=
  opt_valid nonempty (deal_id i)
  && opt_valid nonempty (deal_name i)
  && opt_valid nonempty (source_canvas_name i)
  && valid_Context (context i)
  && opt_valid nonempty (doc_title i).

(** Whatever a schema returns satisfies [P]. *)
Definition yields {A : Type} (S : Schema A) (P : A -> bool) : Prop :=
  forall p v a, S p v = inr a -> P a = true.

Lemma ap_inr {A B : Type} (f : ParseResult (A -> B)) (x : ParseResult A) (b : B) :
  f <*> x = inr b -> exists g a, f = inr g /\ x = inr a /\ b = g a.
Proof.
  destruct f as [e1 | g], x as [e2 | a]; cbn [ap]; intros H; try discriminate.
  injection H as <-. exists g, a. repeat split.
Qed.

(** Taking apart the success of an object shape, field by field. *)
Ltac invert_shape H :=
  repeat (let g := fresh "g" in
          let a := fresh "a" in
          let Hx := fresh "Hfield" in
          let Hb := fresh "Hb" in
          apply ap_inr in H; destruct H as (g & a & H & Hx & Hb); subst);
  injection H as <-.

Lemma trimmedString_yields : yields trimmedString nonempty.
Proof.
  intros p v s H. apply trimmedString_accepts in H. destruct H as [_ H].
  destruct s; [contradiction | reflexivity].
Qed.

Lemma dateString_yields : yields dateString date_regex_test.
Proof.
  intros p v s. unfold dateString.
  destruct v as [[| b | z | s' | items | props] |]; try discriminate.
  destruct (date_regex_test s') eqn:E; [| discriminate].
  intros H. injection H as <-. exact E.
Qed.

Lemma optional_yields (S : Schema jsstring) (P : jsstring -> bool) :
  yields S P -> yields (optional S) (opt_valid P).
Proof.
  intros HS p v o. unfold optional. destruct v as [x |].
  - destruct (S p (Some x)) as [e | a] eqn:E; [discriminate |].
    intros H. injection H as <-. exact (HS _ _ _ E).
  - intros H. injection H as <-. reflexivity.
Qed.

Lemma parse_items_yields {A : Type} (S : Schema A) (P : A -> bool) :
  yields S P ->
  forall p items i l, parse_items S p i items = inr l -> forallb P l = true.
Proof.
  intros HS p items. induction items as [| x rest IH]; intros i l H.
  - injection H as <-. reflexivity.
  - cbn [parse_items] in H. invert_shape H.
    cbn [forallb]. rewrite (HS _ _ _ Hfield0), (IH _ _ Hfield). reflexivity.
Qed.

Lemma array_yields {A : Type} (S : Schema A) (P : A -> bool) :
  yields S P -> yields (default (optional (z_array S))) (forallb P).
Proof.
  intros HS p v l. unfold default, optional, z_array.
  destruct v as [[| b | z | s | items | props] |]; try discriminate.
  - destruct (parse_items S p 0 items) as [e | l'] eqn:E; [discriminate |].
    intros H. injection H as <-. exact (parse_items_yields S P HS _ _ _ _ E).
  - intros H. injection H as <-. reflexivity.
Qed.

Lemma field_yields {A : Type} (S : Schema A) (P : A -> bool) (key : string)
      (p : list path_elem) (o : list (jsstring * json)) (a : A) :
  yields S P -> field S key p o = inr a -> P a = true.
Proof. intros HS H. exact (HS _ _ _ H). Qed.

Lemma z_object_yields {A : Type}
      (shape : list path_elem -> list (jsstring * json) -> ParseResult A) (P : A -> bool) :
  (forall p o a, shape p o = inr a -> P a = true) -> yields (z_object shape) P.
Proof.
  intros Hshape p v a. unfold z_object.
  destruct v as [[| b | z | s | items | props] |]; try discriminate.
  apply Hshape.
Qed.

Ltac field_facts :=
  repeat match goal with
         | H : field trimmedString _ _ _ = inr _ |- _ =>
             apply (field_yields _ _ _ _ _ _ trimmedString_yields) in H
         | H : field (optional trimmedString) _ _ _ = inr _ |- _ =>
             apply (field_yields _ _ _ _ _ _
                      (optional_yields _ _ trimmedString_yields)) in H
         | H : field (optional dateString) _ _ _ = inr _ |- _ =>
             apply (field_yields _ _ _ _ _ _
                      (optional_yields _ _ dateString_yields)) in H
         end.

Lemma openQuestionSchema_yields : yields openQuestionSchema valid_OpenQuestion.
Proof.
  apply z_object_yields. intros p o a H. invert_shape H. field_facts.
  unfold valid_OpenQuestion. cbn. rewrite Hfield1, Hfield0, Hfield. reflexivity.
Qed.

Lemma nextStepSchema_yields : yields nextStepSchema valid_NextStep.
Proof.
  apply z_object_yields. intros p o a H. invert_shape H. field_facts.
  unfold valid_NextStep. cbn. rewrite Hfield2, Hfield1, Hfield0. reflexivity.
Qed.

Lemma riskSchema_yields : yields riskSchema valid_Risk.
Proof.
  apply z_object_yields. intros p o a H. invert_shape H. field_facts.
  unfold valid_Risk. cbn. rewrite Hfield1, Hfield. reflexivity.
Qed.

Lemma stakeholderSchema_yields : yields stakeholderSchema valid_Stakeholder.
Proof.
  apply z_object_yields. intros p o a H. invert_shape H. field_facts.
  unfold valid_Stakeholder. cbn. rewrite Hfield1, Hfield0, Hfield. reflexivity.
Qed.

Lemma evidenceSchema_yields : yields evidenceSchema valid_Evidence.
Proof.
  apply z_object_yields. intros p o a H. invert_shape H. field_facts.
  unfold valid_Evidence. cbn. rewrite Hfield0, Hfield. reflexivity.
Qed.

Lemma contextSchema_yields : yields contextSchema valid_Context.
Proof.
  apply z_object_yields. intros p o a H. invert_shape H. field_facts.
  apply (field_yields _ _ _ _ _ _ (array_yields _ _ trimmedString_yields)) in Hfield5.
  apply (field_yields _ _ _ _ _ _ (array_yields _ _ openQuestionSchema_yields)) in Hfield4.
  apply (field_yields _ _ _ _ _ _ (array_yields _ _ nextStepSchema_yields)) in Hfield3.
  apply (field_yields _ _ _ _ _ _ (array_yields _ _ riskSchema_yields)) in Hfield2.
  apply (field_yields _ _ _ _ _ _ (array_yields _ _ stakeholderSchema_yields)) in Hfield1.
  apply (field_yields _ _ _ _ _ _ (array_yields _ _ evidenceSchema_yields)) in Hfield0.
  unfold valid_Context. cbn.
  rewrite Hfield6, Hfield5, Hfield4, Hfield3, Hfield2, Hfield1, Hfield0, Hfield.
  reflexivity.
Qed.

Lemma summarizeInputSchema_yields : yields summarizeInputSchema valid_request.
Proof.
  apply z_object_yields. intros p o a H. invert_shape H. field_facts.
  apply (field_yields _ _ _ _ _ _ contextSchema_yields) in Hfield1.
  unfold valid_request. cbn.
  rewrite Hfield4, Hfield3, Hfield2, Hfield1, Hfield. reflexivity.
Qed.

(** X6. Whatever value is validated, a request the validator returns is
    well-formed: every string in it (identifiers, summary, key points, and
    the texts of every question, step, risk, stakeholder and evidence entry)
    has at least one code unit, and [last_updated], when present, has the form
    YYYY-MM-DD. *)
Theorem validated_request_is_valid (value : json) (data : SummarizeInput) :
  safeParse summarizeInputSchema value = inr data -> valid_request data = true.
Proof.
  unfold safeParse. apply summarizeInputSchema_yields.
Qed.

Lemma validated_request_is_valid_witness :
  valid_request (mkSummarizeInput None None None
                   (mkContext blank [] [] [] [] [] [] None) memo None) = true.
Proof.
  apply (validated_request_is_valid request_with_blank_summary). vm_compute. reflexivity.
Defined.

(** ** A valid request validates to itself *)

Lemma lookup_here (k : jsstring) (v : json) (rest : list (jsstring * json)) :
  lookup k ((k, v) :: rest) = Some v.
Proof. cbn [lookup]. rewrite jsstring_eqb_refl. reflexivity. Qed.

Lemma lookup_skip (k k' : jsstring) (v : json) (rest : list (jsstring * json)) :
  jsstring_eqb k' k = false -> lookup k ((k', v) :: rest) = lookup k rest.
Proof. intros H. cbn [lookup]. rewrite H. reflexivity. Qed.

(** Looking the keys of a shape up in an object that is written out. *)
Ltac lookups :=
  unfold field;
  repeat (rewrite lookup_here || rewrite lookup_skip by reflexivity);
  cbn [lookup].

Lemma trimmedString_back (s : jsstring) (p : list path_elem) :
  nonempty s = true -> trimmedString p (Some (JStr s)) = inr s.
Proof. destruct s; [discriminate | reflexivity]. Qed.

Lemma optional_trimmedString_back (s : jsstring) (p : list path_elem) :
  nonempty s = true -> optional trimmedString p (Some (JStr s)) = inr (Some s).
Proof. intros H. unfold optional. rewrite (trimmedString_back s p H). reflexivity. Qed.

Lemma optional_dateString_back (s : jsstring) (p : list path_elem) :
  date_regex_test s = true -> optional dateString p (Some (JStr s)) = inr (Some s).
Proof. intros H. unfold optional, dateString. rewrite H. reflexivity. Qed.

Lemma array_back {A : Type} (S : Schema A) (to_json : A -> json) (P : A -> bool)
      (l : list A) (p : list path_elem) :
  (forall a q, P a = true -> S q (Some (to_json a)) = inr a) ->
  forallb P l = true ->
  default (optional (z_array S)) p (Some (JArr (List.map to_json l))) = inr l.
Proof.
  intros HS Hl. unfold default, optional, z_array.
  assert (forall i, parse_items S p i (List.map to_json l) = inr l) as ->; [| reflexivity].
  induction l as [| a l IH]; intros i; [reflexivity |].
  cbn [forallb] in Hl. apply andb_prop in Hl. destruct Hl as [Ha Hl].
  cbn [List.map parse_items]. rewrite (HS a _ Ha), (IH Hl). reflexivity.
Qed.

Ltac split_valid H :=
  repeat match type of H with
         | (_ && _ = true) =>
             let H' := fresh "Hv" in apply andb_prop in H; destruct H as [H H']
         end.

Lemma openQuestionSchema_back (q : OpenQuestion.t) (p : list path_elem) :
  valid_OpenQuestion q = true -> openQuestionSchema p (Some (OpenQuestion_json q)) = inr q.
Proof.
  destruct q as [question [owner |] [due |]]; unfold valid_OpenQuestion;
    cbn [OpenQuestion.question OpenQuestion.owner OpenQuestion.due opt_valid]; intros H;
    split_valid H;
    unfold openQuestionSchema, z_object, OpenQuestion_json;
    cbn [OpenQuestion.question OpenQuestion.owner OpenQuestion.due opt_prop app];
    lookups; rewrite ?optional_trimmedString_back, ?trimmedString_back by assumption;
    reflexivity.
Qed.

Lemma nextStepSchema_back (s : NextStep.t) (p : list path_elem) :
  valid_NextStep s = true -> nextStepSchema p (Some (NextStep_json s)) = inr s.
Proof.
  destruct s as [action [owner |] [due |] status]; unfold valid_NextStep;
    cbn [NextStep.action NextStep.owner NextStep.due opt_valid]; intros H;
    split_valid H;
    unfold nextStepSchema, z_object, NextStep_json;
    cbn [NextStep.action NextStep.owner NextStep.due NextStep.status opt_prop app];
    lookups; rewrite ?optional_trimmedString_back, ?trimmedString_back by assumption;
    destruct status; reflexivity.
Qed.

Lemma riskSchema_back (r : Risk.t) (p : list path_elem) :
  valid_Risk r = true -> riskSchema p (Some (Risk_json r)) = inr r.
Proof.
  destruct r as [risk severity [mitigation |]]; unfold valid_Risk;
    cbn [Risk.risk Risk.mitigation opt_valid]; intros H;
    split_valid H;
    unfold riskSchema, z_object, Risk_json;
    cbn [Risk.risk Risk.severity Risk.mitigation opt_prop app];
    lookups; rewrite ?optional_trimmedString_back, ?trimmedString_back by assumption;
    destruct severity; reflexivity.
Qed.

Lemma stakeholderSchema_back (s : Stakeholder.t) (p : list path_elem) :
  valid_Stakeholder s = true -> stakeholderSchema p (Some (Stakeholder_json s)) = inr s.
Proof.
  destruct s as [name [role |] [influence |]]; unfold valid_Stakeholder;
    cbn [Stakeholder.name Stakeholder.role Stakeholder.influence opt_valid]; intros H;
    split_valid H;
    unfold stakeholderSchema, z_object, Stakeholder_json;
    cbn [Stakeholder.name Stakeholder.role Stakeholder.influence opt_prop app];
    lookups; rewrite ?optional_trimmedString_back, ?trimmedString_back by assumption;
    reflexivity.
Qed.

Lemma evidenceSchema_back (e : Evidence.t) (p : list path_elem) :
  valid_Evidence e = true -> evidenceSchema p (Some (Evidence_json e)) = inr e.
Proof.
  destruct e as [type pointer excerpt]; unfold valid_Evidence;
    cbn [Evidence.pointer Evidence.excerpt opt_valid]; intros H;
    split_valid H;
    unfold evidenceSchema, z_object, Evidence_json;
    cbn [Evidence.type Evidence.pointer Evidence.excerpt opt_prop app];
    lookups; rewrite ?trimmedString_back by assumption;
    destruct type; reflexivity.
Qed.

Lemma contextSchema_back (c : Context) (p : list path_elem) :
  valid_Context c = true -> contextSchema p (Some (Context_json c)) = inr c.
Proof.
  destruct c as [text kps oqs nss rs shs evs [updated |]]; unfold valid_Context;
    cbn [summary key_points open_questions next_steps risks stakeholders evidence
         last_updated opt_valid];
    intros H; split_valid H;
    unfold contextSchema, z_object, Context_json;
    cbn [summary key_points open_questions next_steps risks stakeholders evidence
         last_updated opt_prop app];
    lookups;
    rewrite (array_back trimmedString JStr nonempty kps _
               (fun a q Ha => trimmedString_back a q Ha)) by assumption;
    rewrite (array_back openQuestionSchema OpenQuestion_json valid_OpenQuestion oqs _
               (fun a q Ha => openQuestionSchema_back a q Ha)) by assumption;
    rewrite (array_back nextStepSchema NextStep_json valid_NextStep nss _
               (fun a q Ha => nextStepSchema_back a q Ha)) by assumption;
    rewrite (array_back riskSchema Risk_json valid_Risk rs _
               (fun a q Ha => riskSchema_back a q Ha)) by assumption;
    rewrite (array_back stakeholderSchema Stakeholder_json valid_Stakeholder shs _
               (fun a q Ha => stakeholderSchema_back a q Ha)) by assumption;
    rewrite (array_back evidenceSchema Evidence_json valid_Evidence evs _
               (fun a q Ha => evidenceSchema_back a q Ha)) by assumption;
    rewrite ?optional_dateString_back, ?trimmedString_back by assumption;
    reflexivity.
Qed.

Lemma request_back (data : SummarizeInput) :
  valid_request data = true ->
  safeParse summarizeInputSchema (SummarizeInput_json data) = inr data.
Proof.
  destruct data as [[id |] [name |] [canvas |] ctx format [title |]];
    unfold valid_request;
    cbn [deal_id deal_name source_canvas_name context doc_title opt_valid];
    intros H; split_valid H;
    unfold safeParse, summarizeInputSchema, z_object, SummarizeInput_json;
    cbn [deal_id deal_name source_canvas_name context output_format doc_title
         opt_prop app];
    lookups;
    rewrite (contextSchema_back ctx _) by assumption;
    rewrite ?optional_trimmedString_back by assumption;
    destruct format; reflexivity.
Qed.

(** X7. Validation is idempotent on what it returns: the request object
    the validator built for an accepted value is accepted again, with no
    violation, and normalizes to itself (no default is re-applied, nothing is
    changed by a second pass). More generally every well-formed request is a
    fixed point of validation. *)
Theorem validation_is_idempotent (value : json) (data : SummarizeInput) :
  (valid_request data = true ->
   safeParse summarizeInputSchema (SummarizeInput_json data) = inr data)
  /\ (safeParse summarizeInputSchema value = inr data ->
      safeParse summarizeInputSchema (SummarizeInput_json data) = inr data).
Proof.
  split; [apply request_back |].
  intros H. apply request_back.
  unfold safeParse in H. exact (summarizeInputSchema_yields _ _ _ H).
Qed.

(** ** Defaults, and the issues of a failure *)

Lemma default_missing {A : Type} (S : Schema (option (list A))) (key : string)
      (p : list path_elem) (o : list (jsstring * json)) (l : list A) :
  lookup (lit key) o = None -> field (default S) key p o = inr l -> l = [].
Proof.
  intros Hmissing. unfold field, default. rewrite Hmissing.
  intros H. injection H as <-. reflexivity.
Qed.

(** X8. In an accepted request, a list of the context that the caller left
    out is the empty list: each of [key_points], [open_questions],
    [next_steps], [risks], [stakeholders] and [evidence] that is absent from
    the [context] object is normalized to the empty sequence. *)
Theorem missing_lists_default_to_empty (args ctx : list (jsstring * json))
        (data : SummarizeInput) :
  safeParse summarizeInputSchema (JObj args) = inr data ->
  lookup (lit "context") args = Some (JObj ctx) ->
  (lookup (lit "key_points") ctx = None -> key_points (context data) = [])
  /\ (lookup (lit "open_questions") ctx = None -> open_questions (context data) = [])
  /\ (lookup (lit "next_steps") ctx = None -> next_steps (context data) = [])
  /\ (lookup (lit "risks") ctx = None -> risks (context data) = [])
  /\ (lookup (lit "stakeholders") ctx = None -> stakeholders (context data) = [])
  /\ (lookup (lit "evidence") ctx = None -> evidence (context data) = []).
Proof.
  intros H Hctx. unfold safeParse, summarizeInputSchema, z_object in H.
  invert_shape H. clear Hfield Hfield0 Hfield2 Hfield3 Hfield4.
  unfold field in Hfield1. rewrite Hctx in Hfield1.
  unfold contextSchema, z_object in Hfield1. invert_shape Hfield1.
  cbn [context key_points open_questions next_steps risks stakeholders evidence].
  repeat split; intros Hmissing;
    eapply default_missing; try exact Hmissing; eassumption.
Qed.

Lemma missing_lists_default_to_empty_witness :
  key_points (mkContext blank [] [] [] [] [] [] None) = []
  /\ evidence (mkContext blank [] [] [] [] [] [] None) = [].
Proof.
  pose proof (missing_lists_default_to_empty
                [(lit "output_format", str "memo");
                 (lit "context", JObj [(lit "summary", JStr blank)])]
                [(lit "summary", JStr blank)]
                (mkSummarizeInput None None None
                   (mkContext blank [] [] [] [] [] [] None) memo None)
                eq_refl eq_refl) as (Hk & _ & _ & _ & _ & He).
  split; [exact (Hk eq_refl) | exact (He eq_refl)].
Defined.

(** A failure carries at least one issue. *)
Definition loud {A : Type} (r : ParseResult A) : Prop :=
  match r with
  | inl e => e <> []
  | inr _ => True
  end.

Definition loud_schema {A : Type} (S : Schema A) : Prop := forall p v, loud (S p v).

Lemma ap_loud {A B : Type} (f : ParseResult (A -> B)) (x : ParseResult A) :
  loud f -> loud x -> loud (f <*> x).
Proof.
  destruct f as [e1 | g], x as [e2 | a]; cbn [ap loud]; intros H1 H2; try assumption.
  intros Heq. apply app_eq_nil in Heq. destruct Heq as [Heq _]. exact (H1 Heq).
Qed.

Lemma trimmedString_loud : loud_schema trimmedString.
Proof.
  intros p v. unfold trimmedString.
  destruct v as [[| b | z | s | items | props] |]; cbn [loud]; try discriminate.
  destruct (Nat.ltb (List.length s) 1); cbn [loud]; [discriminate | exact I].
Qed.

Lemma dateString_loud : loud_schema dateString.
Proof.
  intros p v. unfold dateString.
  destruct v as [[| b | z | s | items | props] |]; cbn [loud]; try discriminate.
  destruct (date_regex_test s); cbn [loud]; [exact I | discriminate].
Qed.

Lemma z_enum_loud {E : Type} (options : list E) (to_str : E -> jsstring) :
  loud_schema (z_enum options to_str).
Proof.
  intros p v. unfold z_enum.
  destruct v as [[| b | z | s | items | props] |]; cbn [loud]; try discriminate.
  destruct (find _ options); cbn [loud]; [exact I | discriminate].
Qed.

Lemma optional_loud {A : Type} (S : Schema A) : loud_schema S -> loud_schema (optional S).
Proof.
  intros HS p v. unfold optional. destruct v as [x |]; [| exact I].
  specialize (HS p (Some x)). destruct (S p (Some x)); [exact HS | exact I].
Qed.

Lemma default_loud {A : Type} (S : Schema (option (list A))) :
  loud_schema S -> loud_schema (default S).
Proof.
  intros HS p v. unfold default. destruct v as [x |]; [| exact I].
  specialize (HS p (Some x)). destruct (S p (Some x)) as [e | [a |]];
    [exact HS | exact I | exact I].
Qed.

Lemma z_array_loud {A : Type} (S : Schema A) : loud_schema S -> loud_schema (z_array S).
Proof.
  intros HS p v. unfold z_array.
  destruct v as [[| b | z | s | items | props] |]; cbn [loud]; try discriminate.
  generalize 0. induction items as [| x rest IH]; intros i; cbn [parse_items]; [exact I |].
  apply ap_loud; [apply ap_loud; [exact I | apply HS] | apply IH].
Qed.

Lemma z_object_loud {A : Type}
      (shape : list path_elem -> list (jsstring * json) -> ParseResult A) :
  (forall p o, loud (shape p o)) -> loud_schema (z_object shape).
Proof.
  intros Hshape p v. unfold z_object.
  destruct v as [[| b | z | s | items | props] |]; cbn [loud]; try discriminate.
  apply Hshape.
Qed.

#[local] Hint Resolve trimmedString_loud dateString_loud z_enum_loud optional_loud
  default_loud z_array_loud : schema.

Ltac shape_loud :=
  repeat (apply ap_loud); [exact I | ..]; unfold field;
  match goal with |- loud (?S _ _) => assert (loud_schema S) as HS by auto 6 with schema;
                                      apply HS end.

Lemma openQuestionSchema_loud : loud_schema openQuestionSchema.
Proof. apply z_object_loud. intros p o. shape_loud. Qed.

Lemma nextStepSchema_loud : loud_schema nextStepSchema.
Proof. apply z_object_loud. intros p o. shape_loud. Qed.

Lemma riskSchema_loud : loud_schema riskSchema.
Proof. apply z_object_loud. intros p o. shape_loud. Qed.

Lemma stakeholderSchema_loud : loud_schema stakeholderSchema.
Proof. apply z_object_loud. intros p o. shape_loud. Qed.

Lemma evidenceSchema_loud : loud_schema evidenceSchema.
Proof. apply z_object_loud. intros p o. shape_loud. Qed.

#[local] Hint Resolve openQuestionSchema_loud nextStepSchema_loud riskSchema_loud
  stakeholderSchema_loud evidenceSchema_loud : schema.

Lemma contextSchema_loud : loud_schema contextSchema.
Proof. apply z_object_loud. intros p o. shape_loud. Qed.

#[local] Hint Resolve contextSchema_loud : schema.

Lemma summarizeInputSchema_loud : loud_schema summarizeInputSchema.
Proof. apply z_object_loud. intros p o. shape_loud. Qed.

(** X9. A rejection is never silent: when validation fails, whatever the
    value, the list of issues is not empty, and the text [formatZodError]
    makes of it is not empty either. *)
Theorem rejection_reports_an_issue (value : json) (errors : list ZodIssue) :
  safeParse summarizeInputSchema value = inl errors ->
  errors <> [] /\ formatZodError errors <> [].
Proof.
  intros H. pose proof (summarizeInputSchema_loud [] (Some value)) as Hloud.
  unfold safeParse in H. rewrite H in Hloud. cbn [loud] in Hloud.
  split; [exact Hloud |].
  destruct errors as [| issue rest]; [contradiction |].
  unfold formatZodError. cbn [List.map].
  assert (issue_line issue <> []) as Hline by (unfold issue_line; discriminate).
  destruct (List.map issue_line rest) as [| l ls].
  - exact Hline.
  - rewrite join_cons by discriminate. intros Heq.
    apply app_eq_nil in Heq. destruct Heq as [Heq _]. exact (Hline Heq).
Qed.

Lemma rejection_reports_an_issue_witness :
  [mkIssue [] (lit "Expected object, received null")] <> [].
Proof.
  exact (proj1 (rejection_reports_an_issue JNull
                  [mkIssue [] (lit "Expected object, received null")] eq_refl)).
Defined.

(** X10. Validation reads a request only through its six declared
    properties: two objects that agree on them are validated alike, so the
    order of the properties does not matter, and a property that is not
    declared changes nothing, wherever it stands. *)
Theorem validation_reads_declared_keys (props props' : list (jsstring * json)) :
  (forall key, In key request_keys -> lookup key props = lookup key props') ->
  safeParse summarizeInputSchema (JObj props) = safeParse summarizeInputSchema (JObj props').
Proof.
  intros H. unfold safeParse, summarizeInputSchema, z_object, field.
  rewrite (H (lit "deal_id")), (H (lit "deal_name")), (H (lit "source_canvas_name")),
    (H (lit "context")), (H (lit "output_format")), (H (lit "doc_title"))
    by (cbn [In request_keys]; auto 10).
  reflexivity.
Qed.

Lemma validation_reads_declared_keys_witness :
  safeParse summarizeInputSchema
    (JObj [(lit "output_format", str "memo");
           (lit "context", JObj [(lit "summary", JStr blank)])])
  = safeParse summarizeInputSchema
      (JObj [(lit "context", JObj [(lit "summary", JStr blank)]);
             (lit "extra", JBool true);
             (lit "output_format", str "memo")]).
Proof.
  apply validation_reads_declared_keys.
  intros key Hin. cbn [In request_keys] in Hin.
  repeat (destruct Hin as [<- | Hin]; [reflexivity |]). destruct Hin.
Defined.

(* ================================================================== *)
(** * The text of a validation failure, line by line *)
(* ================================================================== *)

(** No element of the path holds a line feed. *)
Definition plain_path (p : list path_elem) : bool :=
  forallb (fun e => no_LF (path_elem_str e)) p.

(** zod's message for a string that is not one of the options of an enum:
    it quotes the string received. *)
Definition quotes_received (msg : jsstring) : Prop :=
  exists expected received,
    msg = lit "Invalid enum value. Expected " ++ expected
            ++ lit ", received '" ++ received ++ lit "'".

(** The path of the issue stays on a line, and so does its message unless
    it quotes what was received. *)
Definition tidy (i : ZodIssue) : Prop :=
  plain_path (path i) = true
  /\ (no_LF (message i) = true \/ quotes_received (message i)).

(** Applied at a path that stays on a line, the schema raises tidy issues
    only. *)
Definition tidy_schema {A : Type} (S : Schema A) : Prop :=
  forall p v, plain_path p = true -> issues_in tidy (S p v).

Lemma plain_path_app (p q : list path_elem) :
  plain_path (p ++ q) = plain_path p && plain_path q.
Proof. apply forallb_app. Qed.

Lemma field_path_no_LF (i : ZodIssue) :
  plain_path (path i) = true -> no_LF (field_path i) = true.
Proof.
  unfold field_path, plain_path. intros H. apply join_no_LF; [reflexivity |].
  induction (path i) as [| e rest IH]; [reflexivity |].
  cbn [forallb List.map] in *. apply andb_prop in H. destruct H as [He Hrest].
  rewrite He, (IH Hrest). reflexivity.
Qed.

Lemma one_tidy (p : list path_elem) (msg : jsstring) :
  plain_path p = true -> no_LF msg = true -> Forall tidy [mkIssue p msg].
Proof. intros Hp Hm. constructor; [split; [exact Hp | left; exact Hm] | constructor]. Qed.

Lemma invalid_type_tidy (p : list path_elem) (expected : jsstring) (v : option json) :
  plain_path p = true -> no_LF expected = true -> Forall tidy [invalid_type p expected v].
Proof.
  intros Hp He. apply one_tidy; [exact Hp |].
  destruct v as [x |]; [| reflexivity].
  rewrite !no_LF_app, He. destruct x; reflexivity.
Qed.

Lemma trimmedString_tidy : tidy_schema trimmedString.
Proof.
  intros p v Hp. unfold trimmedString.
  destruct v as [[| b | z | s | items | props] |]; cbn [issues_in];
    try (apply invalid_type_tidy; [exact Hp | reflexivity]).
  destruct (Nat.ltb (List.length s) 1); cbn [issues_in]; [| exact I].
  apply one_tidy; [exact Hp | reflexivity].
Qed.

Lemma dateString_tidy : tidy_schema dateString.
Proof.
  intros p v Hp. unfold dateString.
  destruct v as [[| b | z | s | items | props] |]; cbn [issues_in];
    try (apply invalid_type_tidy; [exact Hp | reflexivity]).
  destruct (date_regex_test s); cbn [issues_in]; [exact I |].
  apply one_tidy; [exact Hp | reflexivity].
Qed.

Lemma z_enum_tidy {E : Type} (options : list E) (to_str : E -> jsstring) :
  no_LF (joinValues (List.map to_str options)) = true ->
  tidy_schema (z_enum options to_str).
Proof.
  intros Hoptions p v Hp. unfold z_enum.
  destruct v as [[| b | z | s | items | props] |]; cbn [issues_in];
    try (apply invalid_type_tidy; [exact Hp | exact Hoptions]).
  destruct (find _ options); cbn [issues_in]; [exact I |].
  constructor; [| constructor]. split; [exact Hp |].
  right. eexists _, s. reflexivity.
Qed.

Lemma optional_tidy {A : Type} (S : Schema A) : tidy_schema S -> tidy_schema (optional S).
Proof.
  intros HS p v Hp. unfold optional. destruct v as [x |]; [| exact I].
  specialize (HS p (Some x) Hp). destruct (S p (Some x)); [exact HS | exact I].
Qed.

Lemma default_tidy {A : Type} (S : Schema (option (list A))) :
  tidy_schema S -> tidy_schema (default S).
Proof.
  intros HS p v Hp. unfold default. destruct v as [x |]; [| exact I].
  specialize (HS p (Some x) Hp). destruct (S p (Some x)) as [e | [a |]];
    [exact HS | exact I | exact I].
Qed.

Lemma parse_items_tidy {A : Type} (S : Schema A) (p : list path_elem) (items : list json) :
  tidy_schema S -> plain_path p = true ->
  forall i, issues_in tidy (parse_items S p i items).
Proof.
  intros HS Hp. induction items as [| x rest IH]; intros i; cbn [parse_items]; [exact I |].
  apply ap_issues; [apply ap_issues; [exact I |] | apply IH].
  apply HS. rewrite plain_path_app, Hp. cbn [plain_path forallb path_elem_str].
  rewrite string_of_nat_no_LF. reflexivity.
Qed.

Lemma z_array_tidy {A : Type} (S : Schema A) : tidy_schema S -> tidy_schema (z_array S).
Proof.
  intros HS p v Hp. unfold z_array.
  destruct v as [[| b | z | s | items | props] |]; cbn [issues_in];
    try (apply invalid_type_tidy; [exact Hp | reflexivity]).
  apply parse_items_tidy; assumption.
Qed.

Lemma field_tidy {A : Type} (S : Schema A) (key : string) (p : list path_elem)
      (o : list (jsstring * json)) :
  tidy_schema S -> no_LF (lit key) = true -> plain_path p = true ->
  issues_in tidy (field S key p o).
Proof.
  intros HS Hkey Hp. unfold field. apply HS.
  rewrite plain_path_app, Hp. cbn [plain_path forallb path_elem_str].
  rewrite Hkey. reflexivity.
Qed.

Lemma z_object_tidy {A : Type}
      (shape : list path_elem -> list (jsstring * json) -> ParseResult A) :
  (forall p o, plain_path p = true -> issues_in tidy (shape p o)) ->
  tidy_schema (z_object shape).
Proof.
  intros Hshape p v Hp. unfold z_object.
  destruct v as [[| b | z | s | items | props] |]; cbn [issues_in];
    try (apply invalid_type_tidy; [exact Hp | reflexivity]).
  apply Hshape, Hp.
Qed.

Create HintDb tidy discriminated.
#[local] Hint Resolve trimmedString_tidy dateString_tidy z_enum_tidy optional_tidy
  default_tidy z_array_tidy : tidy.
#[local] Hint Extern 1 (no_LF _ = true) => reflexivity : tidy.

Ltac shape_tidy :=
  repeat (apply ap_issues); [exact I | ..];
  (apply field_tidy; [auto 6 with tidy | reflexivity | assumption]).

Lemma openQuestionSchema_tidy : tidy_schema openQuestionSchema.
Proof. apply z_object_tidy. intros p o Hp. shape_tidy. Qed.

Lemma nextStepSchema_tidy : tidy_schema nextStepSchema.
Proof. apply z_object_tidy. intros p o Hp. shape_tidy. Qed.

Lemma riskSchema_tidy : tidy_schema riskSchema.
Proof. apply z_object_tidy. intros p o Hp. shape_tidy. Qed.

Lemma stakeholderSchema_tidy : tidy_schema stakeholderSchema.
Proof. apply z_object_tidy. intros p o Hp. shape_tidy. Qed.

Lemma evidenceSchema_tidy : tidy_schema evidenceSchema.
Proof. apply z_object_tidy. intros p o Hp. shape_tidy. Qed.

#[local] Hint Resolve openQuestionSchema_tidy nextStepSchema_tidy riskSchema_tidy
  stakeholderSchema_tidy evidenceSchema_tidy : tidy.

Lemma contextSchema_tidy : tidy_schema contextSchema.
Proof. apply z_object_tidy. intros p o Hp. shape_tidy. Qed.

#[local] Hint Resolve contextSchema_tidy : tidy.

Lemma summarizeInputSchema_tidy : tidy_schema summarizeInputSchema.
Proof. apply z_object_tidy. intros p o Hp. shape_tidy. Qed.

(** The violation lines of messages that stay on a line are the lines of
    the text. *)
Lemma violation_lines (errors : list ZodIssue) :
  Forall (fun issue => plain_path (path issue) = true) errors ->
  Forall (fun issue => no_LF (message issue) = true) errors ->
  split_lines (lit "Validation error:" ++ [LF]
                 ++ join [LF] (List.map violation_line errors))
  = lit "Validation error:"
      :: match errors with
         | [] => [[]]
         | _ => List.map violation_line errors
         end.
Proof.
  intros Hpath Hmsg.
  change (lit "Validation error:" ++ [LF] ++ ?x) with (lit "Validation error:" ++ LF :: x).
  rewrite split_lines_app, (split_lines_one (lit "Validation error:") eq_refl).
  cbn [app]. f_equal.
  destruct errors as [| e rest]; [reflexivity |].
  apply split_lines_join; [discriminate |].
  apply forallb_forall. intros l Hl. apply in_map_iff in Hl.
  destruct Hl as (issue & <- & Hin).
  rewrite Forall_forall in Hpath, Hmsg.
  unfold violation_line.
  rewrite !no_LF_app, (field_path_no_LF _ (Hpath _ Hin)), (Hmsg _ Hin). reflexivity.
Qed.

(** C5 (as amended). A [tools/call] of [summarize_context] whose arguments
    fail validation calls [fetch] not at all (the pusher is not invoked), with
    or without an id. With an id it is answered by a tool-level result with
    [isError] true, whose text is "Validation error:", a line feed, and for
    every violation in order (there is at least one) its field path and its
    message, the violations separated by line feeds; without an id it is a
    notification, and gets no response. Every field path is a non-empty path
    that holds no line feed, and a message holds none either unless it is the
    message of an invalid enum value, which quotes the string received. When
    no message holds a line feed, the lines of the text are the heading and
    one line for each violation, in order. *)
Theorem validation_failure_is_local (env : Env) (m : list (jsstring * json))
        (errors : list ZodIssue) :
  envelope m (lit "tools/call") ->
  name_of (params_of m) = lit "summarize_context" ->
  safeParse summarizeInputSchema (JObj (arguments_of (params_of m))) = inl errors ->
  let text := lit "Validation error:" ++ [LF] ++ join [LF] (List.map violation_line errors) in
  fetches (handleMessage (JObj m)) env = []
  /\ (has_id m = true ->
      result_of (handleMessage (JObj m)) env
      = Some (makeResult (coerceJsonRpcId (lookup (lit "id") m)) (toolResult text true)))
  /\ (has_id m = false -> result_of (handleMessage (JObj m)) env = None)
  /\ errors <> []
  /\ Forall (fun issue =>
               path issue <> []
               /\ no_LF (field_path issue) = true
               /\ (no_LF (message issue) = true \/ quotes_received (message issue)))
            errors
  /\ (Forall (fun issue => no_LF (message issue) = true) errors ->
      split_lines text = lit "Validation error:" :: List.map violation_line errors).
Proof.
  intros Henv Hname Herr text.
  pose proof (request_issues_name_a_field _ _ Herr) as Hfield.
  assert (Forall tidy errors) as Htidy.
  { pose proof (summarizeInputSchema_tidy [] (Some (JObj (arguments_of (params_of m))))
                  eq_refl) as H.
    unfold safeParse in Herr. rewrite Herr in H. exact H. }
  assert (errors <> []) as Hloud.
  { pose proof (summarizeInputSchema_loud [] (Some (JObj (arguments_of (params_of m))))) as H.
    unfold safeParse in Herr. rewrite Herr in H. exact H. }
  assert (fetches (handleMessage (JObj m)) env = []
          /\ (has_id m = true ->
              result_of (handleMessage (JObj m)) env
              = Some (makeResult (coerceJsonRpcId (lookup (lit "id") m))
                        (toolResult text true)))
          /\ (has_id m = false -> result_of (handleMessage (JObj m)) env = None))
    as (Hfetch & Hwith & Hwithout).
  { destruct (has_id m) eqn:Hid.
    - rewrite (handleMessage_tools_call m Henv Hid),
        (toolsCall_summarize_context _ _ _ Hname).
      destruct (callSummarizeContext_invalid (envelope_id m) (envelope_requestId m)
                  (lit "summarize_context") _ _ env Herr) as [Hr Ht].
      split; [| split].
      + unfold fetches. rewrite Ht. reflexivity.
      + intros _.
        rewrite Hr, (envelope_id_has_id _ Hid), (formatZodError_fields _ Hfield).
        reflexivity.
      + discriminate.
    - rewrite (handleMessage_route m (lit "tools/call") Henv ltac:(discriminate)), Hid.
      split; [reflexivity | split; [discriminate | reflexivity]]. }
  repeat (split; [assumption |]).
  split.
  - rewrite Forall_forall in *. intros issue Hin.
    destruct (Htidy issue Hin) as [Hpath Hmsg].
    split; [exact (Hfield issue Hin) |].
    split; [apply field_path_no_LF, Hpath | exact Hmsg].
  - intros Hmsg. subst text. rewrite violation_lines; [| | exact Hmsg].
    + destruct errors; [contradiction | reflexivity].
    + eapply Forall_impl; [| exact Htidy]. intros issue [Hpath _]. exact Hpath.
Qed.

Lemma validation_failure_is_local_witness :
  fetches (handleMessage (JObj call_without_arguments)) env_echo = []
  /\ result_of (handleMessage (JObj call_without_arguments)) env_echo
     = Some (makeResult (JNum 1)
               (toolResult
                  (lit "Validation error:" ++ [LF]
                     ++ lit "- context: Required" ++ [LF]
                     ++ lit "- output_format: Required")
                  true))
  /\ split_lines (lit "Validation error:" ++ [LF]
                    ++ lit "- context: Required" ++ [LF]
                    ++ lit "- output_format: Required")
     = [lit "Validation error:"; lit "- context: Required"; lit "- output_format: Required"].
Proof.
  pose proof (validation_failure_is_local env_echo call_without_arguments
                [mkIssue [PKey (lit "context")] (lit "Required");
                 mkIssue [PKey (lit "output_format")] (lit "Required")]
                (conj eq_refl eq_refl) eq_refl eq_refl)
    as (Hfetch & Hresult & _ & _ & _ & Hlines).
  split; [exact Hfetch | split; [exact (Hresult eq_refl) |]].
  apply Hlines. repeat constructor.
Defined.

(** The value of [output_format] that forges a line: an unknown format, a
    quote, a line feed, and the text of a violation that did not occur. *)
Definition forged_format : jsstring :=
  lit "x'" ++ [LF] ++ lit "- context.summary: Required".

Definition call_forging_a_line : list (jsstring * json) :=
  call (JNum 3)
       (obj [("name", str "summarize_context");
             ("arguments",
               JObj [(lit "output_format", JStr forged_format);
                     (lit "context", obj [("summary", str "Renewal in negotiation")])])]%string).

(** The text of the answer to it. *)
Definition forged_text : jsstring :=
  lit "Validation error:" ++ [LF]
    ++ lit "- output_format: Invalid enum value. Expected 'exec_bullets' | 'se_deal_update' | 'memo', received '"
    ++ forged_format ++ lit "'".

(** [summarize_context] called with no arguments and no id. *)
Definition notification_without_arguments : list (jsstring * json) :=
  [(lit "jsonrpc", str "2.0"); (lit "method", str "tools/call");
   (lit "params", obj [("name", str "summarize_context")]%string)].

(** C5 (the claim as stated fails). A call whose only violation is an
    unknown [output_format] holding a line feed is answered with a text of
    three lines: the heading, the line of the violation, and a line that
    names the field [context.summary], which has no violation. And a call
    with invalid arguments and no id gets no result at all. *)
Lemma violation_text_can_forge_a_line :
  (envelope call_forging_a_line (lit "tools/call")
   /\ name_of (params_of call_forging_a_line) = lit "summarize_context"
   /\ safeParse summarizeInputSchema (JObj (arguments_of (params_of call_forging_a_line)))
      = inl [mkIssue [PKey (lit "output_format")]
               (lit "Invalid enum value. Expected 'exec_bullets' | 'se_deal_update' | 'memo', received '"
                  ++ forged_format ++ lit "'")]
   /\ result_of (handleMessage (JObj call_forging_a_line)) env_echo
      = Some (makeResult (JNum 3) (toolResult forged_text true))
   /\ split_lines forged_text
      = [lit "Validation error:";
         lit "- output_format: Invalid enum value. Expected 'exec_bullets' | 'se_deal_update' | 'memo', received 'x'";
         lit "- context.summary: Required'"])
  /\ (envelope notification_without_arguments (lit "tools/call")
      /\ name_of (params_of notification_without_arguments) = lit "summarize_context"
      /\ (exists errors,
             safeParse summarizeInputSchema
               (JObj (arguments_of (params_of notification_without_arguments)))
             = inl errors)
      /\ result_of (handleMessage (JObj notification_without_arguments)) env_echo = None).
Proof.
  split.
  - split; [split; reflexivity |]. split; [reflexivity |]. split; [reflexivity |].
    split; vm_compute; reflexivity.
  - split; [split; reflexivity |]. split; [reflexivity |].
    split; [eexists; vm_compute; reflexivity | reflexivity].
Qed.

(* ================================================================== *)
(** * More on the webhook pusher: what the sink receives *)
(* ================================================================== *)

(** The text of a member whose value is a string, without a gap. *)
Definition flat_member (kv : jsstring * jsstring) : jsstring :=
  member [] (fst kv) (QuoteJSONString (snd kv)).

Lemma flat_member_app (k s x : jsstring) :
  flat_member (k, s) ++ x
  = DQUOTE :: (quote_body k ++ DQUOTE :: 58%N :: (Ser [] (JStr s) ++ x)).
Proof.
  unfold flat_member, member, QuoteJSONString, Ser. cbn [fst snd SerializeJSON].
  unfold QuoteJSONString. change (lit ":") with [58%N].
  cbn [app]. rewrite <- !app_assoc. cbn [app]. rewrite <- !app_assoc. reflexivity.
Qed.

Lemma string_reads_back (s : jsstring) : value_reads_back [] (JStr s).
Proof. apply Ser_reads_back; reflexivity. Qed.

(** The members of an object of strings, written without a gap, are read
    back up to the closing brace. *)
Lemma parse_members_flat (props : list (jsstring * jsstring)) :
  props <> [] ->
  forall rest fuel,
    S (List.length props) <= fuel ->
    parse_members fuel (join (lit ",") (List.map flat_member props) ++ 125%N :: rest)
    = Some (List.map (fun kv => (fst kv, JStr (snd kv))) props, rest).
Proof.
  induction props as [| [k s] more IH]; [contradiction |].
  intros _ rest fuel Hfuel. cbn [List.length] in Hfuel.
  destruct fuel as [| fuel]; [lia |].
  rewrite parse_members_S.
  destruct more as [| kv2 more'].
  - cbn [List.map join]. rewrite flat_member_app, skip_ws_stop by reflexivity.
    change (DQUOTE =? 34)%N with true. cbv iota.
    rewrite quote_body_reads_back, skip_ws_stop by reflexivity.
    change (58 =? 58)%N with true. cbv iota.
    rewrite <- (app_nil_l (Ser [] (JStr s) ++ _)).
    rewrite (string_reads_back s _ fuel [] eq_refl) by (cbn [size]; lia).
    rewrite skip_ws_stop by reflexivity. reflexivity.
  - cbn [List.map]. rewrite join_cons by discriminate.
    rewrite <- !app_assoc.
    rewrite flat_member_app, skip_ws_stop by reflexivity.
    change (DQUOTE =? 34)%N with true. cbv iota.
    rewrite quote_body_reads_back, skip_ws_stop by reflexivity.
    change (58 =? 58)%N with true. cbv iota.
    rewrite <- (app_nil_l (Ser [] (JStr s) ++ _)).
    rewrite (string_reads_back s _ fuel [] eq_refl) by (cbn [size]; lia).
    change (lit ",") with [44%N]. cbn [app]. rewrite skip_ws_stop by reflexivity.
    change (44 =? 44)%N with true. cbv iota.
    change (flat_member kv2 :: List.map flat_member more')
      with (List.map flat_member (kv2 :: more')).
    change [44%N] with (lit ",").
    rewrite (IH ltac:(discriminate) rest fuel) by (cbn [List.length] in *; lia).
    reflexivity.
Qed.

(** The payload the pusher serializes. *)
Definition webhook_payload (token title text : jsstring) : json :=
  JObj [(lit "token", JStr token); (lit "title", JStr title); (lit "text", JStr text);
        (lit "source", JStr (lit "CanvasETL"))].

Lemma webhook_body_reads_back (url token title text : jsstring) :
  JSON_parse (req_body (webhook_request url token title text))
  = Some (webhook_payload token title text).
Proof.
  unfold webhook_request, req_body, JSON_stringify, webhook_payload.
  cbn [SerializeJSON List.map fst snd].
  change (member [] ?k (QuoteJSONString ?s)) with (flat_member (k, s)).
  unfold wrap_members. change (lit "{") with [123%N]. change (lit "}") with [125%N].
  set (props := [(lit "token", token); (lit "title", title); (lit "text", text);
                 (lit "source", lit "CanvasETL")]).
  change [flat_member (lit "token", token); flat_member (lit "title", title);
          flat_member (lit "text", text); flat_member (lit "source", lit "CanvasETL")]
    with (List.map flat_member props).
  unfold JSON_parse.
  match goal with
  | |- context [parse_value (S ?n) _] =>
      assert (5 <= n) as Hlen; [| revert Hlen; generalize n as fuel; intros fuel Hlen]
  end.
  { rewrite !length_app.
    pose proof (join_length (lit ",") (List.map flat_member props) ltac:(discriminate)) as Hj.
    rewrite map_map in Hj. subst props. cbn [List.map] in *.
    rewrite !list_sum_cons in Hj.
    change (List.length [123%N]) with 1. change (List.length [125%N]) with 1. lia. }
  cbn [app]. rewrite parse_value_S, skip_ws_stop by reflexivity.
  change (123 =? 123)%N with true. cbv iota.
  assert (exists c t, skip_ws (join (lit ",") (List.map flat_member props) ++ [125%N])
                      = c :: t /\ (c =? 125)%N = false) as (c & t & -> & ->).
  { subst props. cbn [List.map]. rewrite join_cons by discriminate.
    rewrite <- app_assoc, flat_member_app. eexists _, _.
    split; [apply skip_ws_stop; reflexivity | reflexivity]. }
  rewrite (parse_members_flat props ltac:(subst props; discriminate) []) by
      (subst props; cbn [List.length] in *; lia).
  reflexivity.
Qed.

(** X11. What the sink receives: for a [tools/call] of [summarize_context]
    with an id whose arguments pass validation, on a configured deployment,
    the one call of [fetch] goes to the configured URL and its body is JSON
    text that parses to the object with the configured token, the chosen
    title, the rendered summary (as it is, whatever characters it holds) and
    the source "CanvasETL". *)
Theorem pushed_document (env : Env) (m : list (jsstring * json)) (data : SummarizeInput)
        (url token : jsstring) :
  envelope m (lit "tools/call") ->
  has_id m = true ->
  name_of (params_of m) = lit "summarize_context" ->
  safeParse summarizeInputSchema (JObj (arguments_of (params_of m))) = inr data ->
  DOC_WEBHOOK_URL env = Some url -> DOC_WEBHOOK_TOKEN env = Some token ->
  configured env = true ->
  exists req,
    fetches (handleMessage (JObj m)) env = [EvFetch req]
    /\ req_url req = url
    /\ JSON_parse (req_body req)
       = Some (JObj [(lit "token", JStr token);
                     (lit "title", JStr (chosen_title data));
                     (lit "text", JStr (formatSummary data));
                     (lit "source", JStr (lit "CanvasETL"))]).
Proof.
  intros Henv Hid Hname Hdata Hurl Htoken Hconf.
  exists (webhook_request url token (chosen_title data) (formatSummary data)).
  rewrite (handleMessage_tools_call m Henv Hid), (toolsCall_summarize_context _ _ _ Hname).
  destruct (callSummarizeContext_valid (envelope_id m) (envelope_requestId m)
              (lit "summarize_context") _ _ env Hdata) as [_ Hf].
  destruct (@push_configured env (chosen_title data) (formatSummary data) url token
              Hurl Htoken Hconf) as [Hpush _].
  rewrite Hf, Hpush. split; [reflexivity | split; [reflexivity |]].
  apply webhook_body_reads_back.
Qed.

Lemma pushed_document_witness :
  exists req,
    fetches (handleMessage (JObj call_renewal)) env_echo = [EvFetch req]
    /\ req_url req = lit "https://sink.example/exec"
    /\ JSON_parse (req_body req)
       = Some (JObj [(lit "token", JStr (lit "secret"));
                     (lit "title", JStr (lit "Q3 review"));
                     (lit "text", JStr (formatSummary renewal));
                     (lit "source", JStr (lit "CanvasETL"))]).
Proof.
  exact (pushed_document env_echo call_renewal renewal
           (lit "https://sink.example/exec") (lit "secret")
           (conj eq_refl eq_refl) eq_refl eq_refl eq_refl eq_refl eq_refl eq_refl).
Defined.

(* ================================================================== *)
(** * More on the dispatcher: every message, well formed or not *)
(* ================================================================== *)

(** The id a response to [message] carries. *)
Definition response_id (message : json) : json :=
  match message with
  | JObj m => envelope_id m
  | _ => JNull
  end.

(** [JsonRpcId]: a string, a number or [null]. *)
Definition is_JsonRpcId (id : json) : bool :=
  match id with
  | JStr _ | JNum _ | JNull => true
  | _ => false
  end.

(** The two shapes of a response: a result, or an error with one of the two
    codes of the dispatcher and a [data]. *)
Inductive Response (id : json) : json -> Prop :=
| ResultResponse (result : json) : Response id (makeResult id result)
| ErrorResponse (code : Z) (message : string) (data : json) :
    code = (-32600)%Z \/ code = (-32601)%Z ->
    Response id (makeError id code message (Some data)).

(** The response is the error -32600, "Invalid Request". *)
Definition invalid_request (id : json) (response : option json) : Prop :=
  exists data : jsstring,
    response = Some (makeError id (-32600) "Invalid Request" (Some (JStr data))).

(** The response has an [error] member. *)
Definition is_error (response : json) : bool :=
  match response with
  | JObj members => hasOwnProperty members (lit "error")
  | _ => false
  end.

(** Case analysis on a run of [handleMessage]: the innermost scrutinee
    first, until the result and the trace are written out. *)
Ltac split_match :=
  match goal with
  | |- context [match ?x with _ => _ end] =>
      lazymatch x with
      | context [match _ with _ => _ end] => fail
      | _ => destruct x eqn:?
      end
  end.

Ltac run :=
  cbv [handleMessage routeMethod toolsCall callSummarizeContext pushSummaryToDocWebhook
       getDocWebhookConfig isBaseUrlConfigured getHealthPayload log emit ask bind ret
       result_of trace_of fetches fst snd];
  repeat (split_match; cbv beta iota zeta).

Lemma handleMessage_fetch_bound (message : json) (env : Env) :
  List.length (fetches (handleMessage message) env) <= 1.
Proof.
  run. all: cbn [filter is_fetch app List.length]; lia.
Qed.

Lemma handleBatch_fetch_bound (messages : list json) (env : Env) :
  List.length (fetches (handleBatch messages) env) <= List.length messages.
Proof.
  induction messages as [| message rest IH]; [cbn; lia |].
  cbn [handleBatch]. rewrite !fetches_bind, fetches_ret, app_nil_r, length_app.
  pose proof (handleMessage_fetch_bound message env).
  change (List.length (message :: rest)) with (S (List.length rest)). lia.
Qed.

(** The messages of a body: the elements of an array, else the body. *)
Definition messages_of (body : jsstring + json) : list json :=
  match body with
  | inl _ => []
  | inr (JArr messages) => messages
  | inr message => [message]
  end.

(** X12. A request calls [fetch] at most once for each message of its body:
    not at all when the body is not JSON, at most once for a single message,
    at most as many times as the batch has elements. *)
Theorem post_fetch_bound (body : jsstring + json) (env : Env) :
  List.length (fetches (POST body) env) <= List.length (messages_of body).
Proof.
  destruct body as [error | message].
  - unfold POST. rewrite fetches_bind, fetches_log, fetches_ret. cbn. lia.
  - assert (forall m, List.length
                        (fetches (response <- handleMessage m ;;
                                  match response with
                                  | None => ret noContent
                                  | Some r => ret (jsonResponse r 200)
                                  end) env) <= 1) as Hone.
    { intros m. rewrite fetches_bind.
      destruct (result_of (handleMessage m) env);
        rewrite fetches_ret, app_nil_r; apply handleMessage_fetch_bound. }
    destruct message; try apply Hone.
    unfold POST, messages_of. rewrite fetches_bind.
    destruct (result_of (handleBatch items) env);
      rewrite fetches_ret, app_nil_r; apply handleBatch_fetch_bound.
Qed.

Lemma fetching_call (props : list (jsstring * json)) (env : Env)
      (v method name url token : jsstring) (data : SummarizeInput) :
  lookup (lit "jsonrpc") props = Some (JStr v) ->
  jsstring_eqb v (lit "2.0") = true ->
  lookup (lit "method") props = Some (JStr method) ->
  jsstring_eqb method (lit "tools/call") = true ->
  jsstring_eqb method (lit "initialized")
  || jsstring_eqb method (lit "notifications/initialized") = false ->
  negb (hasOwnProperty props (lit "id"))
  && negb (jsstring_eqb method (lit "notifications/initialized"))
  && negb (jsstring_eqb method (lit "initialized")) = false ->
  name_of (params_of props) = name ->
  jsstring_eqb name (lit "summarize_context") = true ->
  safeParse summarizeInputSchema (JObj (arguments_of (params_of props))) = inr data ->
  DOC_WEBHOOK_URL env = Some url ->
  DOC_WEBHOOK_TOKEN env = Some token ->
  negb (truthy (Some url)) || negb (truthy (Some token)) = false ->
  exists m data',
    JObj props = JObj m
    /\ envelope m (lit "tools/call")
    /\ has_id m = true
    /\ name_of (params_of m) = lit "summarize_context"
    /\ safeParse summarizeInputSchema (JObj (arguments_of (params_of m))) = inr data'
    /\ configured env = true.
Proof.
  intros Hj Hv Hm Hcall Hinit Hid Hname Hsum Hdata Hurl Htoken Hcfg.
  apply jsstring_eqb_eq in Hv, Hcall, Hsum. subst v method name.
  exists props, data. split; [reflexivity |].
  split; [split; assumption |].
  split.
  { unfold has_id. apply orb_false_elim in Hinit. destruct Hinit as [H1 H2].
    rewrite H1, H2, andb_true_r, andb_true_r in Hid.
    apply negb_false_iff in Hid. exact Hid. }
  split; [assumption |]. split; [assumption |].
  unfold configured. rewrite Hurl, Htoken.
  apply orb_false_elim in Hcfg. destruct Hcfg as [H1 H2].
  apply negb_false_iff in H1, H2. rewrite H1, H2. reflexivity.
Qed.

(** X13. The network is reached on one path only: a message makes the
    handler call [fetch] only if it is a [tools/call] carrying an id, for the
    tool [summarize_context], with arguments that pass validation, on a
    deployment where the URL and the token are both configured. *)
Theorem fetch_needs_a_valid_call (message : json) (env : Env) :
  fetches (handleMessage message) env <> [] ->
  exists m data,
    message = JObj m
    /\ envelope m (lit "tools/call")
    /\ has_id m = true
    /\ name_of (params_of m) = lit "summarize_context"
    /\ safeParse summarizeInputSchema (JObj (arguments_of (params_of m))) = inr data
    /\ configured env = true.
Proof.
  run. all: cbn [filter is_fetch app]. all: try congruence.
  all: intros _; eapply fetching_call; eassumption.
Qed.

Lemma fetch_needs_a_valid_call_witness :
  exists m data,
    JObj call_renewal = JObj m
    /\ envelope m (lit "tools/call")
    /\ has_id m = true
    /\ name_of (params_of m) = lit "summarize_context"
    /\ safeParse summarizeInputSchema (JObj (arguments_of (params_of m))) = inr data
    /\ configured env_echo = true.
Proof.
  apply (fetch_needs_a_valid_call (JObj call_renewal) env_echo).
  vm_compute. discriminate.
Defined.

Lemma result_is_no_error (id id' result : json) (code : Z) (message : string)
      (data : option json) :
  Some (makeResult id result) <> Some (makeError id' code message data).
Proof.
  intros H. apply (f_equal (fun r => match r with Some r => is_error r | None => false end)) in H.
  vm_compute in H. discriminate.
Qed.

(** X14. The envelopes the dispatcher refuses leave no trace: handling a
    message logs nothing and calls nothing exactly when the response is the
    error -32600 (the message is not an object, or lacks [jsonrpc: "2.0"], or
    has no method that is a non-empty string); every other message is logged
    at least once. *)
Theorem invalid_request_is_silent (message : json) (env : Env) :
  trace_of (handleMessage message) env = []
  <-> invalid_request (response_id message) (result_of (handleMessage message) env).
Proof.
  unfold invalid_request.
  run.
  all: cbn [response_id app].
  all: try (split; [intros _; eexists; reflexivity | reflexivity]).
  all: split; [discriminate |].
  all: intros [data H]; exfalso.
  all: try discriminate.
  all: try (exact (result_is_no_error _ _ _ _ _ _ H)).
  all: unfold makeError in H; congruence.
Qed.

(** X15. Every response is a JSON-RPC result or an error with code -32600
    or -32601, and carries the id of the message it answers: the id itself
    when it is a string or a number, [null] when it is anything else, absent,
    or when the message is not an object. No response at all is only ever
    given to an object without an id. *)
Theorem response_envelope (message : json) (env : Env) :
  is_JsonRpcId (response_id message) = true
  /\ match result_of (handleMessage message) env with
     | Some r => Response (response_id message) r
     | None => exists m, message = JObj m /\ has_id m = false
     end.
Proof.
  split.
  { destruct message; try reflexivity. cbn [response_id]. unfold envelope_id.
    destruct (hasOwnProperty props (lit "id")); [| reflexivity].
    destruct (lookup (lit "id") props) as [[] |]; reflexivity. }
  run. all: cbn [response_id]. all: try (constructor; auto; fail).
  all: eexists; split; [reflexivity |]; unfold has_id; try assumption.
  all: repeat match goal with
         | H : _ && _ = true |- _ => apply andb_prop in H; destruct H
         end.
  all: apply negb_true_iff; assumption.
Qed.

(** X16. The HTTP status tells apart only what the transport can: 400 exactly
    when the body is not JSON (the response is then the error -32700 with a
    null id), 204 exactly when there is nothing to send back, 200 in every
    other case, JSON-RPC errors included; the CORS headers are always set. *)
Theorem post_status (body : jsstring + json) (env : Env) :
  let response := result_of (POST body) env in
  res_headers response = CORS_HEADERS
  /\ (res_status response = 400%N
      <-> exists error, body = inl error)
  /\ (res_status response = 400%N ->
      res_body response = Some (makeError JNull (-32700) "Parse error" None))
  /\ (res_status response = 204%N <-> res_body response = None)
  /\ (res_status response = 200%N \/ res_status response = 204%N
      \/ res_status response = 400%N).
Proof.
  intros response. subst response.
  destruct body as [error | message].
  - unfold POST. rewrite result_bind, result_ret. cbn.
    repeat split; try discriminate; eauto.
  - assert (forall r : HttpResponse,
               r = noContent \/ (exists b, r = jsonResponse b 200) ->
               res_headers r = CORS_HEADERS
               /\ (res_status r = 400%N <-> exists error, @inr jsstring json message = inl error)
               /\ (res_status r = 400%N ->
                   res_body r = Some (makeError JNull (-32700) "Parse error" None))
               /\ (res_status r = 204%N <-> res_body r = None)
               /\ (res_status r = 200%N \/ res_status r = 204%N \/ res_status r = 400%N))
      as Hshape.
    { intros r [-> | [b ->]]; cbn; repeat split; try discriminate; eauto.
      all: intros [e He]; discriminate. }
    apply Hshape.
    assert (forall m, result_of (response <- handleMessage m ;;
                                 match response with
                                 | None => ret noContent
                                 | Some r => ret (jsonResponse r 200)
                                 end) env = noContent
                      \/ exists b, result_of (response <- handleMessage m ;;
                                 match response with
                                 | None => ret noContent
                                 | Some r => ret (jsonResponse r 200)
                                 end) env = jsonResponse b 200) as Hone.
    { intros m. rewrite result_bind.
      destruct (result_of (handleMessage m) env); rewrite result_ret; eauto. }
    destruct message; try apply Hone.
    unfold POST. rewrite result_bind.
    destruct (result_of (handleBatch items) env); rewrite result_ret; eauto.
Qed.

(* ================================================================== *)
(** * The logger (src/lib/logger.ts) *)
(* ================================================================== *)

Definition MAX_STRING_LENGTH : nat := 120.

Definition normalizeString (value : jsstring) : jsstring := trim (replace_ws false value).

Definition truncate (value : jsstring) (limit : nat) : jsstring :=
  let normalized := normalizeString value in
  if Nat.leb (List.length normalized) limit then normalized
  else slice0 limit normalized ++ lit "...".

Definition safeValue (value : json) : json :=
  match value with
  | JStr s => JStr (truncate s MAX_STRING_LENGTH)
  | JArr items => JStr (lit "array(len=" ++ string_of_nat (List.length items) ++ lit ")")
  | JObj _ => JStr (lit "[object]")
  | _ => value
  end.

(** The loop over [Object.entries(meta)]. *)
Definition sanitize (meta : list (jsstring * json)) : list (jsstring * json) :=
  build_object (List.map (fun kv => (fst kv, safeValue (snd kv))) meta).

(** [{ level, message, ...sanitized, timestamp }]: a later property of the
    same name replaces the value and keeps the place. The properties are
    listed in insertion order, which is the order of the JavaScript object
    when no key is an array index; the keys of every call of [log] in the
    program are identifiers. *)
Definition log_entry (level message : string) (meta : list (jsstring * json))
           (timestamp : jsstring) : list (jsstring * json) :=
  build_object ([(lit "level", str level); (lit "message", str message)]
                  ++ sanitize meta ++ [(lit "timestamp", JStr timestamp)]).

(** The line [log] prints. *)
Definition log_line (level message : string) (meta : list (jsstring * json))
           (timestamp : jsstring) : jsstring :=
  JSON_stringify (JObj (log_entry level message meta timestamp)).

(** A value that is neither an array nor an object. *)
Definition is_scalar (v : json) : bool :=
  match v with
  | JArr _ | JObj _ => false
  | _ => true
  end.

Lemma normalizeString_clean (value : jsstring) : normalizeString value = clean value.
Proof. reflexivity. Qed.

Lemma single_spaced_app (p d : jsstring) (b : bool) :
  single_spaced b p = true -> forallb (fun c => negb (is_space c)) d = true ->
  single_spaced b (p ++ d) = true.
Proof.
  intros Hp Hd. revert b Hp. induction p as [| c t IH]; intros b Hp.
  - cbn [app]. clear Hp. revert b. induction d as [| c t IHd]; intros b; [reflexivity |].
    cbn [forallb] in Hd. apply andb_prop in Hd. destruct Hd as [Hc Ht].
    apply negb_true_iff in Hc. cbn [single_spaced]. rewrite Hc. apply IHd, Ht.
  - cbn [app single_spaced] in *. destruct (is_space c).
    + apply andb_prop in Hp. destruct Hp as [Hp Ht]. rewrite Hp, (IH _ Ht). reflexivity.
    + apply IH, Hp.
Qed.

Lemma cut_is_clean (n : jsstring) (limit : nat) :
  is_clean n = true -> is_clean (slice0 limit n ++ lit "...") = true.
Proof.
  unfold is_clean, slice0. intros H. apply andb_prop in H. destruct H as [Hs _].
  rewrite <- (firstn_skipn limit n) in Hs. apply single_spaced_prefix in Hs.
  rewrite (single_spaced_app _ (lit "...") true Hs eq_refl).
  unfold no_trailing_space. rewrite rev_app_distr. reflexivity.
Qed.

Lemma truncate_short (value : jsstring) (limit : nat) :
  List.length (normalizeString value) <= limit ->
  truncate value limit = normalizeString value.
Proof. intros H. unfold truncate. apply Nat.leb_le in H. rewrite H. reflexivity. Qed.

Lemma truncate_long (value : jsstring) (limit : nat) :
  limit < List.length (normalizeString value) ->
  truncate value limit = slice0 limit (normalizeString value) ++ lit "...".
Proof. intros H. unfold truncate. apply Nat.leb_gt in H. rewrite H. reflexivity. Qed.

Lemma truncate_length (value : jsstring) (limit : nat) :
  List.length (truncate value limit) <= limit + 3.
Proof.
  destruct (Nat.le_gt_cases (List.length (normalizeString value)) limit) as [H | H].
  - rewrite (truncate_short _ _ H). lia.
  - rewrite (truncate_long _ _ H). unfold slice0.
    rewrite length_app, length_firstn. change (List.length (lit "...")) with 3. lia.
Qed.

Lemma truncate_is_clean (value : jsstring) (limit : nat) :
  is_clean (truncate value limit) = true.
Proof.
  destruct (Nat.le_gt_cases (List.length (normalizeString value)) limit) as [H | H].
  - rewrite (truncate_short _ _ H). apply clean_is_clean.
  - rewrite (truncate_long _ _ H). apply cut_is_clean, clean_is_clean.
Qed.

(** X17. What [truncate] returns is at most three code units longer than
    the limit, is normalized (single spaces only, none at either end, so no
    line break), and is left as it is by a second [truncate] with the same
    limit. *)
Theorem truncate_bounded_and_stable (value : jsstring) (limit : nat) :
  List.length (truncate value limit) <= limit + 3
  /\ normalizeString (truncate value limit) = truncate value limit
  /\ truncate (truncate value limit) limit = truncate value limit.
Proof.
  split; [apply truncate_length |].
  assert (normalizeString (truncate value limit) = truncate value limit) as Hfix.
  { rewrite normalizeString_clean. apply is_clean_fixed, truncate_is_clean. }
  split; [exact Hfix |].
  destruct (Nat.le_gt_cases (List.length (normalizeString value)) limit) as [H | H].
  - rewrite (truncate_short _ _ H) in *.
    rewrite truncate_short; [exact Hfix | rewrite Hfix; exact H].
  - rewrite (truncate_long _ _ H) in *.
    assert (List.length (slice0 limit (normalizeString value)) = limit) as Hcut.
    { unfold slice0. rewrite length_firstn. lia. }
    rewrite truncate_long; rewrite Hfix.
    + f_equal. unfold slice0 at 1. rewrite firstn_app, Hcut, Nat.sub_diag.
      cbn [firstn]. rewrite app_nil_r. rewrite <- Hcut at 1. apply firstn_all.
    + rewrite length_app, Hcut. change (List.length (lit "...")) with 3. lia.
Qed.

Lemma safeValue_scalar (value : json) : is_scalar (safeValue value) = true.
Proof. destruct value; reflexivity. Qed.

Lemma set_prop_Forall (P : jsstring * json -> Prop) (k : jsstring) (v : json)
      (props : list (jsstring * json)) :
  P (k, v) -> Forall P props -> Forall P (set_prop k v props).
Proof.
  intros Hkv H. induction H as [| [k' v'] rest Hx Hrest IH]; cbn [set_prop].
  - constructor; [exact Hkv | constructor].
  - destruct (jsstring_eqb k' k); constructor; assumption.
Qed.

Lemma build_object_Forall (P : jsstring * json -> Prop) (members : list (jsstring * json)) :
  Forall P members -> Forall P (build_object members).
Proof.
  unfold build_object. intros H.
  assert (forall acc, Forall P acc ->
                      Forall P (fold_left (fun acc kv => set_prop (fst kv) (snd kv) acc)
                                          members acc)) as Hacc.
  { induction H as [| [k v] rest Hx Hrest IH]; intros acc Hacc; [exact Hacc |].
    cbn [fold_left]. apply IH, set_prop_Forall; assumption. }
  apply Hacc. constructor.
Qed.

Lemma string_of_Z_no_LF (z : Z) : no_LF (string_of_Z z) = true.
Proof.
  unfold string_of_Z. destruct (Z.to_int z) as [d | d]; cbn [NilEmpty.string_of_int].
  - apply string_of_uint_no_LF.
  - change (no_LF (45%N :: lit (NilEmpty.string_of_uint d)) = true).
    rewrite no_LF_cons, string_of_uint_no_LF. reflexivity.
Qed.

(** [JSON.stringify] without a gap writes no line feed. *)
Lemma stringify_no_LF (v : json) : forall indent, no_LF (SerializeJSON [] indent v) = true.
Proof.
  induction v as [| b | z | s | items IH | props IH] using json_induction;
    intros indent; cbn [SerializeJSON].
  - reflexivity.
  - destruct b; reflexivity.
  - apply string_of_Z_no_LF.
  - unfold QuoteJSONString. rewrite no_LF_cons, no_LF_app, quote_body_no_LF. reflexivity.
  - unfold wrap_members.
    destruct (List.map (SerializeJSON [] (indent ++ [])) items) as [| p rest] eqn:E;
      [reflexivity |].
    rewrite <- E, !no_LF_app, join_no_LF; [reflexivity | reflexivity |].
    clear E. induction IH as [| x l Hx Hl IHl]; [reflexivity |].
    cbn [List.map forallb]. rewrite Hx, IHl. reflexivity.
  - unfold wrap_members.
    destruct (List.map _ props) as [| p rest] eqn:E; [reflexivity |].
    rewrite <- E, !no_LF_app, join_no_LF; [reflexivity | reflexivity |].
    clear E. induction IH as [| [k x] l Hx Hl IHl]; [reflexivity |].
    cbn [List.map forallb fst snd]. rewrite IHl, andb_true_r.
    unfold member, QuoteJSONString. cbn [app].
    rewrite no_LF_cons, !no_LF_app, quote_body_no_LF. cbn [snd] in Hx. rewrite Hx. reflexivity.
Qed.

(** X18. What [log] prints is one line, whatever the call: the entry is
    serialized without a line feed, and none of its properties holds an array
    or an object (an array is replaced by its length, an object by a
    placeholder). *)
Theorem log_prints_one_flat_line (level message : string) (meta : list (jsstring * json))
        (timestamp : jsstring) :
  no_LF (log_line level message meta timestamp) = true
  /\ Forall (fun kv => is_scalar (snd kv) = true) (log_entry level message meta timestamp).
Proof.
  split; [apply stringify_no_LF |].
  unfold log_entry, sanitize. apply build_object_Forall.
  repeat (apply Forall_cons; [reflexivity |]).
  apply Forall_app. split; [| repeat constructor].
  apply build_object_Forall, Forall_forall.
  intros kv Hin. apply in_map_iff in Hin. destruct Hin as (x & <- & _).
  apply safeValue_scalar.
Qed.

(* ================================================================== *)
(** * The counts of a call, and the tools that are advertised *)
(* ================================================================== *)

(** The six counts [getContextStats] gives for a context. *)
Definition context_counts (c : Context) : list (jsstring * json) :=
  [(lit "key_points_count", JNum (Z.of_nat (List.length (key_points c))));
   (lit "open_questions_count", JNum (Z.of_nat (List.length (open_questions c))));
   (lit "next_steps_count", JNum (Z.of_nat (List.length (next_steps c))));
   (lit "risks_count", JNum (Z.of_nat (List.length (risks c))));
   (lit "stakeholders_count", JNum (Z.of_nat (List.length (stakeholders c))));
   (lit "evidence_count", JNum (Z.of_nat (List.length (evidence c))))].

(** X19. The statistics logged for a call are the sizes of the six lists of
    the validated request, evidence included, whichever optional fields the
    request has. *)
Theorem stats_of_validated_request (data : SummarizeInput) :
  getContextStats (SummarizeInput_json data) = context_counts (context data).
Proof.
  destruct data as [id name canvas c format title]. destruct c as [s kp oq ns rs sh ev lu].
  unfold getContextStats, SummarizeInput_json, Context_json, context_counts.
  cbn [deal_id deal_name source_canvas_name context output_format doc_title
       summary key_points open_questions next_steps risks stakeholders evidence last_updated].
  destruct id, name, canvas; cbn [opt_prop app];
    repeat (rewrite lookup_here || rewrite lookup_skip by reflexivity);
    cbn [List.map app];
    repeat (rewrite lookup_here || rewrite lookup_skip by reflexivity);
    rewrite !length_map; reflexivity.
Qed.

(** The name a tool is advertised under. *)
Definition tool_name (tool : json) : jsstring :=
  match tool with
  | JObj t => match lookup (lit "name") t with
              | Some (JStr n) => n
              | _ => []
              end
  | _ => []
  end.

(** [tools/list] advertises a tool of this name. *)
Definition advertised (name : jsstring) : bool :=
  existsb (fun tool => jsstring_eqb name (tool_name tool)) TOOL_DEFS.

Definition UNKNOWN_TOOL (name : jsstring) : json :=
  toolResult (lit "Unknown tool: " ++ name) true.

(** The text of a tool-level result. *)
Definition text_of (response : option json) : jsstring :=
  match response with
  | Some (JObj [_; _; (_, JObj ((_, JArr [JObj [_; (_, JStr text)]]) :: _))]) => text
  | _ => []
  end.

(** The error flag of a tool-level result. *)
Definition isError_of (response : option json) : bool :=
  match response with
  | Some (JObj [_; _; (_, JObj [_; (_, JBool flag)])]) => flag
  | _ => false
  end.

Lemma advertised_names (name : jsstring) :
  advertised name
  = jsstring_eqb name (lit "healthcheck") || jsstring_eqb name (lit "summarize_context").
Proof. unfold advertised. cbn [TOOL_DEFS existsb]. rewrite orb_false_r. reflexivity. Qed.

(** X20. The tools that are listed are the tools that are served: a call
    that names a tool is answered "Unknown tool: ..." exactly when
    [tools/list] does not advertise a tool of that name. *)
Theorem listed_tools_are_served (id : json) (requestId : jsstring)
        (m : list (jsstring * json)) (env : Env) :
  name_of (params_of m) <> [] ->
  (advertised (name_of (params_of m)) = false
   <-> result_of (toolsCall id requestId m) env
       = Some (makeResult id (UNKNOWN_TOOL (name_of (params_of m))))).
Proof.
  intros Hname. rewrite advertised_names. unfold toolsCall.
  destruct (name_of (params_of m)) as [| c name] eqn:E; [contradiction |].
  destruct (jsstring_eqb (c :: name) (lit "healthcheck")) eqn:Hh; cbn [orb].
  - rewrite !result_bind, result_ret. split; [discriminate |].
    intros H. apply (f_equal isError_of) in H. discriminate.
  - destruct (jsstring_eqb (c :: name) (lit "summarize_context")) eqn:Hs.
    + split; [discriminate |]. intros H. exfalso. revert H.
      unfold callSummarizeContext.
      destruct (safeParse summarizeInputSchema _) as [errors | data].
      * rewrite result_bind, result_ret. intros H.
        apply (f_equal (fun r => hd 0%N (text_of r))) in H. discriminate.
      * rewrite !result_bind, result_ret.
        destruct (result_of (pushSummaryToDocWebhook _ _) env); intros H.
        -- apply (f_equal isError_of) in H. discriminate.
        -- apply (f_equal (fun r => hd 0%N (text_of r))) in H. discriminate.
    + rewrite result_bind, result_ret. split; reflexivity.
Qed.

Lemma listed_tools_are_served_witness :
  advertised (name_of (params_of call_renewal)) = false
  <-> result_of (toolsCall (JNum 2) (lit "2") call_renewal) env_echo
      = Some (makeResult (JNum 2) (UNKNOWN_TOOL (name_of (params_of call_renewal)))).
Proof.
  apply (listed_tools_are_served (JNum 2) (lit "2") call_renewal env_echo).
  vm_compute. discriminate.
Defined.
